(** * handoff-mcp: workflow engine and agent orchestrator

    A shallow embedding of the two stateful cores of the repository,
    [WorkflowEngine] (workflow/WorkflowEngine.ts) and [AgentOrchestrator]
    (orchestration/AgentOrchestrator.ts), with the properties their
    specification states about them and further properties read off
    their code.

    Conventions of the embedding:
    - JavaScript numbers that only count (step counters, retry counters,
      proficiencies) are [Z]; the others are rationals [Q]. What the code
      stores or rounds after a division (the load of an agent, the
      progress and the duration of a workflow, the figures of the
      workload summary) is
      computed in binary64 as the code computes it, operation by
      operation, and is kept as the exact value of the double; Infinity
      and NaN, which come of a division by zero, read as 0. The rates,
      the durations and the scores of the performance records, by which
      agents are compared, are computed exactly: their rounding is
      idealised away;
    - [new Date()] is an input [now : Time] of each operation;
    - [crypto.randomUUID()] is an input of the operation that draws it;
    - a thrown [Error] is a result [inl e]; what was mutated before the
      throw stays mutated, as in JavaScript;
    - an [async] operation is one step: its caller awaits it before the
      next operation. [updateAgentStatus] is not [async] and starts an
      [async] pass without awaiting it; that pass is modelled with what it
      leaves suspended when [updateAgentStatus] returns, and the next
      operation is started when the pass has been resumed to its end;
    - the objects a caller hands in (custom steps, agents) are taken by
      value: what the caller does later through a reference it has kept is
      not modelled;
    - the [EventEmitter] notifications have no listener inside the two
      classes and are left out. *)

From Stdlib Require Import ZArith QArith Qround Lia Lqa.
From Stdlib Require SpecFloat.
From stdpp Require Import base option list strings gmap.

Local Open Scope Z_scope.

(** ** JavaScript helpers *)

Module JS.

Definition Time : Type := Z.

(** [Math.round]: the nearest integer, halves towards plus infinity. *)
Definition Math_round (x : Q) : Z := Qfloor (x + (1 # 2))%Q.

(** Numbers are IEEE 754 binary64: 53 bits of precision, exponents up to
    1024, every operation rounded to the nearest double, ties to even.
    The operations are those of the reference implementation of the
    Standard Library. *)
Definition double : Type := SpecFloat.spec_float.

Definition ofZ (z : Z) : double := SpecFloat.binary_normalize 53 1024 z 0 false.

(** The exact value of a double; Infinity and NaN read as 0. *)
Definition value (x : double) : Q :=
  match x with
  | SpecFloat.S754_finite s m e =>
      let n := if s then Z.neg m else Z.pos m in
      Qred (match e with
            | Z.neg k => n # (2 ^ k)
            | _ => inject_Z (n * 2 ^ e)
            end)
  | _ => 0%Q
  end.

(** The double of a rational, its numerator divided by its denominator:
    the rational itself when it is the value of a double and its
    denominator is a double too, as for every load and percentage
    here. *)
Definition ofQ (x : Q) : double :=
  SpecFloat.SFdiv 53 1024 (ofZ (Qnum x)) (ofZ (Z.pos (Qden x))).

(** [x + y], [x * y] and [x / y] on numbers, each rounded to a double.
    Between two operations a number is its exact value. *)
Definition add (x y : Q) : Q := value (SpecFloat.SFadd 53 1024 (ofQ x) (ofQ y)).

Definition mul (x y : Q) : Q := value (SpecFloat.SFmul 53 1024 (ofQ x) (ofQ y)).

Definition div (x y : Q) : Q := value (SpecFloat.SFdiv 53 1024 (ofQ x) (ofQ y)).

#[global] Arguments add : simpl never.
#[global] Arguments mul : simpl never.
#[global] Arguments div : simpl never.

(** Truthiness of a string: the empty string is the only falsy one. *)
Definition truthy (s : string) : bool := negb (String.eqb s "").

(** [x = l.find(p); if (x) x := f x]: the first element that satisfies [p]
    is updated in place. *)
Fixpoint modify_first {A : Type} (p : A -> bool) (f : A -> A) (l : list A) : list A :=
  match l with
  | [] => []
  | x :: l' => if p x then f x :: l' else x :: modify_first p f l'
  end.

(** [x < y] on numbers. *)
Definition Qltb (x y : Q) : bool := negb (Qle_bool y x).

End JS.

(** ** Errors

    Both classes throw plain [Error]s that differ in their message; one
    constructor stands for each message. *)

Inductive Error : Type :=
| WorkflowNotFound (workflowId : string)   (* "Workflow ${id} not found" *)
| InvalidTransition                        (* "Invalid transition: ${state} -> ${trigger}" *)
| GuardNotMet                              (* "Transition conditions not met: ..." *)
| StepNotFound (stepId : string)           (* "Step ${id} not found" *)
| DependenciesNotMet (stepId : string)     (* "Dependencies not met for step ${id}" *)
| SessionNotFound (sessionId : string)     (* ContextManager: "Session ${id} not found" *)
| NoSuitableAgent                          (* "No suitable agent available for task" *)
| TaskNotFound (taskId : string)           (* "Task ${id} not found" *)
| AgentNotFound (agentId : string)         (* "Agent ${id} not found" *)
| Diverges.  (* not an exception: the [while] loop of [selectRoundRobin] never exits *)

(** ** A state monad with exceptions that do not roll back *)

Definition M (St A : Type) : Type := St -> St * (Error + A).

Definition ret {St A : Type} (a : A) : M St A := fun s => (s, inr a).

Definition throw {St A : Type} (e : Error) : M St A := fun s => (s, inl e).

Definition bind {St A B : Type} (m : M St A) (k : A -> M St B) : M St B :=
  fun s =>
    match m s with
    | (s', inl e) => (s', inl e)
    | (s', inr a) => k a s'
    end.

Definition get {St : Type} : M St St := fun s => (s, inr s).

Definition modify {St : Type} (f : St -> St) : M St unit := fun s => (f s, inr tt).

Notation "'let*' x := m 'in' k" := (bind m (fun x => k))
  (at level 10, x name, m at level 200, k at level 200, only parsing).

Definition succeeded {St A : Type} (r : St * (Error + A)) : bool :=
  match r with (_, inr _) => true | _ => false end.

(** A computation keeps a property of the state, whether it returns or
    throws. *)
Definition preserves {St A : Type} (P : St -> Prop) (m : M St A) : Prop :=
  forall s, P s -> P (fst (m s)).

(** ** The context manager, as far as the two classes call it

    [updateTaskContext] and [trackArtifact] throw when the session is not
    known and otherwise touch only the context manager's own records. *)

Module ContextManager.

Record t : Type := { sessions : list string }.

Definition has (cm : t) (sessionId : string) : bool :=
  existsb (String.eqb sessionId) (sessions cm).

Definition updateTaskContext {St : Type} (cm : t) (sessionId : string) : M St unit :=
  if has cm sessionId then ret tt else throw (SessionNotFound sessionId).

Definition trackArtifact {St : Type} (cm : t) (sessionId : string) : M St unit :=
  if has cm sessionId then ret tt else throw (SessionNotFound sessionId).

End ContextManager.

(** ** Workflow engine: data model (WorkflowEngine.ts) *)

Module WorkflowState.
Inductive t : Type :=
  draft | ready | running | paused | blocked | review | completed | failed | cancelled.
#[global] Instance eq_dec : EqDecision t.
Proof. solve_decision. Defined.
End WorkflowState.

Module StepStatus.
Inductive t : Type := pending | ready | running | completed | failed | skipped.
#[global] Instance eq_dec : EqDecision t.
Proof. solve_decision. Defined.
End StepStatus.

Module Trigger.
Inductive t : Type :=
  start | pause | resume | complete | fail | block | unblock | cancel | review | approve.
#[global] Instance eq_dec : EqDecision t.
Proof. solve_decision. Defined.
End Trigger.

Inductive WorkflowType : Type := feature | bugfix | refactor | research | deployment | custom.

Inductive Priority : Type := low | medium | high | critical.

(** A step. The fields the engine never reads or writes ([assignee],
    [inputs], [error], [retryCount], [maxRetries]) are left out; an absent
    [dependencies] array reads as the empty one, which [checkDependencies]
    treats alike; [type] stays a string because [validateWorkflow] tests
    its truthiness. *)
Module WorkflowStep.
Record t : Type := {
  id : string;
  name : string;
  description : string;
  type : string;
  dependencies : list string;
  status : StepStatus.t;
  startedAt : option JS.Time;
  completedAt : option JS.Time;
  outputs : option string
}.

Definition set_status (v : StepStatus.t) (s : t) : t :=
  {| id := id s; name := name s; description := description s; type := type s;
     dependencies := dependencies s; status := v; startedAt := startedAt s;
     completedAt := completedAt s; outputs := outputs s |}.

Definition set_startedAt (v : option JS.Time) (s : t) : t :=
  {| id := id s; name := name s; description := description s; type := type s;
     dependencies := dependencies s; status := status s; startedAt := v;
     completedAt := completedAt s; outputs := outputs s |}.

Definition set_completedAt (v : option JS.Time) (s : t) : t :=
  {| id := id s; name := name s; description := description s; type := type s;
     dependencies := dependencies s; status := status s; startedAt := startedAt s;
     completedAt := v; outputs := outputs s |}.

Definition set_outputs (v : option string) (s : t) : t :=
  {| id := id s; name := name s; description := description s; type := type s;
     dependencies := dependencies s; status := status s; startedAt := startedAt s;
     completedAt := completedAt s; outputs := v |}.
End WorkflowStep.

Module Metadata.
Record t : Type := {
  createdBy : string;
  createdAt : JS.Time;
  updatedAt : JS.Time;
  estimatedDuration : option Z;
  actualDuration : option Z;
  priority : Priority
}.

Definition set_updatedAt (v : JS.Time) (m : t) : t :=
  {| createdBy := createdBy m; createdAt := createdAt m; updatedAt := v;
     estimatedDuration := estimatedDuration m; actualDuration := actualDuration m;
     priority := priority m |}.

Definition set_actualDuration (v : option Z) (m : t) : t :=
  {| createdBy := createdBy m; createdAt := createdAt m; updatedAt := updatedAt m;
     estimatedDuration := estimatedDuration m; actualDuration := v;
     priority := priority m |}.
End Metadata.

Module Metrics.
Record t : Type := {
  stepsCompleted : Z;
  stepsTotal : Z;
  progressPercentage : Z;
  averageStepDuration : Z;
  blockerCount : Z
}.

Definition set_stepsCompleted (v : Z) (m : t) : t :=
  {| stepsCompleted := v; stepsTotal := stepsTotal m;
     progressPercentage := progressPercentage m;
     averageStepDuration := averageStepDuration m; blockerCount := blockerCount m |}.

Definition set_progressPercentage (v : Z) (m : t) : t :=
  {| stepsCompleted := stepsCompleted m; stepsTotal := stepsTotal m;
     progressPercentage := v;
     averageStepDuration := averageStepDuration m; blockerCount := blockerCount m |}.

Definition set_blockerCount (v : Z) (m : t) : t :=
  {| stepsCompleted := stepsCompleted m; stepsTotal := stepsTotal m;
     progressPercentage := progressPercentage m;
     averageStepDuration := averageStepDuration m; blockerCount := v |}.
End Metrics.

(** A workflow; of [context] only [sessionId] is read by the engine. *)
Module Workflow.
Record t : Type := {
  id : string;
  projectId : string;
  name : string;
  description : string;
  type : WorkflowType;
  state : WorkflowState.t;
  steps : list WorkflowStep.t;
  currentStepId : option string;
  metadata : Metadata.t;
  sessionId : option string;
  metrics : Metrics.t
}.

Definition set_state (v : WorkflowState.t) (w : t) : t :=
  {| id := id w; projectId := projectId w; name := name w; description := description w;
     type := type w; state := v; steps := steps w; currentStepId := currentStepId w;
     metadata := metadata w; sessionId := sessionId w; metrics := metrics w |}.

Definition set_steps (v : list WorkflowStep.t) (w : t) : t :=
  {| id := id w; projectId := projectId w; name := name w; description := description w;
     type := type w; state := state w; steps := v; currentStepId := currentStepId w;
     metadata := metadata w; sessionId := sessionId w; metrics := metrics w |}.

Definition set_currentStepId (v : option string) (w : t) : t :=
  {| id := id w; projectId := projectId w; name := name w; description := description w;
     type := type w; state := state w; steps := steps w; currentStepId := v;
     metadata := metadata w; sessionId := sessionId w; metrics := metrics w |}.

Definition set_metadata (v : Metadata.t) (w : t) : t :=
  {| id := id w; projectId := projectId w; name := name w; description := description w;
     type := type w; state := state w; steps := steps w; currentStepId := currentStepId w;
     metadata := v; sessionId := sessionId w; metrics := metrics w |}.

Definition set_sessionId (v : option string) (w : t) : t :=
  {| id := id w; projectId := projectId w; name := name w; description := description w;
     type := type w; state := state w; steps := steps w; currentStepId := currentStepId w;
     metadata := metadata w; sessionId := v; metrics := metrics w |}.

Definition set_metrics (v : Metrics.t) (w : t) : t :=
  {| id := id w; projectId := projectId w; name := name w; description := description w;
     type := type w; state := state w; steps := steps w; currentStepId := currentStepId w;
     metadata := metadata w; sessionId := sessionId w; metrics := v |}.
End Workflow.

Module TemplateStep.
Record t : Type := {
  name : string;
  description : string;
  type : string;
  dependencies : list string
}.
End TemplateStep.

Module WorkflowTemplate.
Record t : Type := {
  id : string;
  name : string;
  description : string;
  type : WorkflowType;
  steps : list TemplateStep.t;
  estimatedDuration : Z;
  requiredInputs : list string;
  expectedOutputs : list string
}.
End WorkflowTemplate.

(** What [getWorkflowStatus] returns. *)
Module WorkflowStatus.
Record t : Type := {
  workflow : Workflow.t;
  readySteps : list WorkflowStep.t;
  blockedSteps : list WorkflowStep.t;
  completedSteps : list WorkflowStep.t
}.
End WorkflowStatus.

(** ** Workflow engine: operations *)

Module WorkflowEngine.

Record WorkflowTransition : Type := {
  from : WorkflowState.t;
  to : WorkflowState.t;
  trigger : Trigger.t;
  condition : option (Workflow.t -> bool);
  action : option (JS.Time -> ContextManager.t -> M Workflow.t unit)
}.

(** The engine object. [transitions] is filled once by the constructor and
    never changes, so it is the constant [transitions] below. *)
Record t : Type := {
  workflows : gmap string Workflow.t;
  templates : gmap string WorkflowTemplate.t;
  contextManager : ContextManager.t
}.

Definition set_workflows (v : gmap string Workflow.t) (e : t) : t :=
  {| workflows := v; templates := templates e; contextManager := contextManager e |}.

(** A step is referred to by a dependency through its name or its id. *)
Definition refers (depId : string) (s : WorkflowStep.t) : bool :=
  bool_decide (WorkflowStep.name s = depId) || bool_decide (WorkflowStep.id s = depId).

Definition has_id (stepId : string) (s : WorkflowStep.t) : bool :=
  bool_decide (WorkflowStep.id s = stepId).

Definition has_status (v : StepStatus.t) (s : WorkflowStep.t) : bool :=
  bool_decide (WorkflowStep.status s = v).

Definition dependencyCompleted (steps : list WorkflowStep.t) (depId : string) : bool :=
  match List.find (refers depId) steps with
  | Some depStep => has_status StepStatus.completed depStep
  | None => false
  end.

(** [checkDependencies]: the loop returns false at the first dependency
    that is missing or not completed; no dependency gives true. *)
Definition checkDependencies (workflow : Workflow.t) (step : WorkflowStep.t) : bool :=
  forallb (dependencyCompleted (Workflow.steps workflow)) (WorkflowStep.dependencies step).

Definition validateWorkflow (workflow : Workflow.t) : bool :=
  bool_decide (0 < length (Workflow.steps workflow))%nat &&
  forallb (fun s => JS.truthy (WorkflowStep.name s) && JS.truthy (WorkflowStep.type s))
          (Workflow.steps workflow).

Definition allStepsComplete (workflow : Workflow.t) : bool :=
  forallb (fun s => has_status StepStatus.completed s || has_status StepStatus.skipped s)
          (Workflow.steps workflow).

Definition startable (workflow : Workflow.t) (s : WorkflowStep.t) : bool :=
  has_status StepStatus.ready s ||
  (has_status StepStatus.pending s && checkDependencies workflow s).

(** [startNextStep]: the first step that is ready, or pending with its
    dependencies met, is set to ready. *)
Definition startNextStep (workflow : Workflow.t) : Workflow.t :=
  Workflow.set_steps
    (JS.modify_first (startable workflow) (WorkflowStep.set_status StepStatus.ready)
                     (Workflow.steps workflow))
    workflow.

(** One round of the [for (const step of workflow.steps)] loop of
    [prepareWorkflow], on the step at index [i] of the array as it is then. *)
Definition prepareStep (workflow : Workflow.t) (i : nat) : Workflow.t :=
  match Workflow.steps workflow !! i with
  | Some step =>
      if checkDependencies workflow step && has_status StepStatus.pending step
      then Workflow.set_steps
             (<[i := WorkflowStep.set_status StepStatus.ready step]> (Workflow.steps workflow))
             workflow
      else workflow
  | None => workflow
  end.

Definition prepareWorkflow (workflow : Workflow.t) : Workflow.t :=
  let workflow := fold_left prepareStep (seq 0 (length (Workflow.steps workflow))) workflow in
  let hasReadySteps := existsb (has_status StepStatus.ready) (Workflow.steps workflow) in
  if hasReadySteps
  then startNextStep (Workflow.set_state WorkflowState.running workflow)
  else workflow.

(** [if (workflow.currentStepId) step = workflow.steps.find(s => s.id === it)] *)
Definition currentStepPred (workflow : Workflow.t) : option (WorkflowStep.t -> bool) :=
  match Workflow.currentStepId workflow with
  | Some stepId => if JS.truthy stepId then Some (has_id stepId) else None
  | None => None
  end.

Definition linkedSession (workflow : Workflow.t) : option string :=
  match Workflow.sessionId workflow with
  | Some sessionId => if JS.truthy sessionId then Some sessionId else None
  | None => None
  end.

Definition pauseCurrentStep (cm : ContextManager.t) : M Workflow.t unit :=
  let* workflow := get in
  match currentStepPred workflow with
  | Some p =>
      match List.find p (Workflow.steps workflow) with
      | Some step =>
          if has_status StepStatus.running step
          then match linkedSession workflow with
               | Some sessionId => ContextManager.updateTaskContext cm sessionId
               | None => ret tt
               end
          else ret tt
      | None => ret tt
      end
  | None => ret tt
  end.

Definition resumeCurrentStep (cm : ContextManager.t) : M Workflow.t unit :=
  let* workflow := get in
  match currentStepPred workflow with
  | Some p =>
      match List.find p (Workflow.steps workflow) with
      | Some _ =>
          let* _ := modify (fun w => Workflow.set_steps
                              (JS.modify_first p (WorkflowStep.set_status StepStatus.running)
                                               (Workflow.steps w)) w) in
          match linkedSession workflow with
          | Some sessionId => ContextManager.updateTaskContext cm sessionId
          | None => ret tt
          end
      | None => ret tt
      end
  | None => ret tt
  end.

Definition handleBlocker (workflow : Workflow.t) : Workflow.t :=
  let m := Workflow.metrics workflow in
  Workflow.set_metrics (Metrics.set_blockerCount (Metrics.blockerCount m + 1) m) workflow.

Definition resolveBlocker (workflow : Workflow.t) : Workflow.t := startNextStep workflow.

(** [if (estimatedDuration)] is false for an absent and for a zero duration;
    the dates are in milliseconds. *)
Definition prepareReview (workflow : Workflow.t) : Workflow.t :=
  let md := Workflow.metadata workflow in
  match Metadata.estimatedDuration md with
  | Some d =>
      if bool_decide (d = 0) then workflow
      else
        let actualDuration :=
          JS.div (inject_Z (Metadata.updatedAt md - Metadata.createdAt md)) 60000 in
        Workflow.set_metadata
          (Metadata.set_actualDuration (Some (JS.Math_round actualDuration)) md) workflow
  | None => workflow
  end.

Definition completeWorkflow (now : JS.Time) (workflow : Workflow.t) : Workflow.t :=
  let workflow :=
    Workflow.set_metadata (Metadata.set_updatedAt now (Workflow.metadata workflow)) workflow in
  Workflow.set_metrics (Metrics.set_progressPercentage 100 (Workflow.metrics workflow)) workflow.

Definition handleFailure (now : JS.Time) (workflow : Workflow.t) : Workflow.t :=
  match currentStepPred workflow with
  | Some p =>
      Workflow.set_steps
        (JS.modify_first p
           (fun s => WorkflowStep.set_completedAt (Some now)
                       (WorkflowStep.set_status StepStatus.failed s))
           (Workflow.steps workflow))
        workflow
  | None => workflow
  end.

Definition pure_action (f : Workflow.t -> Workflow.t) :
  option (JS.Time -> ContextManager.t -> M Workflow.t unit) :=
  Some (fun _ _ => modify f).

(** [initializeTransitions] *)
Definition transitions : list WorkflowTransition := [
  {| from := WorkflowState.draft; to := WorkflowState.ready; trigger := Trigger.start;
     condition := Some validateWorkflow; action := pure_action prepareWorkflow |};
  {| from := WorkflowState.ready; to := WorkflowState.running; trigger := Trigger.start;
     condition := None; action := pure_action startNextStep |};
  {| from := WorkflowState.ready; to := WorkflowState.blocked; trigger := Trigger.block;
     condition := None; action := pure_action handleBlocker |};
  {| from := WorkflowState.running; to := WorkflowState.paused; trigger := Trigger.pause;
     condition := None; action := Some (fun _ cm => pauseCurrentStep cm) |};
  {| from := WorkflowState.paused; to := WorkflowState.running; trigger := Trigger.resume;
     condition := None; action := Some (fun _ cm => resumeCurrentStep cm) |};
  {| from := WorkflowState.running; to := WorkflowState.blocked; trigger := Trigger.block;
     condition := None; action := pure_action handleBlocker |};
  {| from := WorkflowState.blocked; to := WorkflowState.running; trigger := Trigger.unblock;
     condition := None; action := pure_action resolveBlocker |};
  {| from := WorkflowState.running; to := WorkflowState.review; trigger := Trigger.review;
     condition := Some allStepsComplete; action := pure_action prepareReview |};
  {| from := WorkflowState.review; to := WorkflowState.completed; trigger := Trigger.approve;
     condition := None; action := Some (fun now _ => modify (completeWorkflow now)) |};
  {| from := WorkflowState.running; to := WorkflowState.failed; trigger := Trigger.fail;
     condition := None; action := Some (fun now _ => modify (handleFailure now)) |};
  {| from := WorkflowState.draft; to := WorkflowState.cancelled; trigger := Trigger.cancel;
     condition := None; action := Some (fun _ _ => ret tt) |}
].

(** [loadDefaultTemplates] *)
Definition templateStep (name description type : string) (dependencies : list string) :
  TemplateStep.t :=
  {| TemplateStep.name := name; TemplateStep.description := description;
     TemplateStep.type := type; TemplateStep.dependencies := dependencies |}.

Definition featureDevelopment : WorkflowTemplate.t :=
  {| WorkflowTemplate.id := "feature-development";
     WorkflowTemplate.name := "Feature Development";
     WorkflowTemplate.description := "Standard workflow for implementing new features";
     WorkflowTemplate.type := feature;
     WorkflowTemplate.steps := [
       templateStep "Requirements Analysis" "Analyze and clarify feature requirements"
                    "ai_task" [];
       templateStep "Technical Design" "Create technical design and architecture"
                    "ai_task" ["Requirements Analysis"];
       templateStep "Implementation" "Implement the feature" "ai_task" ["Technical Design"];
       templateStep "Testing" "Write and run tests" "ai_task" ["Implementation"];
       templateStep "Code Review" "Review implementation" "human_review" ["Testing"];
       templateStep "Documentation" "Update documentation" "ai_task" ["Code Review"] ];
     WorkflowTemplate.estimatedDuration := 240;
     WorkflowTemplate.requiredInputs := ["requirements"; "projectContext"];
     WorkflowTemplate.expectedOutputs := ["implementation"; "tests"; "documentation"] |}.

Definition bugFix : WorkflowTemplate.t :=
  {| WorkflowTemplate.id := "bug-fix";
     WorkflowTemplate.name := "Bug Fix";
     WorkflowTemplate.description := "Workflow for fixing bugs";
     WorkflowTemplate.type := bugfix;
     WorkflowTemplate.steps := [
       templateStep "Reproduce Issue" "Reproduce and understand the bug" "ai_task" [];
       templateStep "Root Cause Analysis" "Identify root cause" "ai_task" ["Reproduce Issue"];
       templateStep "Fix Implementation" "Implement the fix" "ai_task" ["Root Cause Analysis"];
       templateStep "Regression Testing" "Test fix and check for regressions"
                    "ai_task" ["Fix Implementation"];
       templateStep "Verification" "Verify bug is fixed" "human_review" ["Regression Testing"] ];
     WorkflowTemplate.estimatedDuration := 120;
     WorkflowTemplate.requiredInputs := ["bugDescription"; "reproductionSteps"];
     WorkflowTemplate.expectedOutputs := ["fix"; "tests"; "verification"] |}.

Definition researchTask : WorkflowTemplate.t :=
  {| WorkflowTemplate.id := "research";
     WorkflowTemplate.name := "Research Task";
     WorkflowTemplate.description := "Workflow for research and investigation";
     WorkflowTemplate.type := research;
     WorkflowTemplate.steps := [
       templateStep "Define Scope" "Define research scope and objectives" "ai_task" [];
       templateStep "Information Gathering" "Gather relevant information"
                    "ai_task" ["Define Scope"];
       templateStep "Analysis" "Analyze findings" "ai_task" ["Information Gathering"];
       templateStep "Recommendations" "Formulate recommendations" "ai_task" ["Analysis"];
       templateStep "Report Generation" "Generate research report"
                    "ai_task" ["Recommendations"] ];
     WorkflowTemplate.estimatedDuration := 180;
     WorkflowTemplate.requiredInputs := ["researchQuestion"; "context"];
     WorkflowTemplate.expectedOutputs := ["report"; "recommendations"; "evidence"] |}.

Definition loadDefaultTemplates : gmap string WorkflowTemplate.t :=
  <["research" := researchTask]>
    (<["bug-fix" := bugFix]>
       (<["feature-development" := featureDevelopment]> ∅)).

(** [new WorkflowEngine(contextManager)] *)
Definition new (contextManager : ContextManager.t) : t :=
  {| workflows := ∅; templates := loadDefaultTemplates; contextManager := contextManager |}.

(** The parameters of [createWorkflow]. *)
Record CreateParams : Type := {
  p_projectId : string;
  p_templateId : option string;
  p_name : string;
  p_description : string;
  p_type : option WorkflowType;
  p_priority : option Priority;
  p_customSteps : option (list WorkflowStep.t)
}.

Definition instantiate (stepId : string) (step : TemplateStep.t) : WorkflowStep.t :=
  {| WorkflowStep.id := stepId;
     WorkflowStep.name := TemplateStep.name step;
     WorkflowStep.description := TemplateStep.description step;
     WorkflowStep.type := TemplateStep.type step;
     WorkflowStep.dependencies := TemplateStep.dependencies step;
     WorkflowStep.status := StepStatus.pending;
     WorkflowStep.startedAt := None;
     WorkflowStep.completedAt := None;
     WorkflowStep.outputs := None |}.

Definition templateFor (e : t) (params : CreateParams) : option WorkflowTemplate.t :=
  match p_templateId params with
  | Some templateId => if JS.truthy templateId then templates e !! templateId else None
  | None => None
  end.

(** [createWorkflow]. [uuid 0] is the identifier drawn for the workflow and
    [uuid (1 + i)] the one drawn for the step at index [i] of the template.
    A list of custom steps is taken as it is given. *)
Definition createWorkflow (now : JS.Time) (uuid : nat -> string) (params : CreateParams) :
  M t Workflow.t :=
  fun e =>
    let workflowId := uuid 0%nat in
    let steps :=
      match templateFor e params with
      | Some template =>
          imap (fun i step => instantiate (uuid (S i)) step) (WorkflowTemplate.steps template)
      | None => default [] (p_customSteps params)
      end in
    let workflow :=
      {| Workflow.id := workflowId;
         Workflow.projectId := p_projectId params;
         Workflow.name := p_name params;
         Workflow.description := p_description params;
         Workflow.type := default custom (p_type params);
         Workflow.state := WorkflowState.draft;
         Workflow.steps := steps;
         Workflow.currentStepId := None;
         Workflow.metadata :=
           {| Metadata.createdBy := "system"; Metadata.createdAt := now;
              Metadata.updatedAt := now; Metadata.estimatedDuration := None;
              Metadata.actualDuration := None;
              Metadata.priority := default medium (p_priority params) |};
         Workflow.sessionId := None;
         Workflow.metrics :=
           {| Metrics.stepsCompleted := 0;
              Metrics.stepsTotal := Z.of_nat (length steps);
              Metrics.progressPercentage := 0;
              Metrics.averageStepDuration := 0;
              Metrics.blockerCount := 0 |} |} in
    (set_workflows (<[workflowId := workflow]> (workflows e)) e, inr workflow).

(** The workflow object is mutated in place: whatever a computation on it
    does, also when it throws, is seen through the map afterwards. *)
Definition onWorkflow {A : Type} (workflowId : string) (m : M Workflow.t A) : M t A :=
  fun e =>
    match workflows e !! workflowId with
    | None => (e, inl (WorkflowNotFound workflowId))
    | Some workflow =>
        let '(workflow', r) := m workflow in
        (set_workflows (<[workflowId := workflow']> (workflows e)) e, r)
    end.

(** The [for (const transition of validTransitions)] loop of [transition]. *)
Fixpoint fire (now : JS.Time) (cm : ContextManager.t) (valid : list WorkflowTransition) :
  M Workflow.t Workflow.t :=
  match valid with
  | [] => throw GuardNotMet
  | transition :: rest =>
      let* workflow := get in
      if match condition transition with Some c => c workflow | None => true end
      then
        let* _ := modify (fun w =>
                    Workflow.set_metadata (Metadata.set_updatedAt now (Workflow.metadata w))
                      (Workflow.set_state (to transition) w)) in
        let* _ := match action transition with
                  | Some act => act now cm
                  | None => ret tt
                  end in
        get
      else fire now cm rest
  end.

Definition validTransitions (workflow : Workflow.t) (trg : Trigger.t) : list WorkflowTransition :=
  List.filter (fun t => bool_decide (from t = Workflow.state workflow) &&
                        bool_decide (trigger t = trg))
              transitions.

Definition transition (now : JS.Time) (workflowId : string) (trg : Trigger.t) :
  M t Workflow.t :=
  fun e =>
    onWorkflow workflowId
      (let* workflow := get in
       let valid := validTransitions workflow trg in
       if bool_decide (length valid = 0%nat) then throw InvalidTransition
       else fire now (contextManager e) valid) e.

Definition executeStep (now : JS.Time) (workflowId stepId : string)
  (sessionId : option string) : M t unit :=
  fun e =>
    onWorkflow workflowId
      (let* workflow := get in
       match List.find (has_id stepId) (Workflow.steps workflow) with
       | None => throw (StepNotFound stepId)
       | Some step =>
           if negb (checkDependencies workflow step) then throw (DependenciesNotMet stepId)
           else
             let* _ := modify (fun w =>
                         Workflow.set_currentStepId (Some stepId)
                           (Workflow.set_steps
                              (JS.modify_first (has_id stepId)
                                 (fun s => WorkflowStep.set_startedAt (Some now)
                                             (WorkflowStep.set_status StepStatus.running s))
                                 (Workflow.steps w)) w)) in
             match sessionId with
             | Some sid =>
                 if JS.truthy sid
                 then let* _ := modify (Workflow.set_sessionId (Some sid)) in
                      ContextManager.updateTaskContext (contextManager e) sid
                 else ret tt
             | None => ret tt
             end
       end) e.

Fixpoint forEach {St A : Type} (f : A -> M St unit) (l : list A) : M St unit :=
  match l with
  | [] => ret tt
  | x :: l' => let* _ := f x in forEach f l'
  end.

Definition updateProgress (workflow : Workflow.t) : Workflow.t :=
  let m := Workflow.metrics workflow in
  let m := Metrics.set_stepsCompleted (Metrics.stepsCompleted m + 1) m in
  let m := Metrics.set_progressPercentage
             (JS.Math_round
                (JS.mul (JS.div (inject_Z (Metrics.stepsCompleted m))
                                (inject_Z (Metrics.stepsTotal m))) 100))
             m in
  Workflow.set_metrics m workflow.

(** [completeStep]; an artifact is its pair of [type] and [path]. *)
Definition completeStep (now : JS.Time) (workflowId stepId : string)
  (outputs : option string) (artifacts : option (list (string * string))) : M t unit :=
  fun e =>
    (let* allComplete :=
       onWorkflow workflowId
         (let* workflow := get in
          match List.find (has_id stepId) (Workflow.steps workflow) with
          | None => throw (StepNotFound stepId)
          | Some _ =>
              let* _ := modify (fun w =>
                          Workflow.set_steps
                            (JS.modify_first (has_id stepId)
                               (fun s => WorkflowStep.set_outputs outputs
                                           (WorkflowStep.set_completedAt (Some now)
                                              (WorkflowStep.set_status StepStatus.completed s)))
                               (Workflow.steps w)) w) in
              let* _ := match artifacts, linkedSession workflow with
                        | Some arts, Some sid =>
                            forEach (fun _ => ContextManager.trackArtifact (contextManager e) sid)
                                    arts
                        | _, _ => ret tt
                        end in
              let* _ := modify updateProgress in
              let* workflow := get in
              ret (allStepsComplete workflow)
          end) in
     if (allComplete : bool)
     then let* _ := transition now workflowId Trigger.review in ret tt
     else onWorkflow workflowId (modify startNextStep)) e.

(** *** Dependency satisfaction

    A step is active when it is ready or running; the steps of a workflow
    are satisfied when every active step has all its dependencies
    completed. *)
Definition active (s : WorkflowStep.t) : Prop :=
  WorkflowStep.status s = StepStatus.ready \/ WorkflowStep.status s = StepStatus.running.

Definition stepsSatisfied (steps : list WorkflowStep.t) : Prop :=
  forall s, In s steps -> active s ->
            forallb (dependencyCompleted steps) (WorkflowStep.dependencies s) = true.

Definition depsSatisfied (workflow : Workflow.t) : Prop :=
  forall s, In s (Workflow.steps workflow) -> active s -> checkDependencies workflow s = true.

(** The lookup as the specification words it: a dependency is matched
    against the names of the steps first, and against their ids when no
    step has that name. *)
Definition dependencyCompletedNameFirst (steps : list WorkflowStep.t) (depId : string) : bool :=
  match List.find (fun s => bool_decide (WorkflowStep.name s = depId)) steps with
  | Some depStep => has_status StepStatus.completed depStep
  | None =>
      match List.find (has_id depId) steps with
      | Some depStep => has_status StepStatus.completed depStep
      | None => false
      end
  end.

(** The step [currentStepId] designates, if any. *)
Definition currentStep (workflow : Workflow.t) : option WorkflowStep.t :=
  match currentStepPred workflow with
  | Some p => List.find p (Workflow.steps workflow)
  | None => None
  end.

Definition currentNotCompleted (workflow : Workflow.t) : Prop :=
  forall s, currentStep workflow = Some s -> WorkflowStep.status s <> StepStatus.completed.

(** The engines that the public operations build, as long as no step
    that is completed is taken out of that status again: custom steps are
    satisfied as they are handed in, no completed step is executed anew,
    and [resume] and [fail] do not find a completed current step. *)
Inductive reachable : t -> Prop :=
| reach_new (cm : ContextManager.t) :
    reachable (new cm)
| reach_createWorkflow (e : t) (now : JS.Time) (uuid : nat -> string) (params : CreateParams) :
    reachable e ->
    (templateFor e params = None -> stepsSatisfied (default [] (p_customSteps params))) ->
    reachable (fst (createWorkflow now uuid params e))
| reach_transition (e : t) (now : JS.Time) (workflowId : string) (trg : Trigger.t) :
    reachable e ->
    (trg = Trigger.resume \/ trg = Trigger.fail ->
     forall w, workflows e !! workflowId = Some w -> currentNotCompleted w) ->
    reachable (fst (transition now workflowId trg e))
| reach_executeStep (e : t) (now : JS.Time) (workflowId stepId : string)
    (sessionId : option string) :
    reachable e ->
    (forall w s, workflows e !! workflowId = Some w ->
                 List.find (has_id stepId) (Workflow.steps w) = Some s ->
                 WorkflowStep.status s <> StepStatus.completed) ->
    reachable (fst (executeStep now workflowId stepId sessionId e))
| reach_completeStep (e : t) (now : JS.Time) (workflowId stepId : string)
    (outputs : option string) (artifacts : option (list (string * string))) :
    reachable e ->
    reachable (fst (completeStep now workflowId stepId outputs artifacts e)).

(** The steps that are ready or running. *)
Definition activeSteps (workflow : Workflow.t) : list WorkflowStep.t :=
  List.filter (fun s => has_status StepStatus.ready s || has_status StepStatus.running s)
              (Workflow.steps workflow).

(** *** Notions for the proofs *)

(** Two lists of steps agree on what a dependency check can see: the
    names, the ids, and which steps are completed. *)
Definition sameCompleted (s s' : WorkflowStep.t) : Prop :=
  WorkflowStep.id s' = WorkflowStep.id s /\
  WorkflowStep.name s' = WorkflowStep.name s /\
  (WorkflowStep.status s = StepStatus.completed <->
   WorkflowStep.status s' = StepStatus.completed).

(** The same, with steps that may have become completed. *)
Definition moreCompleted (s s' : WorkflowStep.t) : Prop :=
  WorkflowStep.id s' = WorkflowStep.id s /\
  WorkflowStep.name s' = WorkflowStep.name s /\
  WorkflowStep.dependencies s' = WorkflowStep.dependencies s /\
  (WorkflowStep.status s = StepStatus.completed ->
   WorkflowStep.status s' = StepStatus.completed).

(** What the loop does to one step, the dependencies being checked in the
    workflow as it was before the loop. *)
Definition promote (w : Workflow.t) (s : WorkflowStep.t) : WorkflowStep.t :=
  if checkDependencies w s && has_status StepStatus.pending s
  then WorkflowStep.set_status StepStatus.ready s else s.

(** The moment of a transition: the new state and the new date. *)
Definition touch (now : JS.Time) (to : WorkflowState.t) (w : Workflow.t) : Workflow.t :=
  Workflow.set_metadata (Metadata.set_updatedAt now (Workflow.metadata w))
    (Workflow.set_state to w).

(** The steps of a workflow fresh from the feature-development template. *)
Definition featureSteps (uuid : nat -> string) : list WorkflowStep.t :=
  imap (fun i step => instantiate (uuid (S i)) step) (WorkflowTemplate.steps featureDevelopment).

(** What [completeStep] does to the step it finds. *)
Definition markCompleted (now : JS.Time) (outputs : option string) (s : WorkflowStep.t) :
  WorkflowStep.t :=
  WorkflowStep.set_outputs outputs
    (WorkflowStep.set_completedAt (Some now)
       (WorkflowStep.set_status StepStatus.completed s)).

(** The workflow after the step is marked and the metrics are updated. *)
Definition completed (now : JS.Time) (stepId : string) (outputs : option string)
  (w : Workflow.t) : Workflow.t :=
  updateProgress
    (Workflow.set_steps
       (JS.modify_first (has_id stepId) (markCompleted now outputs) (Workflow.steps w)) w).

(** The engine with the workflow object under [workflowId] as it is now. *)
Definition store (workflowId : string) (w : Workflow.t) (e : t) : t :=
  set_workflows (<[workflowId := w]> (workflows e)) e.

(** A step after an operation, against the step before it: nothing a
    dependency check sees is lost, and a step that has become active had
    its dependencies completed in the steps [l] before. *)
Definition advance (l : list WorkflowStep.t) (s s' : WorkflowStep.t) : Prop :=
  moreCompleted s s' /\
  (active s' -> active s \/
                forallb (dependencyCompleted l) (WorkflowStep.dependencies s) = true).

(** The invariant that is kept: the steps are satisfied, and so is the
    step that [currentStepId] designates, whatever its status. *)
Definition strongInv (w : Workflow.t) : Prop :=
  depsSatisfied w /\ (forall s, currentStep w = Some s -> checkDependencies w s = true).

(** The invariant, on every workflow of the engine. *)
Definition engineInv (e : t) : Prop :=
  forall workflowId w, workflows e !! workflowId = Some w -> strongInv w.

(** *** Queries *)

(** [getWorkflowStatus]; it reads the engine and changes nothing. *)
Definition getWorkflowStatus (workflowId : string) (e : t) : Error + WorkflowStatus.t :=
  match workflows e !! workflowId with
  | None => inl (WorkflowNotFound workflowId)
  | Some workflow =>
      let steps := Workflow.steps workflow in
      inr {| WorkflowStatus.workflow := workflow;
             WorkflowStatus.readySteps :=
               List.filter (fun s => has_status StepStatus.pending s &&
                                     checkDependencies workflow s) steps;
             WorkflowStatus.blockedSteps :=
               List.filter (fun s => has_status StepStatus.pending s &&
                                     negb (checkDependencies workflow s)) steps;
             WorkflowStatus.completedSteps :=
               List.filter (has_status StepStatus.completed) steps |}
  end.

(** The engines that the public operations build, whatever their
    arguments. *)
Inductive built : t -> Prop :=
| built_new (cm : ContextManager.t) :
    built (new cm)
| built_createWorkflow (e : t) (now : JS.Time) (uuid : nat -> string) (params : CreateParams) :
    built e -> built (fst (createWorkflow now uuid params e))
| built_transition (e : t) (now : JS.Time) (workflowId : string) (trg : Trigger.t) :
    built e -> built (fst (transition now workflowId trg e))
| built_executeStep (e : t) (now : JS.Time) (workflowId stepId : string)
    (sessionId : option string) :
    built e -> built (fst (executeStep now workflowId stepId sessionId e))
| built_completeStep (e : t) (now : JS.Time) (workflowId stepId : string)
    (outputs : option string) (artifacts : option (list (string * string))) :
    built e -> built (fst (completeStep now workflowId stepId outputs artifacts e)).

(** What identifies a step: everything but its status, its dates and its
    outputs. *)
Definition shape (s : WorkflowStep.t) : string * string * string * string * list string :=
  (WorkflowStep.id s, WorkflowStep.name s, WorkflowStep.description s, WorkflowStep.type s,
   WorkflowStep.dependencies s).

(** What identifies a workflow. *)
Definition sameShape (w w' : Workflow.t) : Prop :=
  Workflow.id w' = Workflow.id w /\
  Workflow.projectId w' = Workflow.projectId w /\
  Workflow.name w' = Workflow.name w /\
  Workflow.description w' = Workflow.description w /\
  Workflow.type w' = Workflow.type w /\
  Metadata.createdAt (Workflow.metadata w') = Metadata.createdAt (Workflow.metadata w) /\
  map shape (Workflow.steps w') = map shape (Workflow.steps w).

(** The bookkeeping of a workflow as [createWorkflow] sets it up. *)
Definition bookkeeping (w : Workflow.t) : Prop :=
  Metrics.stepsTotal (Workflow.metrics w) = Z.of_nat (length (Workflow.steps w)) /\
  0 <= Metrics.stepsCompleted (Workflow.metrics w) /\
  0 <= Metrics.blockerCount (Workflow.metrics w) /\
  Metadata.estimatedDuration (Workflow.metadata w) = None /\
  Metadata.actualDuration (Workflow.metadata w) = None.

(** Two engines hold workflows under the same ids, and [R] relates the
    workflow before to the workflow after. *)
Definition related (R : Workflow.t -> Workflow.t -> Prop) (e e' : t) : Prop :=
  forall workflowId,
    option_Forall2 R (workflows e !! workflowId) (workflows e' !! workflowId).

(** A property of a workflow that holds on from before to after. *)
Definition keeps (P : Workflow.t -> Prop) (w w' : Workflow.t) : Prop := P w -> P w'.

(** Only the steps of the workflow have changed. *)
Definition onlySteps (w w' : Workflow.t) : Prop := w' = Workflow.set_steps (Workflow.steps w') w.

(** The state of the workflow is as it was. *)
Definition sameState (w w' : Workflow.t) : Prop := Workflow.state w' = Workflow.state w.

(** [completeStep] moves a running workflow to review or leaves the state
    as it is. *)
Definition toReview (w w' : Workflow.t) : Prop :=
  Workflow.state w' = Workflow.state w \/
  Workflow.state w = WorkflowState.running /\ Workflow.state w' = WorkflowState.review.

(** A pending step whose dependencies are met: what [getWorkflowStatus]
    calls a ready step. *)
Definition waiting (w : Workflow.t) (s : WorkflowStep.t) : bool :=
  has_status StepStatus.pending s && checkDependencies w s.

(** What [executeStep] does to the step it starts. *)
Definition markRunning (now : JS.Time) (s : WorkflowStep.t) : WorkflowStep.t :=
  WorkflowStep.set_startedAt (Some now) (WorkflowStep.set_status StepStatus.running s).

(** The workflow once [executeStep] has started the step. *)
Definition started (now : JS.Time) (stepId : string) (w : Workflow.t) : Workflow.t :=
  Workflow.set_currentStepId (Some stepId)
    (Workflow.set_steps
       (JS.modify_first (has_id stepId) (markRunning now) (Workflow.steps w)) w).

(** The parts of the engine that no operation writes. *)
Definition fixedParts (T : gmap string WorkflowTemplate.t) (cm : ContextManager.t)
  (e : WorkflowEngine.t) : Prop :=
  templates e = T /\ contextManager e = cm.

End WorkflowEngine.

(** ** Agent orchestrator: data model (AgentOrchestrator.ts) *)

Module AgentStatus.
Inductive t : Type := available | busy | offline | error | maintenance.
#[global] Instance eq_dec : EqDecision t.
Proof. solve_decision. Defined.
End AgentStatus.

Module Category.
Inductive t : Type := coding | analysis | writing | research | review | testing | deployment.
#[global] Instance eq_dec : EqDecision t.
Proof. solve_decision. Defined.
End Category.

Module AgentCapability.
Record t : Type := {
  category : Category.t;
  skill : string;
  proficiency : Z;
  languages : option (list string);
  frameworks : option (list string);
  tools : option (list string)
}.
End AgentCapability.

(** [Partial<AgentCapability>], as far as the selection reads it. *)
Module Required.
Record t : Type := {
  category : option Category.t;
  skill : option string;
  languages : option (list string)
}.
End Required.

Module Performance.
Record t : Type := {
  tasksCompleted : Z;
  averageCompletionTime : Q;
  successRate : Q;
  specialties : list (string * Q)
}.

Definition set_tasksCompleted (v : Z) (p : t) : t :=
  {| tasksCompleted := v; averageCompletionTime := averageCompletionTime p;
     successRate := successRate p; specialties := specialties p |}.

Definition set_averageCompletionTime (v : Q) (p : t) : t :=
  {| tasksCompleted := tasksCompleted p; averageCompletionTime := v;
     successRate := successRate p; specialties := specialties p |}.

Definition set_successRate (v : Q) (p : t) : t :=
  {| tasksCompleted := tasksCompleted p; averageCompletionTime := averageCompletionTime p;
     successRate := v; specialties := specialties p |}.
End Performance.

(** An agent; [availability] and [metadata] are never read and left out. *)
Module Agent.
Record t : Type := {
  id : string;
  type : string;
  name : string;
  status : AgentStatus.t;
  capabilities : list AgentCapability.t;
  currentLoad : Q;
  maxConcurrentTasks : Z;
  activeTasks : list string;
  performance : Performance.t
}.

Definition set_status (v : AgentStatus.t) (a : t) : t :=
  {| id := id a; type := type a; name := name a; status := v;
     capabilities := capabilities a; currentLoad := currentLoad a;
     maxConcurrentTasks := maxConcurrentTasks a; activeTasks := activeTasks a;
     performance := performance a |}.

Definition set_currentLoad (v : Q) (a : t) : t :=
  {| id := id a; type := type a; name := name a; status := status a;
     capabilities := capabilities a; currentLoad := v;
     maxConcurrentTasks := maxConcurrentTasks a; activeTasks := activeTasks a;
     performance := performance a |}.

Definition set_activeTasks (v : list string) (a : t) : t :=
  {| id := id a; type := type a; name := name a; status := status a;
     capabilities := capabilities a; currentLoad := currentLoad a;
     maxConcurrentTasks := maxConcurrentTasks a; activeTasks := v;
     performance := performance a |}.

Definition set_performance (v : Performance.t) (a : t) : t :=
  {| id := id a; type := type a; name := name a; status := status a;
     capabilities := capabilities a; currentLoad := currentLoad a;
     maxConcurrentTasks := maxConcurrentTasks a; activeTasks := activeTasks a;
     performance := v |}.

(** [(agent.activeTasks.length / agent.maxConcurrentTasks) * 100] *)
Definition load (a : t) : Q :=
  JS.mul (JS.div (inject_Z (Z.of_nat (length (activeTasks a))))
                 (inject_Z (maxConcurrentTasks a))) 100.

(** [agent.currentLoad = (agent.activeTasks.length / agent.maxConcurrentTasks) * 100] *)
Definition recomputeLoad (a : t) : t := set_currentLoad (load a) a.
End Agent.

Module AssignmentStatus.
Inductive t : Type := assigned | in_progress | completed | failed | reassigned.
#[global] Instance eq_dec : EqDecision t.
Proof. solve_decision. Defined.
End AssignmentStatus.

Module TaskAssignment.
Record t : Type := {
  taskId : string;
  agentId : string;
  workflowId : option string;
  stepId : option string;
  assignedAt : JS.Time;
  startedAt : option JS.Time;
  completedAt : option JS.Time;
  status : AssignmentStatus.t;
  priority : Priority;
  estimatedDuration : option Z;
  actualDuration : option Q;
  retryCount : Z;
  output : option string;
  error : option string
}.

Definition set_agentId (v : string) (a : t) : t :=
  {| taskId := taskId a; agentId := v; workflowId := workflowId a; stepId := stepId a;
     assignedAt := assignedAt a; startedAt := startedAt a; completedAt := completedAt a;
     status := status a; priority := priority a; estimatedDuration := estimatedDuration a;
     actualDuration := actualDuration a; retryCount := retryCount a; output := output a;
     error := error a |}.

Definition set_startedAt (v : option JS.Time) (a : t) : t :=
  {| taskId := taskId a; agentId := agentId a; workflowId := workflowId a; stepId := stepId a;
     assignedAt := assignedAt a; startedAt := v; completedAt := completedAt a;
     status := status a; priority := priority a; estimatedDuration := estimatedDuration a;
     actualDuration := actualDuration a; retryCount := retryCount a; output := output a;
     error := error a |}.

Definition set_completedAt (v : option JS.Time) (a : t) : t :=
  {| taskId := taskId a; agentId := agentId a; workflowId := workflowId a; stepId := stepId a;
     assignedAt := assignedAt a; startedAt := startedAt a; completedAt := v;
     status := status a; priority := priority a; estimatedDuration := estimatedDuration a;
     actualDuration := actualDuration a; retryCount := retryCount a; output := output a;
     error := error a |}.

Definition set_status (v : AssignmentStatus.t) (a : t) : t :=
  {| taskId := taskId a; agentId := agentId a; workflowId := workflowId a; stepId := stepId a;
     assignedAt := assignedAt a; startedAt := startedAt a; completedAt := completedAt a;
     status := v; priority := priority a; estimatedDuration := estimatedDuration a;
     actualDuration := actualDuration a; retryCount := retryCount a; output := output a;
     error := error a |}.

Definition set_actualDuration (v : option Q) (a : t) : t :=
  {| taskId := taskId a; agentId := agentId a; workflowId := workflowId a; stepId := stepId a;
     assignedAt := assignedAt a; startedAt := startedAt a; completedAt := completedAt a;
     status := status a; priority := priority a; estimatedDuration := estimatedDuration a;
     actualDuration := v; retryCount := retryCount a; output := output a;
     error := error a |}.

Definition set_retryCount (v : Z) (a : t) : t :=
  {| taskId := taskId a; agentId := agentId a; workflowId := workflowId a; stepId := stepId a;
     assignedAt := assignedAt a; startedAt := startedAt a; completedAt := completedAt a;
     status := status a; priority := priority a; estimatedDuration := estimatedDuration a;
     actualDuration := actualDuration a; retryCount := v; output := output a;
     error := error a |}.

Definition set_output (v : option string) (a : t) : t :=
  {| taskId := taskId a; agentId := agentId a; workflowId := workflowId a; stepId := stepId a;
     assignedAt := assignedAt a; startedAt := startedAt a; completedAt := completedAt a;
     status := status a; priority := priority a; estimatedDuration := estimatedDuration a;
     actualDuration := actualDuration a; retryCount := retryCount a; output := v;
     error := error a |}.

Definition set_error (v : option string) (a : t) : t :=
  {| taskId := taskId a; agentId := agentId a; workflowId := workflowId a; stepId := stepId a;
     assignedAt := assignedAt a; startedAt := startedAt a; completedAt := completedAt a;
     status := status a; priority := priority a; estimatedDuration := estimatedDuration a;
     actualDuration := actualDuration a; retryCount := retryCount a; output := output a;
     error := v |}.
End TaskAssignment.

Inductive StrategyType : Type :=
  round_robin | least_loaded | capability_based | performance_based | hybrid.

(** An entry of [agentLoads] in what [getWorkloadSummary] returns. *)
Module AgentLoad.
Record t : Type := {
  agentId : string;
  name : string;
  load : Z;
  tasks : Z
}.
End AgentLoad.

(** What [getWorkloadSummary] returns; [averageLoad] is [None] where
    JavaScript has [NaN], the mean over no agent. *)
Module WorkloadSummary.
Record t : Type := {
  totalAgents : Z;
  availableAgents : Z;
  totalTasks : Z;
  averageLoad : option Z;
  agentLoads : list AgentLoad.t
}.
End WorkloadSummary.

(** ** Agent orchestrator: selection *)

Module AgentOrchestrator.

(** The orchestrator object. [agents] is the [Map] of agents in insertion
    order, an entry being keyed by the id of its agent; the collaboration
    sessions take no part in assignment and are left out. *)
Record t : Type := {
  agents : list Agent.t;
  assignments : gmap string TaskAssignment.t;
  contextManager : ContextManager.t;
  workflowEngine : WorkflowEngine.t;
  loadBalancingStrategy : StrategyType;
  agentQueue : list string
}.

Definition set_agents (v : list Agent.t) (o : t) : t :=
  {| agents := v; assignments := assignments o; contextManager := contextManager o;
     workflowEngine := workflowEngine o; loadBalancingStrategy := loadBalancingStrategy o;
     agentQueue := agentQueue o |}.

Definition set_assignments (v : gmap string TaskAssignment.t) (o : t) : t :=
  {| agents := agents o; assignments := v; contextManager := contextManager o;
     workflowEngine := workflowEngine o; loadBalancingStrategy := loadBalancingStrategy o;
     agentQueue := agentQueue o |}.

Definition set_workflowEngine (v : WorkflowEngine.t) (o : t) : t :=
  {| agents := agents o; assignments := assignments o; contextManager := contextManager o;
     workflowEngine := v; loadBalancingStrategy := loadBalancingStrategy o;
     agentQueue := agentQueue o |}.

Definition set_agentQueue (v : list string) (o : t) : t :=
  {| agents := agents o; assignments := assignments o; contextManager := contextManager o;
     workflowEngine := workflowEngine o; loadBalancingStrategy := loadBalancingStrategy o;
     agentQueue := v |}.

Definition is_agent (agentId : string) (a : Agent.t) : bool :=
  bool_decide (Agent.id a = agentId).

(** [this.agents.get(agentId)] *)
Definition getAgent (agentId : string) (o : t) : option Agent.t :=
  List.find (is_agent agentId) (agents o).

(** [this.agents.set(agent.id, agent)]: a known key keeps its place. *)
Definition setAgent (agent : Agent.t) (l : list Agent.t) : list Agent.t :=
  if existsb (is_agent (Agent.id agent)) l
  then JS.modify_first (is_agent (Agent.id agent)) (fun _ => agent) l
  else l ++ [agent].

(** A mutation of the agent object stored under [agentId]. *)
Definition alterAgent (agentId : string) (f : Agent.t -> Agent.t) (o : t) : t :=
  set_agents (JS.modify_first (is_agent agentId) f (agents o)) o.

Definition alterAssignment (taskId : string) (f : TaskAssignment.t -> TaskAssignment.t)
  (o : t) : t :=
  set_assignments (alter f taskId (assignments o)) o.

(** [a.status === 'available' && a.currentLoad < 100] *)
Definition eligible (a : Agent.t) : bool :=
  bool_decide (Agent.status a = AgentStatus.available) && JS.Qltb (Agent.currentLoad a) 100.

(** [selectRoundRobin]: the queue is turned until the id in front is one
    of the candidates. [front] is what is left of the queue as it was,
    [back] what has been moved behind. When a full turn has found nobody
    the loop would go on for ever: [None]. *)
Fixpoint turnQueue (candidates : list Agent.t) (front back : list string) :
  option (Agent.t * list string) :=
  match front with
  | [] => None
  | agentId :: front' =>
      match List.find (is_agent agentId) candidates with
      | Some selectedAgent => Some (selectedAgent, front' ++ back ++ [agentId])
      | None => turnQueue candidates front' (back ++ [agentId])
      end
  end.

Definition selectRoundRobin (candidates : list Agent.t) : M t (option Agent.t) :=
  let* o := get in
  match agentQueue o with
  | [] => ret (head candidates)
  | _ =>
      match turnQueue candidates (agentQueue o) [] with
      | Some (selectedAgent, queue) =>
          let* _ := modify (set_agentQueue queue) in ret (Some selectedAgent)
      | None => throw Diverges
      end
  end.

(** [agents.reduce((least, agent) => agent.currentLoad < least.currentLoad
    ? agent : least)]; on an empty array [reduce] throws, and no caller
    passes one. *)
Definition selectLeastLoaded (candidates : list Agent.t) : option Agent.t :=
  match candidates with
  | [] => None
  | first :: rest =>
      Some (fold_left
              (fun least agent =>
                 if JS.Qltb (Agent.currentLoad agent) (Agent.currentLoad least)
                 then agent else least)
              rest first)
  end.

Definition includes (l : option (list string)) (x : string) : bool :=
  match l with
  | Some l => existsb (String.eqb x) l
  | None => false
  end.

(** The predicate of [agent.capabilities.find] in [selectByCapability]. *)
Definition matches (required : Required.t) (cap : AgentCapability.t) : bool :=
  match Required.category required with
  | Some c => bool_decide (AgentCapability.category cap = c)
  | None => true
  end &&
  match Required.skill required with
  | Some s => if JS.truthy s then bool_decide (AgentCapability.skill cap = s) else true
  | None => true
  end &&
  match Required.languages required with
  | Some ls => existsb (includes (AgentCapability.languages cap)) ls
  | None => true
  end.

Definition matchingProficiency (agent : Agent.t) (required : Required.t) : option Z :=
  AgentCapability.proficiency <$> List.find (matches required) (Agent.capabilities agent).

(** [1 - agent.currentLoad / 100] *)
Definition loadFactor (agent : Agent.t) : Q := (1 - Agent.currentLoad agent / 100)%Q.

Definition capabilityScore (requiredCapabilities : list Required.t) (agent : Agent.t) : Q :=
  let score :=
    fold_left (fun score required =>
                 match matchingProficiency agent required with
                 | Some p => score + p
                 | None => score
                 end)
              requiredCapabilities 0 in
  (inject_Z score * loadFactor agent)%Q.

(** [scores.sort((a, b) => b.score - a.score)]: a stable sort by falling
    score, here by insertion. *)
Fixpoint insertByScore (x : Agent.t * Q) (l : list (Agent.t * Q)) : list (Agent.t * Q) :=
  match l with
  | [] => [x]
  | y :: l' => if Qle_bool (snd y) (snd x) then x :: l else y :: insertByScore x l'
  end.

Definition sortByScore (scores : list (Agent.t * Q)) : list (Agent.t * Q) :=
  fold_right insertByScore [] scores.

(** [scores[0].agent] after the sort. *)
Definition highestScoring (score : Agent.t -> Q) (candidates : list Agent.t) : option Agent.t :=
  fst <$> head (sortByScore (map (fun agent => (agent, score agent)) candidates)).

Definition selectByCapability (candidates : list Agent.t)
  (requiredCapabilities : option (list Required.t)) : option Agent.t :=
  match requiredCapabilities with
  | None | Some [] => selectLeastLoaded candidates
  | Some required => highestScoring (capabilityScore required) candidates
  end.

Definition specialty (agent : Agent.t) (skill : string) : option Q :=
  snd <$> List.find (fun kv => String.eqb (fst kv) skill)
                    (Performance.specialties (Agent.performance agent)).

Definition performanceScore (requiredCapabilities : option (list Required.t))
  (agent : Agent.t) : Q :=
  let score := Performance.successRate (Agent.performance agent) in
  let score :=
    fold_left (fun score req =>
                 match Required.skill req with
                 | Some s =>
                     if JS.truthy s
                     then match specialty agent s with
                          | Some r => (score + r / 10)%Q
                          | None => score
                          end
                     else score
                 | None => score
                 end)
              (default [] requiredCapabilities) score in
  let score :=
    (score + (100 - Performance.averageCompletionTime (Agent.performance agent)) / 10)%Q in
  (score * loadFactor agent)%Q.

Definition selectByPerformance (candidates : list Agent.t)
  (requiredCapabilities : option (list Required.t)) : option Agent.t :=
  highestScoring (performanceScore requiredCapabilities) candidates.

Definition selectHybrid (candidates : list Agent.t)
  (requiredCapabilities : option (list Required.t)) : option Agent.t :=
  match selectByCapability candidates requiredCapabilities,
        selectByPerformance candidates requiredCapabilities with
  | Some capabilityAgent, Some performanceAgent =>
      if bool_decide (Agent.id capabilityAgent = Agent.id performanceAgent)
      then Some capabilityAgent
      else if JS.Qltb (Agent.currentLoad capabilityAgent) (Agent.currentLoad performanceAgent)
           then Some capabilityAgent
           else Some performanceAgent
  | _, _ => None
  end.

Definition preferredEligible (o : t) (preferredAgent : option string) : option Agent.t :=
  match preferredAgent with
  | Some agentId =>
      if JS.truthy agentId
      then match getAgent agentId o with
           | Some agent => if eligible agent then Some agent else None
           | None => None
           end
      else None
  | None => None
  end.

(** [selectAgent]; [None] is its [null]. *)
Definition selectAgent (requiredCapabilities : option (list Required.t))
  (preferredAgent : option string) : M t (option Agent.t) :=
  let* o := get in
  match preferredEligible o preferredAgent with
  | Some agent => ret (Some agent)
  | None =>
      let availableAgents := List.filter eligible (agents o) in
      match availableAgents with
      | [] => ret None
      | _ =>
          match loadBalancingStrategy o with
          | round_robin => selectRoundRobin availableAgents
          | least_loaded => ret (selectLeastLoaded availableAgents)
          | capability_based => ret (selectByCapability availableAgents requiredCapabilities)
          | performance_based => ret (selectByPerformance availableAgents requiredCapabilities)
          | hybrid => ret (selectHybrid availableAgents requiredCapabilities)
          end
      end
  end.

(** ** Agent orchestrator: operations *)

(** [registerAgent] *)
Definition registerAgent (agent : Agent.t) (o : t) : t :=
  set_agentQueue (agentQueue o ++ [Agent.id agent])
    (set_agents (setAgent agent (agents o)) o).

(** [newAgent.activeTasks.push(taskId)] followed by the load assignment. *)
Definition pushTask (taskId : string) (a : Agent.t) : Agent.t :=
  Agent.recomputeLoad (Agent.set_activeTasks (Agent.activeTasks a ++ [taskId]) a).

(** [agent.activeTasks = agent.activeTasks.filter(t => t !== taskId)]
    followed by the load assignment. *)
Definition dropTask (taskId : string) (a : Agent.t) : Agent.t :=
  Agent.recomputeLoad
    (Agent.set_activeTasks
       (List.filter (fun t => negb (String.eqb t taskId)) (Agent.activeTasks a)) a).

(** The candidates of [reassignTask]. *)
Definition reassignable (previousAgentId : string) (a : Agent.t) : bool :=
  negb (is_agent previousAgentId a) && eligible a.

(** [reassignTask]; it has no [await] and runs in one piece. *)
Definition reassignTask (taskId : string) (o : t) : t :=
  match assignments o !! taskId with
  | None => o
  | Some assignment =>
      let previousAgentId := TaskAssignment.agentId assignment in
      let availableAgents := List.filter (reassignable previousAgentId) (agents o) in
      match selectLeastLoaded availableAgents with
      | None => alterAssignment taskId (TaskAssignment.set_status AssignmentStatus.failed) o
      | Some newAgent =>
          alterAgent (Agent.id newAgent) (pushTask taskId)
            (alterAssignment taskId
               (fun a => TaskAssignment.set_status AssignmentStatus.reassigned
                           (TaskAssignment.set_agentId (Agent.id newAgent) a))
               o)
      end
  end.

(** [agent.activeTasks = []; agent.currentLoad = 0] *)
Definition clearTasks (a : Agent.t) : Agent.t :=
  Agent.set_currentLoad 0%Q (Agent.set_activeTasks [] a).

(** [reassignAgentTasks] is an [async] function that [updateAgentStatus]
    calls without awaiting it. It runs up to its first [await], that is
    through the first task, and is then suspended; each later resumption
    takes the next task of the copied list, and the last one clears the
    agent. [Suspended] is that continuation: the agent and the tasks still
    to go. *)
Record Suspended : Type := { s_agentId : string; s_tasks : list string }.

Definition resumeReassign (k : Suspended) (o : t) : t * option Suspended :=
  match s_tasks k with
  | [] => (alterAgent (s_agentId k) clearTasks o, None)
  | taskId :: rest =>
      (reassignTask taskId o, Some {| s_agentId := s_agentId k; s_tasks := rest |})
  end.

Definition reassignAgentTasks (agentId : string) (o : t) : t * option Suspended :=
  match getAgent agentId o with
  | None => (o, None)
  | Some agent =>
      match Agent.activeTasks agent with
      | [] => (alterAgent agentId clearTasks o, None)
      | tasks => resumeReassign {| s_agentId := agentId; s_tasks := tasks |} o
      end
  end.

(** [updateAgentStatus]: the state when the call returns, and what is left
    suspended then. *)
Definition updateAgentStatus (agentId : string) (status : AgentStatus.t) (o : t) :
  t * option Suspended :=
  match getAgent agentId o with
  | None => (o, None)
  | Some _ =>
      let o := alterAgent agentId (Agent.set_status status) o in
      if bool_decide (status = AgentStatus.offline) || bool_decide (status = AgentStatus.error)
      then reassignAgentTasks agentId o
      else (o, None)
  end.

(** The suspended pass run to its end, nothing else coming in between. *)
Fixpoint settleTasks (agentId : string) (tasks : list string) (o : t) : t :=
  match tasks with
  | [] => alterAgent agentId clearTasks o
  | taskId :: rest => settleTasks agentId rest (reassignTask taskId o)
  end.

Definition settle (r : t * option Suspended) : t :=
  match r with
  | (o, None) => o
  | (o, Some k) => settleTasks (s_agentId k) (s_tasks k) o
  end.

(** The loop of the pass when it has gone through [tasks], one task after
    the other. *)
Definition passThrough (tasks : list string) (o : t) : t :=
  fold_left (fun o taskId => reassignTask taskId o) tasks o.

Record AssignParams : Type := {
  p_taskId : string;
  p_requiredCapabilities : option (list Required.t);
  p_priority : option Priority;
  p_workflowId : option string;
  p_stepId : option string;
  p_preferredAgent : option string;
  p_estimatedDuration : option Z
}.

(** [assignTask] *)
Definition assignTask (now : JS.Time) (params : AssignParams) : M t TaskAssignment.t :=
  let* selected := selectAgent (p_requiredCapabilities params) (p_preferredAgent params) in
  match selected with
  | None => throw NoSuitableAgent
  | Some agent =>
      let assignment :=
        {| TaskAssignment.taskId := p_taskId params;
           TaskAssignment.agentId := Agent.id agent;
           TaskAssignment.workflowId := p_workflowId params;
           TaskAssignment.stepId := p_stepId params;
           TaskAssignment.assignedAt := now;
           TaskAssignment.startedAt := None;
           TaskAssignment.completedAt := None;
           TaskAssignment.status := AssignmentStatus.assigned;
           TaskAssignment.priority := default medium (p_priority params);
           TaskAssignment.estimatedDuration := p_estimatedDuration params;
           TaskAssignment.actualDuration := None;
           TaskAssignment.retryCount := 0;
           TaskAssignment.output := None;
           TaskAssignment.error := None |} in
      let* _ := modify (alterAgent (Agent.id agent) (pushTask (p_taskId params))) in
      let* _ := modify (fun o =>
                  set_assignments (<[p_taskId params := assignment]> (assignments o)) o) in
      ret assignment
  end.

Definition truthyId (s : option string) : option string :=
  match s with
  | Some s => if JS.truthy s then Some s else None
  | None => None
  end.

(** [startTask] *)
Definition startTask (now : JS.Time) (taskId : string) (sessionId : option string) :
  M t unit :=
  let* o := get in
  match assignments o !! taskId with
  | None => throw (TaskNotFound taskId)
  | Some _ =>
      let* _ := modify (alterAssignment taskId
                          (fun a => TaskAssignment.set_startedAt (Some now)
                                      (TaskAssignment.set_status AssignmentStatus.in_progress a))) in
      match truthyId sessionId with
      | Some sid => ContextManager.updateTaskContext (contextManager o) sid
      | None => ret tt
      end
  end.

(** [(completedAt - startedAt) / 60000], when the task was started. *)
Definition durationOf (now : JS.Time) (assignment : TaskAssignment.t) : option Q :=
  match TaskAssignment.startedAt assignment with
  | Some startedAt => Some (inject_Z (now - startedAt) / inject_Z 60000)%Q
  | None => TaskAssignment.actualDuration assignment
  end.

(** The running mean of [completeTask]; a zero duration is falsy. *)
Definition updateAverage (actualDuration : option Q) (p : Performance.t) : Performance.t :=
  match actualDuration with
  | Some d =>
      if Qeq_bool d 0 then p
      else
        let prevAvg := Performance.averageCompletionTime p in
        let count := inject_Z (Performance.tasksCompleted p) in
        Performance.set_averageCompletionTime ((prevAvg * (count - 1) + d) / count)%Q p
  | None => p
  end.

Definition completeAgentTask (taskId : string) (actualDuration : option Q) (a : Agent.t) :
  Agent.t :=
  let a := dropTask taskId a in
  let p := Agent.performance a in
  let p := Performance.set_tasksCompleted (Performance.tasksCompleted p + 1) p in
  Agent.set_performance (updateAverage actualDuration p) a.

(** The call of an operation of the engine the orchestrator holds. *)
Definition onEngine {A : Type} (m : M WorkflowEngine.t A) : M t A :=
  fun o =>
    let '(e, r) := m (workflowEngine o) in (set_workflowEngine e o, r).

(** [completeTask] *)
Definition completeTask (now : JS.Time) (taskId : string) (output : option string)
  (sessionId : option string) : M t unit :=
  let* o := get in
  match assignments o !! taskId with
  | None => throw (TaskNotFound taskId)
  | Some assignment =>
      match getAgent (TaskAssignment.agentId assignment) o with
      | None => throw (AgentNotFound (TaskAssignment.agentId assignment))
      | Some _ =>
          let actualDuration := durationOf now assignment in
          let* _ := modify (alterAssignment taskId
                              (fun a => TaskAssignment.set_actualDuration actualDuration
                                          (TaskAssignment.set_output output
                                             (TaskAssignment.set_completedAt (Some now)
                                                (TaskAssignment.set_status AssignmentStatus.completed a))))) in
          let* _ := modify (alterAgent (TaskAssignment.agentId assignment)
                              (completeAgentTask taskId actualDuration)) in
          let* _ := match truthyId (TaskAssignment.workflowId assignment),
                          truthyId (TaskAssignment.stepId assignment) with
                    | Some workflowId, Some stepId =>
                        onEngine (WorkflowEngine.completeStep now workflowId stepId output None)
                    | _, _ => ret tt
                    end in
          match truthyId sessionId with
          | Some sid => ContextManager.updateTaskContext (contextManager o) sid
          | None => ret tt
          end
      end
  end.

(** [successRate * tasksCompleted / (tasksCompleted + 1)] and the task
    taken off the agent. *)
Definition failAgentTask (taskId : string) (a : Agent.t) : Agent.t :=
  let p := Agent.performance a in
  let n := inject_Z (Performance.tasksCompleted p) in
  let p := Performance.set_successRate ((Performance.successRate p * n) / (n + 1))%Q p in
  dropTask taskId (Agent.set_performance p a).

(** [failTask]; [retry] defaults to [true] at the call. *)
Definition failTask (now : JS.Time) (taskId : string) (err : string) (retry : bool) :
  M t unit :=
  let* o := get in
  match assignments o !! taskId with
  | None => throw (TaskNotFound taskId)
  | Some assignment =>
      let* _ := modify (alterAgent (TaskAssignment.agentId assignment) (failAgentTask taskId)) in
      let retryCount := TaskAssignment.retryCount assignment + 1 in
      let* _ := modify (alterAssignment taskId
                          (fun a => TaskAssignment.set_retryCount retryCount
                                      (TaskAssignment.set_error (Some err) a))) in
      if retry && bool_decide (retryCount < 3)
      then modify (reassignTask taskId)
      else modify (alterAssignment taskId
                     (fun a => TaskAssignment.set_completedAt (Some now)
                                 (TaskAssignment.set_status AssignmentStatus.failed a)))
  end.

(** [initializeDefaultAgents] *)
Definition capability (category : Category.t) (skill : string) (proficiency : Z)
  (languages frameworks tools : option (list string)) : AgentCapability.t :=
  {| AgentCapability.category := category; AgentCapability.skill := skill;
     AgentCapability.proficiency := proficiency; AgentCapability.languages := languages;
     AgentCapability.frameworks := frameworks; AgentCapability.tools := tools |}.

Definition claudeOpus : Agent.t :=
  {| Agent.id := "claude-3-opus"; Agent.type := "claude"; Agent.name := "Claude (Opus)";
     Agent.status := AgentStatus.available;
     Agent.capabilities := [
       capability Category.analysis "system_design" 5 None None None;
       capability Category.coding "architecture" 5 None None None;
       capability Category.writing "documentation" 5 None None None;
       capability Category.review "code_review" 4 None None None;
       capability Category.coding "implementation" 4
         (Some ["typescript"; "python"; "rust"; "go"])
         (Some ["react"; "node"; "django"; "fastapi"]) None ];
     Agent.currentLoad := 0%Q; Agent.maxConcurrentTasks := 3; Agent.activeTasks := [];
     Agent.performance :=
       {| Performance.tasksCompleted := 0; Performance.averageCompletionTime := 30%Q;
          Performance.successRate := 95%Q;
          Performance.specialties :=
            [("system_design", 98%Q); ("documentation", 96%Q); ("code_review", 94%Q)] |} |}.

Definition gpt4Turbo : Agent.t :=
  {| Agent.id := "gpt-4-turbo"; Agent.type := "gpt"; Agent.name := "GPT-4 Turbo";
     Agent.status := AgentStatus.available;
     Agent.capabilities := [
       capability Category.coding "implementation" 4 None None None;
       capability Category.research "web_search" 5 None None None;
       capability Category.analysis "data_analysis" 4 None None None;
       capability Category.testing "test_generation" 4 None None None;
       capability Category.coding "debugging" 4
         (Some ["javascript"; "python"; "java"; "c++"])
         (Some ["express"; "flask"; "spring"; "tensorflow"]) None ];
     Agent.currentLoad := 0%Q; Agent.maxConcurrentTasks := 5; Agent.activeTasks := [];
     Agent.performance :=
       {| Performance.tasksCompleted := 0; Performance.averageCompletionTime := 25%Q;
          Performance.successRate := 92%Q;
          Performance.specialties :=
            [("implementation", 93%Q); ("debugging", 91%Q); ("test_generation", 90%Q)] |} |}.

Definition geminiPro : Agent.t :=
  {| Agent.id := "gemini-pro"; Agent.type := "gemini"; Agent.name := "Gemini Pro";
     Agent.status := AgentStatus.available;
     Agent.capabilities := [
       capability Category.coding "refactoring" 4 None None None;
       capability Category.analysis "performance_optimization" 4 None None None;
       capability Category.research "quick_answers" 5 None None None;
       capability Category.coding "script_automation" 4
         (Some ["python"; "bash"; "javascript"]) None
         (Some ["git"; "docker"; "kubernetes"]) ];
     Agent.currentLoad := 0%Q; Agent.maxConcurrentTasks := 10; Agent.activeTasks := [];
     Agent.performance :=
       {| Performance.tasksCompleted := 0; Performance.averageCompletionTime := 15%Q;
          Performance.successRate := 90%Q;
          Performance.specialties :=
            [("refactoring", 92%Q); ("performance_optimization", 89%Q);
             ("script_automation", 91%Q)] |} |}.

(** [new AgentOrchestrator(contextManager, workflowEngine, strategy)] *)
Definition new (contextManager : ContextManager.t) (workflowEngine : WorkflowEngine.t)
  (strategy : StrategyType) : t :=
  registerAgent geminiPro
    (registerAgent gpt4Turbo
       (registerAgent claudeOpus
          {| agents := []; assignments := ∅; contextManager := contextManager;
             workflowEngine := workflowEngine; loadBalancingStrategy := strategy;
             agentQueue := [] |})).

(** *** Load consistency

    The load of an agent fits its tasks when it is the number that the
    expression of the code, [(activeTasks.length / maxConcurrentTasks) *
    100], gives for them. *)
Definition consistent (a : Agent.t) : Prop := (Agent.currentLoad a == Agent.load a)%Q.

(** The load as the specification writes it, [100 * |activeTasks| /
    maxConcurrentTasks], in the same arithmetic. *)
Definition statedLoad (a : Agent.t) : Q :=
  JS.div (JS.mul 100 (inject_Z (Z.of_nat (length (Agent.activeTasks a)))))
         (inject_Z (Agent.maxConcurrentTasks a)).

Definition loadConsistent (o : t) : Prop := forall a, In a (agents o) -> consistent a.

(** The orchestrators that the public operations build from a new one,
    with what [updateAgentStatus] has left suspended, when the agents that
    are registered come with a load that fits their tasks and with room
    for a task. The operations are taken one after the other, and one is
    started only when the suspended pass has been resumed to its end:
    what a pass that is still suspended does in the midst of another
    [async] operation is not modelled. *)
Inductive reachable : t * option Suspended -> Prop :=
| reach_new (cm : ContextManager.t) (e : WorkflowEngine.t) (strategy : StrategyType) :
    reachable (new cm e strategy, None)
| reach_registerAgent (agent : Agent.t) (o : t) :
    reachable (o, None) ->
    0 < Agent.maxConcurrentTasks agent -> consistent agent ->
    reachable (registerAgent agent o, None)
| reach_updateAgentStatus (agentId : string) (status : AgentStatus.t) (o : t) :
    reachable (o, None) ->
    reachable (updateAgentStatus agentId status o)
| reach_resume (k : Suspended) (o : t) :
    reachable (o, Some k) ->
    reachable (resumeReassign k o)
| reach_assignTask (now : JS.Time) (params : AssignParams) (o : t) :
    reachable (o, None) ->
    reachable (fst (assignTask now params o), None)
| reach_startTask (now : JS.Time) (taskId : string) (sessionId : option string) (o : t) :
    reachable (o, None) ->
    reachable (fst (startTask now taskId sessionId o), None)
| reach_completeTask (now : JS.Time) (taskId : string) (output sessionId : option string)
    (o : t) :
    reachable (o, None) ->
    reachable (fst (completeTask now taskId output sessionId o), None)
| reach_failTask (now : JS.Time) (taskId err : string) (retry : bool) (o : t) :
    reachable (o, None) ->
    reachable (fst (failTask now taskId err retry o), None).

(** The same without any condition on the agents that are registered. *)
Inductive built : t * option Suspended -> Prop :=
| built_new (cm : ContextManager.t) (e : WorkflowEngine.t) (strategy : StrategyType) :
    built (new cm e strategy, None)
| built_registerAgent (agent : Agent.t) (o : t) :
    built (o, None) ->
    built (registerAgent agent o, None)
| built_updateAgentStatus (agentId : string) (status : AgentStatus.t) (o : t) :
    built (o, None) ->
    built (updateAgentStatus agentId status o)
| built_resume (k : Suspended) (o : t) :
    built (o, Some k) ->
    built (resumeReassign k o)
| built_assignTask (now : JS.Time) (params : AssignParams) (o : t) :
    built (o, None) ->
    built (fst (assignTask now params o), None)
| built_startTask (now : JS.Time) (taskId : string) (sessionId : option string) (o : t) :
    built (o, None) ->
    built (fst (startTask now taskId sessionId o), None)
| built_completeTask (now : JS.Time) (taskId : string) (output sessionId : option string)
    (o : t) :
    built (o, None) ->
    built (fst (completeTask now taskId output sessionId o), None)
| built_failTask (now : JS.Time) (taskId err : string) (retry : bool) (o : t) :
    built (o, None) ->
    built (fst (failTask now taskId err retry o), None).

(** The keys of the [Map] of agents are distinct. *)
Definition distinctIds (o : t) : Prop := NoDup (map Agent.id (agents o)).

(** *** Notions for the proofs *)

(** The agent that is down, and the keys of the registry, as the pass
    goes on. *)
Definition downAt (agentId : string) (a : Agent.t) (o : t) : Prop :=
  distinctIds o /\ getAgent agentId o = Some a /\ Agent.status a <> AgentStatus.available.

(** An assignment the pass has dealt with. *)
Definition dealtWith (agentId : string) (asg : TaskAssignment.t) : Prop :=
  (TaskAssignment.status asg = AssignmentStatus.reassigned /\ TaskAssignment.agentId asg <> agentId) \/
  TaskAssignment.status asg = AssignmentStatus.failed.


(** A function on agents that keeps the load consistent, or that keeps
    the id. *)
Definition keepsConsistent (f : Agent.t -> Agent.t) : Prop :=
  forall a, consistent a -> consistent (f a).

Definition keepsId (f : Agent.t -> Agent.t) : Prop := forall a, Agent.id (f a) = Agent.id a.

(** *** Queries *)

(** [getWorkloadSummary] *)
Definition getWorkloadSummary (o : t) : WorkloadSummary.t :=
  let agents := agents o in
  let available :=
    List.filter (fun a => bool_decide (Agent.status a = AgentStatus.available)) agents in
  let totalTasks :=
    fold_left (fun sum a => sum + Z.of_nat (length (Agent.activeTasks a))) agents 0 in
  let averageLoad :=
    JS.div (fold_left (fun sum a => JS.add sum (Agent.currentLoad a)) agents 0%Q)
           (inject_Z (Z.of_nat (length agents))) in
  {| WorkloadSummary.totalAgents := Z.of_nat (length agents);
     WorkloadSummary.availableAgents := Z.of_nat (length available);
     WorkloadSummary.totalTasks := totalTasks;
     WorkloadSummary.averageLoad :=
       match agents with
       | [] => None
       | _ => Some (JS.Math_round averageLoad)
       end;
     WorkloadSummary.agentLoads :=
       map (fun a => {| AgentLoad.agentId := Agent.id a;
                        AgentLoad.name := Agent.name a;
                        AgentLoad.load := JS.Math_round (Agent.currentLoad a);
                        AgentLoad.tasks := Z.of_nat (length (Agent.activeTasks a)) |})
           agents |}.

(** [getAgentMetrics]; [None] is its [null]. *)
Definition getAgentMetrics (agentId : string) (o : t) : option Performance.t :=
  Agent.performance <$> getAgent agentId o.

(** [agent.performance.specialties.get(skill) || agent.performance.successRate]:
    an absent and a zero rate are falsy. *)
Definition rateFor (agent : Agent.t) (skill : string) : Q :=
  match specialty agent skill with
  | Some r => if Qeq_bool r 0 then Performance.successRate (Agent.performance agent) else r
  | None => Performance.successRate (Agent.performance agent)
  end.

(** The score of [getBestAgentForSkill], for an agent that has the skill. *)
Definition skillScore (skill : string) (agent : Agent.t) : option Q :=
  match List.find (fun c => bool_decide (AgentCapability.skill c = skill))
                  (Agent.capabilities agent) with
  | Some capability =>
      Some (inject_Z (AgentCapability.proficiency capability) * rateFor agent skill / 100)%Q
  | None => None
  end.

(** One round of the loop of [getBestAgentForSkill] on [bestAgent] and
    [bestScore]. *)
Definition betterAgent (skill : string) (best : option Agent.t * Q) (agent : Agent.t) :
  option Agent.t * Q :=
  match skillScore skill agent with
  | Some score => if JS.Qltb (snd best) score then (Some agent, score) else best
  | None => best
  end.

(** [getBestAgentForSkill]; [None] is its [null]. *)
Definition getBestAgentForSkill (skill : string) (o : t) : option Agent.t :=
  let agents :=
    List.filter (fun a => bool_decide (Agent.status a = AgentStatus.available)) (agents o) in
  fst (fold_left (betterAgent skill) agents (None, 0%Q)).

(** The registry holds the same agents under the same ids, and the queue
    the same entries. *)
Definition sameRoster (o o' : t) : Prop :=
  map Agent.id (agents o') = map Agent.id (agents o) /\ agentQueue o' ≡ₚ agentQueue o.

(** Every registered agent has its turn in the queue. *)
Definition queued (o : t) : Prop :=
  forall a, In a (agents o) -> In (Agent.id a) (agentQueue o).

(** The performance [p'] of an agent later on, against its performance
    [p] before: no completed task is forgotten and the success rate has
    not gone up. *)
Definition noBetter (p p' : Performance.t) : Prop :=
  Performance.tasksCompleted p <= Performance.tasksCompleted p' /\
  (0 <= Performance.successRate p')%Q /\
  (Performance.successRate p' <= Performance.successRate p)%Q.

(** A function on agents that keeps the id and does not better the
    performance. *)
Definition keepsRecord (f : Agent.t -> Agent.t) : Prop :=
  keepsId f /\
  forall a, 0 <= Performance.tasksCompleted (Agent.performance a) ->
            (0 <= Performance.successRate (Agent.performance a))%Q ->
            noBetter (Agent.performance a) (Agent.performance (f a)).

(** Every assignment names an agent of the registry. *)
Definition assignedKnown (o : t) : Prop :=
  forall taskId asg, assignments o !! taskId = Some asg ->
                     is_Some (getAgent (TaskAssignment.agentId asg) o).

(** One public operation other than [registerAgent]; for
    [updateAgentStatus], the state when the call returns and the state
    once the pass it has started is through. *)
Inductive operation (o : t) : t -> Prop :=
| op_updateAgentStatus (agentId : string) (status : AgentStatus.t) :
    operation o (fst (updateAgentStatus agentId status o))
| op_settled (agentId : string) (status : AgentStatus.t) :
    operation o (settle (updateAgentStatus agentId status o))
| op_assignTask (now : JS.Time) (params : AssignParams) :
    operation o (fst (assignTask now params o))
| op_startTask (now : JS.Time) (taskId : string) (sessionId : option string) :
    operation o (fst (startTask now taskId sessionId o))
| op_completeTask (now : JS.Time) (taskId : string) (output sessionId : option string) :
    operation o (fst (completeTask now taskId output sessionId o))
| op_failTask (now : JS.Time) (taskId err : string) (retry : bool) :
    operation o (fst (failTask now taskId err retry o)).

(** What the loop of [getBestAgentForSkill] holds in [bestAgent] and
    [bestScore] once it has gone through the agents [seen]. *)
Definition bestOf (skill : string) (seen : list Agent.t) (best : option Agent.t * Q) : Prop :=
  (forall b s, In b seen -> skillScore skill b = Some s -> (s <= snd best)%Q) /\
  match fst best with
  | Some a => In a seen /\ skillScore skill a = Some (snd best) /\ (0 < snd best)%Q
  | None => snd best = 0%Q
  end.

(** [h] is the first of the candidates with the highest score. *)
Definition firstHighest (score : Agent.t -> Q) (candidates : list Agent.t) (h : Agent.t) :
  Prop :=
  exists before after,
    candidates = before ++ h :: after /\
    (forall c, In c before -> (score c < score h)%Q) /\
    (forall c, In c after -> (score c <= score h)%Q).

End AgentOrchestrator.

(** ** Handoff server: validation

    The handler [validateHandoff] of the MCP server, whose code follows
    the orchestrator in AgentOrchestrator.ts. The storage is what [getHandoff] reads
    from it; of a handoff, the fields the validation looks at. *)

Module HandoffMCP.

(** A JavaScript string as its UTF-16 code units: [length] counts them
    and [trim] looks at each of them. *)
Definition JSString : Type := list N.

(** White space and line terminators, as [String.prototype.trim] takes
    them off. *)
Definition isWhiteSpace (c : N) : bool :=
  ((9 <=? c) && (c <=? 13) || (c =? 32) || (c =? 160) || (c =? 5760) ||
   (8192 <=? c) && (c <=? 8202) || (c =? 8232) || (c =? 8233) || (c =? 8239) ||
   (c =? 8287) || (c =? 12288) || (c =? 65279))%N.

Fixpoint dropWhile {A : Type} (p : A -> bool) (l : list A) : list A :=
  match l with
  | [] => []
  | x :: l' => if p x then dropWhile p l' else l
  end.

Definition trim (s : JSString) : JSString :=
  rev (dropWhile isWhiteSpace (rev (dropWhile isWhiteSpace s))).

(** An absent array and an absent [project_info] read as the empty one,
    which the checks treat alike; [project_info] is the list of its keys. *)
Record HandoffRequest : Type := {
  title : JSString;
  strategic_context : JSString;
  tactical_requirements : list JSString;
  project_info : list string;
  acceptance_criteria : list JSString
}.

Record HandoffValidation : Type := {
  is_valid : bool;
  issues : list string;
  score : Z
}.

Inductive ServerError : Type :=
| HandoffNotFound (handoff_id : string).   (* "Handoff not found: ${id}" *)

(** [if (failed) { validation.issues.push(issue); validation.score -= penalty }] *)
Definition check (failed : bool) (issue : string) (penalty : Z) (validation : HandoffValidation) :
  HandoffValidation :=
  if failed
  then {| is_valid := is_valid validation;
          issues := issues validation ++ [issue];
          score := score validation - penalty |}
  else validation.

Definition falsy (s : JSString) : bool := bool_decide (s = []).

(** [validateHandoff], up to the validation it reports. *)
Definition validateHandoff (getHandoff : string -> option HandoffRequest) (handoff_id : string) :
  ServerError + HandoffValidation :=
  match getHandoff handoff_id with
  | None => inl (HandoffNotFound handoff_id)
  | Some handoff =>
      let validation := {| is_valid := true; issues := []; score := 100 |} in
      let validation :=
        check (falsy (title handoff) || bool_decide (length (trim (title handoff)) = 0%nat))
              "Missing or empty title" 20 validation in
      let validation :=
        check (falsy (strategic_context handoff) ||
               bool_decide (length (trim (strategic_context handoff)) < 50)%nat)
              "Strategic context too brief (should be at least 50 characters)" 25
              validation in
      let validation :=
        check (bool_decide (length (tactical_requirements handoff) = 0%nat))
              "No tactical requirements specified" 30 validation in
      let validation :=
        check (bool_decide (length (acceptance_criteria handoff) = 0%nat))
              "No acceptance criteria specified" 15 validation in
      let validation :=
        check (bool_decide (length (project_info handoff) = 0%nat))
              "Missing project information" 10 validation in
      inr {| is_valid := bool_decide (length (issues validation) = 0%nat);
             issues := issues validation;
             score := score validation |}
  end.

(** A handoff whose title is a space, a tab and a no-break space, and the
    storage that holds it under "h1". *)
Definition blank : HandoffRequest :=
  {| title := [32; 9; 160]%N;
     strategic_context := [];
     tactical_requirements := [[97]%N];
     project_info := ["language"%string];
     acceptance_criteria := [] |}.

Definition stored (handoff_id : string) : option HandoffRequest :=
  if String.eqb handoff_id "h1" then Some blank else None.

End HandoffMCP.

(** ** Concrete runs

    The inputs at which the theorems below are instantiated and the
    counterexamples are evaluated. *)

Module Scenario.

Definition cm : ContextManager.t := {| ContextManager.sessions := [] |}.

(** *** The workflow engine *)

Definition uuid (n : nat) : string :=
  match n with
  | 0%nat => "w"
  | 1%nat => "s1"
  | 2%nat => "s2"
  | 3%nat => "s3"
  | 4%nat => "s4"
  | 5%nat => "s5"
  | _ => "s6"
  end.

Definition featureParams : WorkflowEngine.CreateParams :=
  {| WorkflowEngine.p_projectId := "auth-module";
     WorkflowEngine.p_templateId := Some "feature-development";
     WorkflowEngine.p_name := "Implement OAuth2 Integration";
     WorkflowEngine.p_description := "Add OAuth2 authentication support";
     WorkflowEngine.p_type := None;
     WorkflowEngine.p_priority := Some high;
     WorkflowEngine.p_customSteps := None |}.

Definition e0 : WorkflowEngine.t := WorkflowEngine.new cm.

(** A workflow from the feature-development template, started, its first
    step executed and completed, then paused and resumed. *)
Definition e1 : WorkflowEngine.t := fst (WorkflowEngine.createWorkflow 0 uuid featureParams e0).
Definition r2 := WorkflowEngine.transition 1 "w" Trigger.start e1.
Definition e2 : WorkflowEngine.t := fst r2.
Definition r3 := WorkflowEngine.executeStep 2 "w" "s1" None e2.
Definition e3 : WorkflowEngine.t := fst r3.
Definition r4 := WorkflowEngine.completeStep 3 "w" "s1" None None e3.
Definition e4 : WorkflowEngine.t := fst r4.
Definition r5 := WorkflowEngine.transition 4 "w" Trigger.pause e4.
Definition e5 : WorkflowEngine.t := fst r5.
Definition r6 := WorkflowEngine.transition 5 "w" Trigger.resume e5.
Definition e6 : WorkflowEngine.t := fst r6.

Definition customStep (id name : string) (dependencies : list string) : WorkflowStep.t :=
  {| WorkflowStep.id := id; WorkflowStep.name := name; WorkflowStep.description := "";
     WorkflowStep.type := "ai_task"; WorkflowStep.dependencies := dependencies;
     WorkflowStep.status := StepStatus.pending; WorkflowStep.startedAt := None;
     WorkflowStep.completedAt := None; WorkflowStep.outputs := None |}.

Definition customParams (steps : list WorkflowStep.t) : WorkflowEngine.CreateParams :=
  {| WorkflowEngine.p_projectId := "auth-module";
     WorkflowEngine.p_templateId := None;
     WorkflowEngine.p_name := "Security Research";
     WorkflowEngine.p_description := "Research security best practices";
     WorkflowEngine.p_type := Some research;
     WorkflowEngine.p_priority := None;
     WorkflowEngine.p_customSteps := Some steps |}.

(** A draft workflow of one custom step, and one without any step. *)
Definition solo : WorkflowEngine.t :=
  fst (WorkflowEngine.createWorkflow 0 (fun _ => "solo") (customParams [customStep "only" "Only" []]) e0).

Definition empty : WorkflowEngine.t :=
  fst (WorkflowEngine.createWorkflow 0 (fun _ => "empty") (customParams []) e0).

(** A workflow of two custom steps, the first one completed twice. *)
Definition duo0 : WorkflowEngine.t :=
  fst (WorkflowEngine.createWorkflow 0 (fun _ => "duo")
         (customParams [customStep "a" "A" []; customStep "b" "B" ["A"]]) e0).
Definition duo1 : WorkflowEngine.t := fst (WorkflowEngine.completeStep 1 "duo" "a" None None duo0).
Definition duo2 : WorkflowEngine.t := fst (WorkflowEngine.completeStep 2 "duo" "a" None None duo1).

(** *** The agent orchestrator *)

Definition o0 : AgentOrchestrator.t := AgentOrchestrator.new cm e0 capability_based.

Definition task (taskId : string) (required : option (list Required.t))
  (preferredAgent : option string) : AgentOrchestrator.AssignParams :=
  {| AgentOrchestrator.p_taskId := taskId;
     AgentOrchestrator.p_requiredCapabilities := required;
     AgentOrchestrator.p_priority := None;
     AgentOrchestrator.p_workflowId := None;
     AgentOrchestrator.p_stepId := None;
     AgentOrchestrator.p_preferredAgent := preferredAgent;
     AgentOrchestrator.p_estimatedDuration := None |}.

(** One task, failed three times in a row. *)
Definition f1 : AgentOrchestrator.t := fst (AgentOrchestrator.assignTask 0 (task "t" None None) o0).
Definition f2 : AgentOrchestrator.t := fst (AgentOrchestrator.failTask 1 "t" "boom" true f1).
Definition f3 : AgentOrchestrator.t := fst (AgentOrchestrator.failTask 2 "t" "boom" true f2).
Definition f4 : AgentOrchestrator.t := fst (AgentOrchestrator.failTask 3 "t" "boom" true f3).

Definition debugger (id : string) (proficiency maxConcurrentTasks : Z) : Agent.t :=
  {| Agent.id := id; Agent.type := "generic"; Agent.name := id; Agent.status := AgentStatus.available;
     Agent.capabilities := [AgentOrchestrator.capability Category.coding "debugging" proficiency None None None];
     Agent.currentLoad := 0%Q; Agent.maxConcurrentTasks := maxConcurrentTasks;
     Agent.activeTasks := [];
     Agent.performance :=
       {| Performance.tasksCompleted := 0; Performance.averageCompletionTime := 20%Q;
          Performance.successRate := 90%Q; Performance.specialties := [] |} |}.



(** The default agents gone offline, A with room for two tasks and B with
    room for one; two tasks on A. *)
Definition d0 : AgentOrchestrator.t :=
  AgentOrchestrator.registerAgent (debugger "B" 2 1)
    (AgentOrchestrator.registerAgent (debugger "A" 5 2)
       (fst (AgentOrchestrator.updateAgentStatus "gemini-pro" AgentStatus.offline
          (fst (AgentOrchestrator.updateAgentStatus "gpt-4-turbo" AgentStatus.offline
             (fst (AgentOrchestrator.updateAgentStatus "claude-3-opus" AgentStatus.offline o0))))))).
Definition d1 : AgentOrchestrator.t :=
  fst (AgentOrchestrator.assignTask 1 (task "t1" None (Some "A")) d0).
Definition d2 : AgentOrchestrator.t :=
  fst (AgentOrchestrator.assignTask 2 (task "t2" None (Some "A")) d1).

(** An agent handed in with a load that does not fit its tasks. *)
Definition stale : Agent.t := Agent.set_currentLoad 50%Q (debugger "S" 3 3).

(** *** Further runs of the workflow engine *)

(** The workflow without steps, cancelled. *)
Definition cancelled : WorkflowEngine.t :=
  fst (WorkflowEngine.transition 1 "empty" Trigger.cancel empty).

(** A template id the engine does not know, and no custom steps. *)
Definition typoParams : WorkflowEngine.CreateParams :=
  {| WorkflowEngine.p_projectId := "auth-module";
     WorkflowEngine.p_templateId := Some "feature-developement";
     WorkflowEngine.p_name := "Implement OAuth2 Integration";
     WorkflowEngine.p_description := "Add OAuth2 authentication support";
     WorkflowEngine.p_type := None;
     WorkflowEngine.p_priority := None;
     WorkflowEngine.p_customSteps := None |}.

(** The workflow that is made with it. *)
Definition typo : WorkflowEngine.t :=
  fst (WorkflowEngine.createWorkflow 0 (fun _ => "typo") typoParams e0).

(** The workflow of one custom step, started. *)
Definition solo1 : WorkflowEngine.t :=
  fst (WorkflowEngine.transition 1 "solo" Trigger.start solo).

(** *** Further runs of the agent orchestrator *)

(** The default agents, all gone offline. *)
Definition down : AgentOrchestrator.t :=
  fst (AgentOrchestrator.updateAgentStatus "gemini-pro" AgentStatus.offline
    (fst (AgentOrchestrator.updateAgentStatus "gpt-4-turbo" AgentStatus.offline
      (fst (AgentOrchestrator.updateAgentStatus "claude-3-opus" AgentStatus.offline
              o0))))).

(** New orchestrators with the least-loaded and the round-robin strategy. *)
Definition l0 : AgentOrchestrator.t := AgentOrchestrator.new cm e0 least_loaded.
Definition rr0 : AgentOrchestrator.t := AgentOrchestrator.new cm e0 round_robin.

(** A task linked to the first step of the workflow of the run [e3],
    where that step is running. *)
Definition linkedTask : AgentOrchestrator.AssignParams :=
  {| AgentOrchestrator.p_taskId := "job";
     AgentOrchestrator.p_requiredCapabilities := None;
     AgentOrchestrator.p_priority := None;
     AgentOrchestrator.p_workflowId := Some "w";
     AgentOrchestrator.p_stepId := Some "s1";
     AgentOrchestrator.p_preferredAgent := None;
     AgentOrchestrator.p_estimatedDuration := None |}.
Definition linked0 : AgentOrchestrator.t :=
  AgentOrchestrator.new cm e3 capability_based.
Definition linked1 : AgentOrchestrator.t :=
  fst (AgentOrchestrator.assignTask 4 linkedTask linked0).

(** A new orchestrator with the performance strategy. *)
Definition p0 : AgentOrchestrator.t :=
  AgentOrchestrator.new cm e0 performance_based.

(** The agent with the load that does not fit, registered with a new
    round-robin orchestrator, and a task assigned to it. *)
Definition s0 : AgentOrchestrator.t := AgentOrchestrator.registerAgent stale rr0.
Definition s1 : AgentOrchestrator.t :=
  fst (AgentOrchestrator.assignTask 0 (task "t" None (Some "S")) s0).

(** *** Runs on which the rounding of the doubles shows *)

(** A label of two digits. *)
Definition label (i : nat) : string :=
  String (Ascii.ascii_of_nat (48 + i / 10)%nat)
         (String (Ascii.ascii_of_nat (48 + i mod 10)%nat) "").

(** A workflow of forty custom steps; its steps "01" to "22" completed,
    and then step "23". *)
Definition forty : list WorkflowStep.t :=
  map (fun i => customStep (label i) (label i) []) (seq 1 40).
Definition long0 : WorkflowEngine.t :=
  fst (WorkflowEngine.createWorkflow 0 (fun _ => "long") (customParams forty) e0).
Definition long22 : WorkflowEngine.t :=
  fold_left (fun e i => fst (WorkflowEngine.completeStep 1 "long" (label i) None None e))
            (seq 1 22) long0.
Definition r23 := WorkflowEngine.completeStep 2 "long" (label 23) None None long22.
Definition long23 : WorkflowEngine.t := fst r23.

(** An agent with room for forty tasks next to the default agents, and
    the tasks "01" to "23" assigned to it. *)
Definition wide : AgentOrchestrator.t :=
  AgentOrchestrator.registerAgent (debugger "W" 3 40) o0.
Definition assignTo (agentId : string) (o : AgentOrchestrator.t) (i : nat) :
  AgentOrchestrator.t :=
  fst (AgentOrchestrator.assignTask 0 (task (label i) None (Some agentId)) o).
Definition busy : AgentOrchestrator.t := fold_left (assignTo "W") (seq 1 23) wide.

(** *** A step whose id is the name of another step *)

(** Step "X" has the id "A", the step after it has the name "A", and
    step "B" depends on "A". The workflow is started, the step of id "A"
    is executed and completed, and step "B" is executed. *)
Definition namesakes : list WorkflowStep.t :=
  [customStep "A" "X" []; customStep "a" "A" []; customStep "b" "B" ["A"]].
Definition n0 : WorkflowEngine.t :=
  fst (WorkflowEngine.createWorkflow 0 (fun _ => "n") (customParams namesakes) e0).
Definition n1 : WorkflowEngine.t := fst (WorkflowEngine.transition 1 "n" Trigger.start n0).
Definition n2 : WorkflowEngine.t := fst (WorkflowEngine.executeStep 2 "n" "A" None n1).
Definition n3 : WorkflowEngine.t := fst (WorkflowEngine.completeStep 3 "n" "A" None None n2).
Definition n4 : WorkflowEngine.t := fst (WorkflowEngine.executeStep 4 "n" "b" None n3).

End Scenario.

(** ** Facts on lists and on the monad *)

Module Facts.

Lemma forallb_pointwise {A : Type} (f g : A -> bool) (l : list A) :
  (forall x, f x = g x) -> forallb f l = forallb g l.
Proof. intros H. induction l as [|x l IH]; simpl; [done|]. by rewrite H, IH. Qed.

Lemma find_modify_first_same {A : Type} (p : A -> bool) (f : A -> A) (l : list A) (x : A) :
  List.find p l = Some x -> p (f x) = true ->
  List.find p (JS.modify_first p f l) = Some (f x).
Proof.
  induction l as [|y l IH]; [done|]. simpl. intros Hfind Hpf.
  destruct (p y) eqn:Hp.
  - injection Hfind as ->. simpl. by rewrite Hpf.
  - simpl. rewrite Hp. by apply IH.
Qed.

Lemma find_modify_first_untouched {A : Type} (p q : A -> bool) (f : A -> A) (l : list A) (x : A) :
  (forall y, p (f y) = p y) ->
  List.find p l = Some x -> q x = false ->
  List.find p (JS.modify_first q f l) = Some x.
Proof.
  intros Hpf. induction l as [|y l IH]; [done|]. simpl. intros Hfind Hq.
  destruct (p y) eqn:Hp.
  - injection Hfind as ->. rewrite Hq. simpl. by rewrite Hp.
  - destruct (q y); simpl.
    + by rewrite Hpf, Hp.
    + rewrite Hp. by apply IH.
Qed.

Lemma Forall2_In_r {A B : Type} (R : A -> B -> Prop) (l : list A) (l' : list B) (y : B) :
  Forall2 R l l' -> In y l' -> exists x, In x l /\ R x y.
Proof.
  induction 1 as [|x y' l l' HR _ IH]; [done|].
  intros [<-|Hin].
  - exists x. split; [by left|done].
  - destruct (IH Hin) as (x' & Hx' & HR'). exists x'. split; [by right|done].
Qed.

Lemma modify_first_Forall2 {A : Type} (R : A -> A -> Prop) (p : A -> bool) (f : A -> A)
  (l : list A) :
  (forall x, R x x) ->
  (forall x, List.find p l = Some x -> R x (f x)) ->
  Forall2 R l (JS.modify_first p f l).
Proof.
  intros Hrefl. induction l as [|y l IH]; simpl; [constructor|].
  intros Hf. destruct (p y).
  - constructor; [by apply Hf|]. apply Forall_Forall2_diag, Forall_forall. auto.
  - constructor; [apply Hrefl|]. by apply IH.
Qed.

Lemma find_modify_first_other {A : Type} (p q : A -> bool) (f : A -> A) (l : list A) :
  (forall y, p (f y) = p y) ->
  (forall y, p y = true -> q y = false) ->
  List.find p (JS.modify_first q f l) = List.find p l.
Proof.
  intros Hpf Hpq. induction l as [|y l IH]; [done|]. simpl.
  destruct (q y) eqn:Hq; simpl.
  - rewrite Hpf. destruct (p y) eqn:Hp; [|done]. apply Hpq in Hp. congruence.
  - destruct (p y); [done|exact IH].
Qed.

Lemma modify_first_none {A : Type} (p : A -> bool) (f : A -> A) (l : list A) :
  existsb p l = false -> JS.modify_first p f l = l.
Proof.
  induction l as [|y l IH]; [done|]. simpl. intros H.
  apply orb_false_iff in H as [-> H]. by rewrite IH.
Qed.

Lemma In_modify_first {A : Type} (p : A -> bool) (f : A -> A) (l : list A) (x : A) :
  In x (JS.modify_first p f l) -> In x l \/ exists y, In y l /\ p y = true /\ x = f y.
Proof.
  induction l as [|y l IH]; [done|]. simpl. destruct (p y) eqn:Hp.
  - intros [<-|Hin]; [right; exists y; auto|left; by right].
  - intros [<-|Hin]; [left; by left|].
    destruct (IH Hin) as [H|(z & Hz & Hpz & ->)]; [left; by right|].
    right. exists z. auto.
Qed.

Lemma filter_modify_first {A : Type} (p q : A -> bool) (f : A -> A) (l : list A) :
  (forall y, q y = true -> p y = false /\ p (f y) = false) ->
  List.filter p (JS.modify_first q f l) = List.filter p l.
Proof.
  intros H. induction l as [|y l IH]; [done|]. simpl.
  destruct (q y) eqn:Hq; simpl.
  - destruct (H y Hq) as [-> ->]. done.
  - by rewrite IH.
Qed.

Lemma map_modify_first {A B : Type} (g : A -> B) (p : A -> bool) (f : A -> A) (l : list A) :
  (forall y, g (f y) = g y) -> map g (JS.modify_first p f l) = map g l.
Proof.
  intros H. induction l as [|y l IH]; [done|]. simpl.
  destruct (p y); simpl; [by rewrite H|by rewrite IH].
Qed.

Lemma preserves_ret {St A : Type} (P : St -> Prop) (a : A) : preserves P (ret a).
Proof. by intros s. Qed.

Lemma preserves_throw {St A : Type} (P : St -> Prop) (e : Error) :
  preserves P (throw (A := A) e).
Proof. by intros s. Qed.

Lemma preserves_get {St : Type} (P : St -> Prop) : preserves P get.
Proof. by intros s. Qed.

Lemma preserves_modify {St : Type} (P : St -> Prop) (f : St -> St) :
  (forall s, P s -> P (f s)) -> preserves P (modify f).
Proof. intros Hf s. apply Hf. Qed.

Lemma preserves_bind {St A B : Type} (P : St -> Prop) (m : M St A) (k : A -> M St B) :
  preserves P m -> (forall a, preserves P (k a)) -> preserves P (bind m k).
Proof.
  intros Hm Hk s Hs. unfold bind. specialize (Hm s Hs).
  destruct (m s) as [s' [e|a]]; [done|]. by apply Hk.
Qed.

Lemma preserves_updateTaskContext {St : Type} (P : St -> Prop) cm sid :
  preserves P (ContextManager.updateTaskContext cm sid).
Proof.
  unfold ContextManager.updateTaskContext.
  destruct (ContextManager.has cm sid); [apply preserves_ret|apply preserves_throw].
Qed.

Lemma map_modify_first_at {A B : Type} (g : A -> B) (p : A -> bool) (x : A) (l : list A) :
  (forall y, p y = true -> g y = g x) -> map g (JS.modify_first p (fun _ => x) l) = map g l.
Proof.
  intros H. induction l as [|y l IH]; [done|]. simpl.
  destruct (p y) eqn:Hp; simpl; [by rewrite (H y Hp)|by rewrite IH].
Qed.

End Facts.

(** ** The workflow engine: proofs *)

Module WorkflowEngineProofs.
Import Facts WorkflowEngine.

(** *** Steps seen through their dependencies *)

Lemma has_status_true v s : has_status v s = true <-> WorkflowStep.status s = v.
Proof. unfold has_status. apply bool_decide_eq_true. Qed.

Lemma has_status_false v s : has_status v s = false <-> WorkflowStep.status s <> v.
Proof. unfold has_status. apply bool_decide_eq_false. Qed.

Lemma refers_same d s s' :
  WorkflowStep.id s' = WorkflowStep.id s -> WorkflowStep.name s' = WorkflowStep.name s ->
  refers d s' = refers d s.
Proof. unfold refers. by intros -> ->. Qed.

Lemma dependencyCompleted_mono l l' d :
  Forall2 moreCompleted l l' ->
  dependencyCompleted l d = true -> dependencyCompleted l' d = true.
Proof.
  unfold dependencyCompleted.
  induction 1 as [|s s' l l' (Hid & Hname & _ & Hst) _ IH]; [done|].
  simpl. rewrite (refers_same d s s' Hid Hname).
  destruct (refers d s); [|exact IH].
  rewrite !has_status_true. exact Hst.
Qed.

Lemma dependencyCompleted_same l l' d :
  Forall2 sameCompleted l l' ->
  dependencyCompleted l' d = dependencyCompleted l d.
Proof.
  unfold dependencyCompleted.
  induction 1 as [|s s' l l' (Hid & Hname & Hst) _ IH]; [done|].
  simpl. rewrite (refers_same d s s' Hid Hname).
  destruct (refers d s); [|exact IH].
  apply eq_true_iff_eq. rewrite !has_status_true. by symmetry.
Qed.

Lemma dependencyCompleted_none l d :
  Forall (fun s => WorkflowStep.status s <> StepStatus.completed) l ->
  dependencyCompleted l d = false.
Proof.
  unfold dependencyCompleted. induction 1 as [|s l Hs _ IH]; [done|].
  simpl. destruct (refers d s); [|exact IH]. by apply has_status_false.
Qed.

Lemma checkDependencies_none w s :
  Forall (fun s => WorkflowStep.status s <> StepStatus.completed) (Workflow.steps w) ->
  checkDependencies w s = bool_decide (WorkflowStep.dependencies s = []).
Proof.
  intros Hnone. unfold checkDependencies.
  destruct (WorkflowStep.dependencies s) as [|d ds]; [done|].
  simpl. by rewrite dependencyCompleted_none.
Qed.

(** *** The loop of [prepareWorkflow] *)

Lemma promote_sameCompleted w s : sameCompleted s (promote w s).
Proof.
  unfold promote, sameCompleted.
  destruct (checkDependencies w s); simpl; [|done].
  destruct (has_status StepStatus.pending s) eqn:Hp; simpl; [|done].
  apply has_status_true in Hp. rewrite Hp. repeat split; done.
Qed.

Lemma prepare_loop_from (w : Workflow.t) (l2 l1 : list WorkflowStep.t) :
  Workflow.steps w = l1 ++ l2 ->
  fold_left prepareStep (seq (length l1) (length l2))
            (Workflow.set_steps (map (promote w) l1 ++ l2) w) =
  Workflow.set_steps (map (promote w) (l1 ++ l2)) w.
Proof.
  revert l1. induction l2 as [|s l2 IH]; intros l1 Hw.
  - by rewrite !app_nil_r.
  - simpl. unfold prepareStep at 2. simpl.
    assert (Hlook : (map (promote w) l1 ++ s :: l2) !! length l1 = Some s).
    { rewrite lookup_app_r by (rewrite length_map; lia).
      by rewrite length_map, Nat.sub_diag. }
    rewrite Hlook.
    assert (Hcheck : checkDependencies
                       (Workflow.set_steps (map (promote w) l1 ++ s :: l2) w) s =
                     checkDependencies w s).
    { unfold checkDependencies. simpl. rewrite Hw.
      apply forallb_pointwise. intros d. apply dependencyCompleted_same.
      apply Forall2_app.
      - apply Forall2_fmap_r, Forall_Forall2_diag, Forall_forall.
        intros x _. apply promote_sameCompleted.
      - apply Forall_Forall2_diag, Forall_forall. intros x _.
        repeat split; done. }
    rewrite Hcheck.
    specialize (IH (l1 ++ [s])). rewrite length_app in IH. simpl in IH.
    replace (length l1 + 1)%nat with (S (length l1)) in IH by lia.
    rewrite map_app in IH. simpl in IH. rewrite <- !app_assoc in IH. simpl in IH.
    specialize (IH Hw). rewrite <- IH. f_equal.
    unfold promote.
    destruct (checkDependencies w s && has_status StepStatus.pending s); [|done].
    unfold Workflow.set_steps; simpl. f_equal.
    rewrite insert_app_r_alt by (rewrite length_map; lia).
    by rewrite length_map, Nat.sub_diag.
Qed.

Lemma prepare_loop (w : Workflow.t) :
  fold_left prepareStep (seq 0 (length (Workflow.steps w))) w =
  Workflow.set_steps (map (promote w) (Workflow.steps w)) w.
Proof.
  pose proof (prepare_loop_from w (Workflow.steps w) [] eq_refl) as H.
  simpl in H. rewrite <- H. f_equal. by destruct w.
Qed.

Lemma set_workflows_id (e : WorkflowEngine.t) (workflowId : string) (w : Workflow.t) :
  workflows e !! workflowId = Some w ->
  set_workflows (<[workflowId := w]> (workflows e)) e = e.
Proof.
  intros H. destruct e as [ws ts cm]; unfold set_workflows; simpl in *.
  by rewrite insert_id.
Qed.

Lemma transition_unfold now workflowId trg (e : WorkflowEngine.t) (w : Workflow.t) :
  workflows e !! workflowId = Some w ->
  transition now workflowId trg e =
  match validTransitions w trg with
  | [] => (e, inl InvalidTransition)
  | valid =>
      let '(w', r) := fire now (contextManager e) valid w in
      (set_workflows (<[workflowId := w']> (workflows e)) e, r)
  end.
Proof.
  intros Hw. unfold transition, onWorkflow. rewrite Hw. unfold bind, get.
  destruct (validTransitions w trg) eqn:Hv; simpl.
  - unfold throw. by rewrite set_workflows_id.
  - done.
Qed.

Lemma validTransitions_unique (w : Workflow.t) (trg : Trigger.t) :
  (length (validTransitions w trg) <= 1)%nat.
Proof.
  unfold validTransitions. destruct (Workflow.state w), trg; vm_compute; lia.
Qed.

Lemma fire_guards_false now cm (valid : list WorkflowTransition) (w : Workflow.t) :
  Forall (fun row => exists c, condition row = Some c /\ c w = false) valid ->
  fire now cm valid w = (w, inl GuardNotMet).
Proof.
  induction 1 as [|row rest (c & Hc & Hw) _ IH]; [done|].
  simpl. unfold bind, get. rewrite Hc, Hw. exact IH.
Qed.

(** C3. For an existing workflow, [transition] fails with
    [InvalidTransition] when no row of the table matches the state of the
    workflow and the trigger, and with [GuardNotMet] when a row matches and
    its guard is false; in both cases the engine is left as it was, and so
    are the state and [updatedAt] of the workflow. *)
Theorem transition_failure_leaves_workflow (e : WorkflowEngine.t) (now : JS.Time)
  (workflowId : string) (trg : Trigger.t) (w : Workflow.t) :
  workflows e !! workflowId = Some w ->
  (validTransitions w trg = [] ->
   transition now workflowId trg e = (e, inl InvalidTransition)) /\
  (forall row c, In row (validTransitions w trg) -> condition row = Some c -> c w = false ->
   transition now workflowId trg e = (e, inl GuardNotMet)).
Proof.
  intros Hw. rewrite (transition_unfold _ _ _ _ _ Hw). split.
  - by intros ->.
  - intros row c Hin Hc Hfalse.
    pose proof (validTransitions_unique w trg) as Hlen.
    destruct (validTransitions w trg) as [|row' rest] eqn:Hv; [done|].
    destruct rest; [|simpl in Hlen; lia].
    destruct Hin as [->|[]].
    rewrite (fire_guards_false now (contextManager e) [row] w).
    + by rewrite set_workflows_id.
    + constructor; [eauto|constructor].
Qed.

Lemma transition_draft_start now workflowId (e : WorkflowEngine.t) (w : Workflow.t) :
  workflows e !! workflowId = Some w ->
  Workflow.state w = WorkflowState.draft ->
  validateWorkflow w = true ->
  let w' := prepareWorkflow (touch now WorkflowState.ready w) in
  transition now workflowId Trigger.start e =
  (set_workflows (<[workflowId := w']> (workflows e)) e, inr w').
Proof.
  intros Hw Hst Hvalid. rewrite (transition_unfold _ _ _ _ _ Hw).
  unfold validTransitions. rewrite Hst. simpl.
  unfold bind, get, modify. by rewrite Hvalid.
Qed.

Lemma prepare_feature_development (w : Workflow.t) (uuid : nat -> string) :
  Workflow.steps w = featureSteps uuid ->
  Workflow.state (prepareWorkflow w) = WorkflowState.running /\
  Workflow.steps (prepareWorkflow w) =
    JS.modify_first (fun _ => true) (WorkflowStep.set_status StepStatus.ready) (featureSteps uuid).
Proof.
  intros Hsteps. unfold prepareWorkflow. rewrite prepare_loop.
  assert (Hnone : Forall (fun s => WorkflowStep.status s <> StepStatus.completed)
                         (Workflow.steps w)).
  { rewrite Hsteps. repeat constructor; done. }
  rewrite Hsteps. unfold featureSteps. simpl.
  unfold promote. rewrite !(checkDependencies_none _ _ Hnone). simpl.
  split; reflexivity.
Qed.

(** C2, as amended. On a workflow fresh from the feature-development
    template, six steps of which "Requirements Analysis" is the first and
    has no dependency, one [transition(workflowId, 'start')] succeeds and
    takes the workflow from draft through ready to running, as
    [prepareWorkflow] moves on at once when a step is ready; exactly one
    step is then ready or running, "Requirements Analysis", which is
    ready; and a second [start] fails with [InvalidTransition] and changes
    nothing. *)
Theorem feature_development_single_start (e : WorkflowEngine.t) (params : CreateParams)
  (uuid : nat -> string) (now0 now1 now2 : JS.Time) :
  templates e !! "feature-development" = Some featureDevelopment ->
  p_templateId params = Some "feature-development" ->
  let e1 := fst (createWorkflow now0 uuid params e) in
  let r1 := transition now1 (uuid 0%nat) Trigger.start e1 in
  let r2 := transition now2 (uuid 0%nat) Trigger.start (fst r1) in
  exists w1, snd r1 = inr w1 /\ workflows (fst r1) !! uuid 0%nat = Some w1 /\
             Workflow.state w1 = WorkflowState.running /\
             length (Workflow.steps w1) = 6%nat /\
             map (fun s => (WorkflowStep.name s, WorkflowStep.status s)) (activeSteps w1) =
               [("Requirements Analysis", StepStatus.ready)] /\
             r2 = (fst r1, inl InvalidTransition).
Proof.
  intros Htpl Hid e1 r1 r2.
  assert (He1 : exists w0, workflows e1 !! uuid 0%nat = Some w0 /\
            Workflow.state w0 = WorkflowState.draft /\
            Workflow.steps w0 = featureSteps uuid).
  { eexists. subst e1. unfold createWorkflow, templateFor. rewrite Hid. simpl.
    rewrite Htpl. simpl. rewrite lookup_insert_eq. split; [reflexivity|]. split; reflexivity. }
  destruct He1 as (w0 & Hw0 & Hst0 & Hsteps0). clearbody e1.
  assert (Hvalid : validateWorkflow w0 = true).
  { unfold validateWorkflow. rewrite Hsteps0. reflexivity. }
  pose proof (transition_draft_start now1 _ _ _ Hw0 Hst0 Hvalid) as Hr1.
  simpl in Hr1. fold r1 in Hr1.
  destruct (prepare_feature_development (touch now1 WorkflowState.ready w0) uuid Hsteps0)
    as [Hrun Hsteps1].
  set (w1 := prepareWorkflow (touch now1 WorkflowState.ready w0)) in *.
  assert (Hw1 : workflows (fst r1) !! uuid 0%nat = Some w1).
  { rewrite Hr1. simpl. apply lookup_insert_eq. }
  exists w1. split; [by rewrite Hr1|]. split; [exact Hw1|]. split; [exact Hrun|].
  split; [by rewrite Hsteps1|]. split.
  - unfold activeSteps. rewrite Hsteps1. reflexivity.
  - subst r2. rewrite (transition_unfold _ _ _ _ _ Hw1).
    unfold validTransitions. rewrite Hrun. reflexivity.
Qed.

(** *** [completeStep] *)

Lemma store_lookup workflowId w e : workflows (store workflowId w e) !! workflowId = Some w.
Proof. apply lookup_insert_eq. Qed.

Lemma store_store workflowId w w' e :
  store workflowId w' (store workflowId w e) = store workflowId w' e.
Proof. unfold store, set_workflows. simpl. by rewrite insert_insert_eq. Qed.

Lemma forEach_track (cm : ContextManager.t) (sid : string) (arts : list (string * string))
  (w : Workflow.t) :
  forEach (fun _ => ContextManager.trackArtifact (St := Workflow.t) cm sid) arts w = (w, inr tt) \/
  exists err, forEach (fun _ => ContextManager.trackArtifact (St := Workflow.t) cm sid) arts w
              = (w, inl err).
Proof.
  destruct (ContextManager.has cm sid) eqn:Hhas.
  - left. induction arts as [|a arts IH]; [done|].
    simpl. unfold bind at 1. unfold ContextManager.trackArtifact at 1.
    rewrite Hhas. exact IH.
  - destruct arts as [|a arts]; [by left|]. right.
    simpl. unfold bind, ContextManager.trackArtifact. rewrite Hhas. by eexists.
Qed.

(** The review that [completeStep] asks for when all steps are done. *)
Lemma transition_review now workflowId (e : WorkflowEngine.t) (w : Workflow.t) :
  workflows e !! workflowId = Some w ->
  allStepsComplete w = true ->
  transition now workflowId Trigger.review e =
  if bool_decide (Workflow.state w = WorkflowState.running)
  then let w' := prepareReview (touch now WorkflowState.review w) in
       (store workflowId w' e, inr w')
  else (e, inl InvalidTransition).
Proof.
  intros Hw Hall. rewrite (transition_unfold _ _ _ _ _ Hw). unfold validTransitions.
  destruct (Workflow.state w); simpl; try reflexivity.
  unfold bind, get, modify. by rewrite Hall.
Qed.

Lemma completeStep_unfold now workflowId stepId outputs artifacts
  (e : WorkflowEngine.t) (w : Workflow.t) (step : WorkflowStep.t) :
  workflows e !! workflowId = Some w ->
  List.find (has_id stepId) (Workflow.steps w) = Some step ->
  let w1 := completed now stepId outputs w in
  completeStep now workflowId stepId outputs artifacts e =
  (if allStepsComplete w1
   then if bool_decide (Workflow.state w = WorkflowState.running)
        then (store workflowId (prepareReview (touch now WorkflowState.review w1)) e, inr tt)
        else (store workflowId w1 e, inl InvalidTransition)
   else (store workflowId (startNextStep w1) e, inr tt)) \/
  (exists err, completeStep now workflowId stepId outputs artifacts e = 
     (store workflowId
        (Workflow.set_steps
           (JS.modify_first (has_id stepId) (markCompleted now outputs) (Workflow.steps w)) w)
        e, inl err) /\ artifacts <> None).
Proof.
  intros Hw Hfind w1.
  remember (completeStep now workflowId stepId outputs artifacts e) as r eqn:Hr.
  unfold completeStep in Hr.
  unfold bind at 1 in Hr. unfold onWorkflow at 1 in Hr. rewrite Hw in Hr.
  unfold bind at 1 in Hr. unfold get at 1 in Hr. rewrite Hfind in Hr.
  unfold bind at 1 in Hr. unfold modify at 1 in Hr.
  unfold bind at 1 in Hr.
  set (w0 := Workflow.set_steps _ w) in Hr.
  assert (Htrack :
    match artifacts, linkedSession w with
    | Some arts, Some sid =>
        forEach (fun _ => ContextManager.trackArtifact (St := Workflow.t) (contextManager e) sid) arts
    | _, _ => ret tt
    end w0 = (w0, inr tt) \/
    (exists err, match artifacts, linkedSession w with
    | Some arts, Some sid =>
        forEach (fun _ => ContextManager.trackArtifact (St := Workflow.t) (contextManager e) sid) arts
    | _, _ => ret tt
    end w0 = (w0, inl err)) /\ artifacts <> None).
  { destruct artifacts as [arts|]; [|by left].
    destruct (linkedSession w) as [sid|]; [|by left].
    destruct (forEach_track (contextManager e) sid arts w0) as [H|[err H]]; [by left|].
    right. split; [by exists err|done]. }
  destruct Htrack as [Ht | [[err Ht] Hne]]; rewrite Ht in Hr.
  - left. unfold bind, modify, get, ret in Hr.
    change (updateProgress w0) with w1 in Hr.
    change (set_workflows (<[workflowId:=w1]> (workflows e)) e)
      with (store workflowId w1 e) in Hr.
    destruct (allStepsComplete w1) eqn:Hall.
    + rewrite (transition_review now workflowId (store workflowId w1 e) w1
                 (store_lookup _ _ _) Hall) in Hr.
      assert (Hstate : Workflow.state w1 = Workflow.state w) by reflexivity.
      rewrite Hstate in Hr.
      destruct (bool_decide (Workflow.state w = WorkflowState.running)).
      * cbv beta iota zeta in Hr. by rewrite store_store in Hr.
      * exact Hr.
    + unfold onWorkflow in Hr. rewrite store_lookup in Hr.
      cbv beta iota zeta in Hr.
      change (set_workflows (<[workflowId:=startNextStep w1]> (workflows (store workflowId w1 e)))
                (store workflowId w1 e))
        with (store workflowId (startNextStep w1) (store workflowId w1 e)) in Hr.
      by rewrite store_store in Hr.
  - right. exists err. split; [exact Hr|exact Hne].
Qed.

(** [Math.round] gives the integer nearest to the number, a half going
    up. *)
Lemma Math_round_nearest (x : Q) :
  (inject_Z (JS.Math_round x) <= x + (1 # 2) < inject_Z (JS.Math_round x) + 1)%Q.
Proof.
  unfold JS.Math_round. split; [apply Qfloor_le|].
  pose proof (Qlt_floor (x + (1 # 2))%Q) as H. by rewrite inject_Z_plus in H.
Qed.

Lemma completeStep_unknown now workflowId stepId outputs artifacts (e : WorkflowEngine.t) :
  match workflows e !! workflowId with
  | Some w => List.find (has_id stepId) (Workflow.steps w) = None
  | None => True
  end ->
  exists err, completeStep now workflowId stepId outputs artifacts e = (e, inl err).
Proof.
  intros H. unfold completeStep. unfold bind at 1. unfold onWorkflow at 1.
  destruct (workflows e !! workflowId) as [w|] eqn:Hw; [|by eexists].
  unfold bind at 1. unfold get at 1. rewrite H. unfold throw.
  rewrite (set_workflows_id e workflowId w Hw). by eexists.
Qed.

Lemma metrics_startNextStep w : Workflow.metrics (startNextStep w) = Workflow.metrics w.
Proof. reflexivity. Qed.

Lemma metrics_prepareReview w : Workflow.metrics (prepareReview w) = Workflow.metrics w.
Proof.
  unfold prepareReview. destruct (Metadata.estimatedDuration _); [|done].
  by destruct (bool_decide _).
Qed.

Lemma progress_completed now stepId outputs w :
  let m := Workflow.metrics (completed now stepId outputs w) in
  Metrics.stepsTotal m = Metrics.stepsTotal (Workflow.metrics w) /\
  Metrics.stepsCompleted m = Metrics.stepsCompleted (Workflow.metrics w) + 1 /\
  Metrics.progressPercentage m =
    JS.Math_round (JS.mul (JS.div (inject_Z (Metrics.stepsCompleted m))
                                  (inject_Z (Metrics.stepsTotal m))) 100).
Proof. repeat split; reflexivity. Qed.

(** C8. After every successful [completeStep] on a workflow with at least
    one step counted, [progressPercentage] is
    [round(stepsCompleted / stepsTotal * 100)] as the code evaluates it:
    the quotient and then the product are rounded to doubles, and
    [Math.round] gives the integer nearest to that double, a half going
    up. *)
Theorem completeStep_progress (e e' : WorkflowEngine.t) (now : JS.Time)
  (workflowId stepId : string) (outputs : option string)
  (artifacts : option (list (string * string))) :
  completeStep now workflowId stepId outputs artifacts e = (e', inr tt) ->
  exists w', workflows e' !! workflowId = Some w' /\
    let m := Workflow.metrics w' in
    let x := JS.mul (JS.div (inject_Z (Metrics.stepsCompleted m))
                            (inject_Z (Metrics.stepsTotal m))) 100 in
    (1 <= Metrics.stepsTotal m ->
     Metrics.progressPercentage m = JS.Math_round x /\
     (inject_Z (Metrics.progressPercentage m) <= x + (1 # 2)
      < inject_Z (Metrics.progressPercentage m) + 1)%Q).
Proof.
  intros Hrun.
  destruct (workflows e !! workflowId) as [w|] eqn:Hw; cycle 1.
  { destruct (completeStep_unknown now workflowId stepId outputs artifacts e) as (? & H).
    - by rewrite Hw.
    - congruence. }
  destruct (List.find (has_id stepId) (Workflow.steps w)) as [step|] eqn:Hfind; cycle 1.
  { destruct (completeStep_unknown now workflowId stepId outputs artifacts e) as (? & H).
    - by rewrite Hw.
    - congruence. }
  destruct (completeStep_unfold now workflowId stepId outputs artifacts e w step Hw Hfind)
    as [Heq | (err & Heq & _)]; [|congruence].
  rewrite Hrun in Heq.
  set (w1 := completed now stepId outputs w) in *.
  assert (Hgoal : forall w', Workflow.metrics w' = Workflow.metrics w1 ->
            let m := Workflow.metrics w' in
            let x := JS.mul (JS.div (inject_Z (Metrics.stepsCompleted m))
                                    (inject_Z (Metrics.stepsTotal m))) 100 in
            1 <= Metrics.stepsTotal m ->
            Metrics.progressPercentage m = JS.Math_round x /\
            (inject_Z (Metrics.progressPercentage m) <= x + (1 # 2)
             < inject_Z (Metrics.progressPercentage m) + 1)%Q).
  { intros w' Hm m x _. subst m x. rewrite Hm.
    destruct (progress_completed now stepId outputs w) as (_ & _ & Hp). fold w1 in Hp.
    split; [exact Hp|]. rewrite Hp. apply Math_round_nearest. }
  destruct (allStepsComplete w1).
  - destruct (bool_decide (Workflow.state w = WorkflowState.running)); [|congruence].
    injection Heq as ->. eexists. split; [apply store_lookup|].
    apply Hgoal. by rewrite metrics_prepareReview.
  - injection Heq as ->. eexists. split; [apply store_lookup|].
    apply Hgoal. apply metrics_startNextStep.
Qed.

Lemma allStepsComplete_startNextStep w :
  allStepsComplete (startNextStep w) = allStepsComplete w.
Proof.
  unfold allStepsComplete, startNextStep. simpl.
  induction (Workflow.steps w) as [|s l IH]; [done|]. simpl.
  destruct (startable w s) eqn:Hs; simpl; [|by rewrite IH].
  unfold startable in Hs. unfold has_status in *. simpl.
  repeat case_bool_decide; simpl in *; congruence.
Qed.

Lemma steps_prepareReview w : Workflow.steps (prepareReview w) = Workflow.steps w.
Proof.
  unfold prepareReview. destruct (Metadata.estimatedDuration _); [|done].
  by destruct (bool_decide _).
Qed.

(** C10, as amended. [completeStep(workflowId, stepId)] looks at no
    status: whatever the status of an existing step, the step is set to
    completed, [stepsCompleted] grows by exactly one and the progress is
    computed anew from it. The call then returns normally, unless all steps
    are now completed or skipped while the workflow is not running: the
    review it asks for is then an invalid transition, thrown after the
    mutation. *)
Theorem completeStep_unchecked (e : WorkflowEngine.t) (now : JS.Time)
  (workflowId stepId : string) (outputs : option string)
  (w : Workflow.t) (step : WorkflowStep.t) :
  workflows e !! workflowId = Some w ->
  List.find (has_id stepId) (Workflow.steps w) = Some step ->
  let r := completeStep now workflowId stepId outputs None e in
  exists w' step',
    workflows (fst r) !! workflowId = Some w' /\
    List.find (has_id stepId) (Workflow.steps w') = Some step' /\
    WorkflowStep.status step' = StepStatus.completed /\
    Metrics.stepsCompleted (Workflow.metrics w') =
      Metrics.stepsCompleted (Workflow.metrics w) + 1 /\
    Metrics.progressPercentage (Workflow.metrics w') =
      JS.Math_round (JS.mul (JS.div (inject_Z (Metrics.stepsCompleted (Workflow.metrics w) + 1))
                                    (inject_Z (Metrics.stepsTotal (Workflow.metrics w)))) 100) /\
    snd r = if allStepsComplete w' && negb (bool_decide (Workflow.state w = WorkflowState.running))
            then inl InvalidTransition else inr tt.
Proof.
  intros Hw Hfind r.
  destruct (completeStep_unfold now workflowId stepId outputs None e w step Hw Hfind)
    as [Heq | (err & _ & Hne)]; [|done].
  subst r. rewrite Heq. clear Heq.
  set (w1 := completed now stepId outputs w).
  assert (Hfind1 : List.find (has_id stepId) (Workflow.steps w1) =
                   Some (markCompleted now outputs step)).
  { apply find_modify_first_same; [exact Hfind|].
    apply find_some in Hfind as [_ Hid]. exact Hid. }
  destruct (allStepsComplete w1) eqn:Hall.
  - destruct (bool_decide (Workflow.state w = WorkflowState.running)) eqn:Hrun.
    + exists (prepareReview (touch now WorkflowState.review w1)), (markCompleted now outputs step).
      simpl fst. simpl snd. rewrite store_lookup.
      assert (Hsteps : Workflow.steps (prepareReview (touch now WorkflowState.review w1)) =
                       Workflow.steps w1) by (by rewrite steps_prepareReview).
      unfold allStepsComplete at 1. rewrite Hsteps, metrics_prepareReview.
      fold (allStepsComplete w1). rewrite Hall. repeat split; done.
    + exists w1, (markCompleted now outputs step).
      simpl fst. simpl snd. rewrite store_lookup, Hall. repeat split; done.
  - exists (startNextStep w1), (markCompleted now outputs step).
    simpl fst. simpl snd. rewrite store_lookup, allStepsComplete_startNextStep, Hall.
    repeat split; try done.
    apply find_modify_first_untouched; [done|exact Hfind1|].
    unfold startable, has_status. simpl. reflexivity.
Qed.

(** *** Dependency satisfaction is kept *)

Lemma moreCompleted_refl s : moreCompleted s s.
Proof. by repeat split. Qed.

Lemma advance_refl l s : advance l s s.
Proof. split; [apply moreCompleted_refl|by left]. Qed.

Lemma checkDependencies_mono (w w' : Workflow.t) (s s' : WorkflowStep.t) :
  Forall2 moreCompleted (Workflow.steps w) (Workflow.steps w') ->
  WorkflowStep.dependencies s' = WorkflowStep.dependencies s ->
  checkDependencies w s = true -> checkDependencies w' s' = true.
Proof.
  intros Hl Hdeps. unfold checkDependencies. rewrite Hdeps, !forallb_forall.
  intros H d Hd. by apply (dependencyCompleted_mono _ _ d Hl), H.
Qed.

Lemma find_has_id_advance c (l l' : list WorkflowStep.t) (s' : WorkflowStep.t) :
  Forall2 moreCompleted l l' ->
  List.find (has_id c) l' = Some s' ->
  exists s, List.find (has_id c) l = Some s /\ moreCompleted s s'.
Proof.
  induction 1 as [|s0 s0' l l' Hm _ IH]; [done|]. simpl.
  assert (Hid : has_id c s0' = has_id c s0).
  { unfold has_id. destruct Hm as (-> & _). done. }
  rewrite Hid. destruct (has_id c s0).
  - intros [= <-]. by exists s0.
  - exact IH.
Qed.

Lemma strongInv_advance (w w' : Workflow.t) :
  strongInv w ->
  Forall2 (advance (Workflow.steps w)) (Workflow.steps w) (Workflow.steps w') ->
  (Workflow.currentStepId w' = Workflow.currentStepId w \/
   forall s', currentStep w' = Some s' -> checkDependencies w' s' = true) ->
  strongInv w'.
Proof.
  intros [Hsat Hcur] Hadv Hc.
  assert (Hmore : Forall2 moreCompleted (Workflow.steps w) (Workflow.steps w')).
  { eapply Forall2_impl; [exact Hadv|]. by intros ? ? [? _]. }
  split.
  - intros s' Hin Hact.
    destruct (Forall2_In_r _ _ _ _ Hadv Hin) as (s & Hs & Hm & Hnew).
    apply (checkDependencies_mono w w' s s' Hmore); [by destruct Hm as (_ & _ & ? & _)|].
    destruct (Hnew Hact) as [Hold|Hdeps]; [by apply Hsat|exact Hdeps].
  - destruct Hc as [Hsame|Hc]; [|exact Hc].
    intros s'. unfold currentStep, currentStepPred. rewrite Hsame.
    destruct (Workflow.currentStepId w) as [c|] eqn:Hcid; [|done].
    destruct (JS.truthy c) eqn:Htr; [|done].
    intros Hfind.
    destruct (find_has_id_advance c _ _ s' Hmore Hfind) as (s & Hs & Hm).
    apply (checkDependencies_mono w w' s s' Hmore); [by destruct Hm as (_ & _ & ? & _)|].
    apply Hcur. unfold currentStep, currentStepPred. by rewrite Hcid, Htr.
Qed.

Lemma strongInv_same_steps (w w' : Workflow.t) :
  Workflow.steps w' = Workflow.steps w ->
  Workflow.currentStepId w' = Workflow.currentStepId w ->
  strongInv w -> strongInv w'.
Proof.
  intros Hsteps Hcid Hinv. apply (strongInv_advance w w' Hinv); [|by left].
  rewrite Hsteps. apply Forall_Forall2_diag, Forall_forall. intros. apply advance_refl.
Qed.

Lemma startable_not_completed w s :
  startable w s = true -> WorkflowStep.status s <> StepStatus.completed.
Proof.
  unfold startable, has_status. intros H Hc. rewrite Hc in H. simpl in H. done.
Qed.

Lemma strongInv_startNextStep w : strongInv w -> strongInv (startNextStep w).
Proof.
  intros Hinv. apply (strongInv_advance w _ Hinv); [|by left]. simpl.
  apply modify_first_Forall2; [apply advance_refl|].
  intros s Hfind. apply find_some in Hfind as [_ Hst].
  split.
  - repeat split; try done. intros Hc. by apply startable_not_completed in Hst.
  - intros _. unfold startable in Hst.
    apply orb_true_iff in Hst as [Hr|Hp].
    + left. left. by apply has_status_true.
    + right. by apply andb_true_iff in Hp as [_ Hp].
Qed.

Lemma strongInv_prepareWorkflow w : strongInv w -> strongInv (prepareWorkflow w).
Proof.
  intros Hinv. unfold prepareWorkflow. rewrite prepare_loop.
  set (w1 := Workflow.set_steps (map (promote w) (Workflow.steps w)) w).
  assert (H1 : strongInv w1).
  { apply (strongInv_advance w _ Hinv); [|by left]. simpl.
    apply Forall2_fmap_r, Forall_Forall2_diag, Forall_forall. intros s _.
    unfold compose, promote. cbv beta.
    destruct (checkDependencies w s) eqn:Hc; simpl; [|apply advance_refl].
    destruct (has_status StepStatus.pending s) eqn:Hp; [|apply advance_refl].
    apply has_status_true in Hp. split.
    - repeat split; try done. simpl. congruence.
    - intros _. by right. }
  destruct (existsb _ _); [|exact H1].
  apply strongInv_startNextStep.
  by apply (strongInv_same_steps w1).
Qed.

Lemma fst_updateTaskContext {St : Type} cm sid (s : St) :
  fst (ContextManager.updateTaskContext cm sid s) = s.
Proof. unfold ContextManager.updateTaskContext. by destruct (ContextManager.has cm sid). Qed.

Lemma currentStep_pred w p :
  currentStepPred w = Some p -> currentStep w = List.find p (Workflow.steps w).
Proof. unfold currentStep. by intros ->. Qed.

Lemma strongInv_pauseCurrentStep cm w : fst (pauseCurrentStep cm w) = w.
Proof.
  unfold pauseCurrentStep, bind, get.
  destruct (currentStepPred w); [|done]. destruct (List.find _ _); [|done].
  destruct (has_status _ _); [|done]. destruct (linkedSession w); [|done].
  apply fst_updateTaskContext.
Qed.

Lemma strongInv_resumeCurrentStep cm w :
  strongInv w -> currentNotCompleted w -> strongInv (fst (resumeCurrentStep cm w)).
Proof.
  intros Hinv Hnot. unfold resumeCurrentStep, bind, get.
  destruct (currentStepPred w) as [p|] eqn:Hp; [|done].
  destruct (List.find p (Workflow.steps w)) as [s0|] eqn:Hfind; [|done].
  unfold modify.
  set (w1 := Workflow.set_steps _ w).
  assert (Hfst : forall m : M Workflow.t unit,
            (m = ret tt \/ exists sid, m = ContextManager.updateTaskContext cm sid) ->
            fst (m w1) = w1).
  { intros m [->|[sid ->]]; [done|apply fst_updateTaskContext]. }
  rewrite Hfst by (destruct (linkedSession w); [right; by eexists|by left]).
  apply (strongInv_advance w _ Hinv); [|by left]. simpl.
  apply modify_first_Forall2; [apply advance_refl|].
  intros s Hs. rewrite <- (currentStep_pred w p Hp) in Hs. split.
  - repeat split; try done. intros Hc. by apply Hnot in Hs.
  - intros _. right. by apply (proj2 Hinv).
Qed.

Lemma strongInv_handleFailure now w :
  strongInv w -> currentNotCompleted w -> strongInv (handleFailure now w).
Proof.
  intros Hinv Hnot. unfold handleFailure.
  destruct (currentStepPred w) as [p|] eqn:Hp; [|done].
  apply (strongInv_advance w _ Hinv); [|by left]. simpl.
  apply modify_first_Forall2; [apply advance_refl|].
  intros s Hs. rewrite <- (currentStep_pred w p Hp) in Hs. split.
  - repeat split; try done. intros Hc. by apply Hnot in Hs.
  - intros [H|H]; simpl in H; done.
Qed.

Lemma strongInv_prepareReview w : strongInv w -> strongInv (prepareReview w).
Proof.
  apply strongInv_same_steps; [apply steps_prepareReview|].
  unfold prepareReview. destruct (Metadata.estimatedDuration _); [|done].
  by destruct (bool_decide _).
Qed.

Lemma strongInv_touch now to w : strongInv w -> strongInv (touch now to w).
Proof. by apply strongInv_same_steps. Qed.

Lemma currentNotCompleted_touch now to w :
  currentNotCompleted w -> currentNotCompleted (touch now to w).
Proof. done. Qed.

(** Every action of the table keeps the invariant. *)
Lemma strongInv_action now cm row act w :
  In row transitions -> action row = Some act ->
  (trigger row = Trigger.resume \/ trigger row = Trigger.fail -> currentNotCompleted w) ->
  strongInv w -> strongInv (fst (act now cm w)).
Proof.
  intros Hin Hact Hside Hinv. unfold transitions in Hin. simpl in Hin.
  repeat (destruct Hin as [<-|Hin]); try done;
    simpl in Hact; injection Hact as <-; simpl.
  - by apply strongInv_prepareWorkflow.
  - by apply strongInv_startNextStep.
  - by apply (strongInv_same_steps w).
  - by rewrite strongInv_pauseCurrentStep.
  - apply strongInv_resumeCurrentStep; [done|]. apply Hside. by left.
  - by apply (strongInv_same_steps w).
  - by apply strongInv_startNextStep.
  - by apply strongInv_prepareReview.
  - by apply (strongInv_same_steps w).
  - apply strongInv_handleFailure; [done|]. apply Hside. by right.
  - done.
Qed.

Lemma strongInv_fire now cm (valid : list WorkflowTransition) w :
  (forall row, In row valid -> In row transitions) ->
  (forall row, In row valid ->
     trigger row = Trigger.resume \/ trigger row = Trigger.fail -> currentNotCompleted w) ->
  strongInv w -> strongInv (fst (fire now cm valid w)).
Proof.
  intros Htable Hside Hinv. induction valid as [|row rest IH]; [done|].
  simpl. unfold bind at 1. unfold get at 1.
  destruct (match condition row with Some c => c w | None => true end).
  - unfold bind at 1. unfold modify at 1. fold (touch now (to row) w).
    assert (H1 : strongInv (touch now (to row) w)) by by apply strongInv_touch.
    destruct (action row) as [act|] eqn:Hact.
    + pose proof (strongInv_action now cm row act (touch now (to row) w)
                    (Htable row (or_introl eq_refl)) Hact
                    (Hside row (or_introl eq_refl)) H1) as H2.
      unfold bind. destruct (act now cm (touch now (to row) w)) as [w2 [err|[]]]; exact H2.
    + exact H1.
  - apply IH.
    + intros r Hr. apply Htable. by right.
    + intros r Hr. apply Hside. by right.
Qed.

Lemma validTransitions_spec w trg row :
  In row (validTransitions w trg) -> In row transitions /\ trigger row = trg.
Proof.
  unfold validTransitions. rewrite filter_In. intros [Hin Hb].
  apply andb_true_iff in Hb as [_ Hb]. split; [done|]. by apply bool_decide_eq_true in Hb.
Qed.

Lemma engineInv_store workflowId w e :
  engineInv e -> strongInv w -> engineInv (store workflowId w e).
Proof.
  intros He Hw k w'. unfold store. simpl. rewrite lookup_insert.
  case_decide; [by intros [= <-]|apply He].
Qed.

Lemma engineInv_transition now workflowId trg e :
  engineInv e ->
  (trg = Trigger.resume \/ trg = Trigger.fail ->
   forall w, workflows e !! workflowId = Some w -> currentNotCompleted w) ->
  engineInv (fst (transition now workflowId trg e)).
Proof.
  intros He Hside.
  destruct (workflows e !! workflowId) as [w|] eqn:Hw.
  - rewrite (transition_unfold _ _ _ _ _ Hw).
    pose proof (strongInv_fire now (contextManager e) (validTransitions w trg) w) as Hfire.
    destruct (validTransitions w trg) as [|row rest] eqn:Hv; [done|].
    destruct (fire now (contextManager e) (row :: rest) w) as [w' r]. simpl.
    apply engineInv_store; [done|]. apply Hfire.
    + intros r0 Hr0. rewrite <- Hv in Hr0. by apply validTransitions_spec in Hr0 as [? _].
    + intros r0 Hr0 Htrg. rewrite <- Hv in Hr0. apply validTransitions_spec in Hr0 as [_ Ht].
      rewrite Ht in Htrg. by apply Hside.
    + by apply He in Hw.
  - unfold transition, onWorkflow. by rewrite Hw.
Qed.

Lemma engineInv_executeStep now workflowId stepId sessionId e :
  engineInv e ->
  (forall w s, workflows e !! workflowId = Some w ->
               List.find (has_id stepId) (Workflow.steps w) = Some s ->
               WorkflowStep.status s <> StepStatus.completed) ->
  engineInv (fst (executeStep now workflowId stepId sessionId e)).
Proof.
  intros He Hside. unfold executeStep, onWorkflow.
  destruct (workflows e !! workflowId) as [w|] eqn:Hw; [|done].
  pose proof (He _ _ Hw) as Hinv. specialize (Hside w).
  unfold bind at 1. unfold get at 1.
  destruct (List.find (has_id stepId) (Workflow.steps w)) as [s|] eqn:Hfind;
    [|by apply engineInv_store].
  destruct (checkDependencies w s) eqn:Hcheck; [|by apply engineInv_store].
  unfold bind at 1. unfold modify at 1.
  set (running := fun s => WorkflowStep.set_startedAt (Some now)
                             (WorkflowStep.set_status StepStatus.running s)).
  change (negb true) with false. cbv beta iota.
  set (w1 := Workflow.set_currentStepId (Some stepId) _).
  assert (Hadv : Forall2 (advance (Workflow.steps w)) (Workflow.steps w) (Workflow.steps w1)).
  { simpl. apply modify_first_Forall2; [apply advance_refl|].
    intros s0 Hs0. rewrite Hfind in Hs0. injection Hs0 as <-. split.
    - repeat split; try done. intros Hc. by apply (Hside s eq_refl eq_refl) in Hc.
    - intros _. by right. }
  assert (H1 : strongInv w1).
  { apply (strongInv_advance w _ Hinv Hadv). right.
    intros s'. unfold currentStep, currentStepPred. simpl.
    destruct (JS.truthy stepId); [|done].
    rewrite (find_modify_first_same (has_id stepId) running _ s Hfind)
      by (by apply find_some in Hfind as [_ ?]).
    intros [= <-].
    apply (checkDependencies_mono w w1 s (running s)); [|done|exact Hcheck].
    eapply Forall2_impl; [exact Hadv|]. by intros ? ? [? _]. }
  assert (Hres : forall (m : M Workflow.t unit) w2,
            strongInv w2 ->
            (m = ret tt \/ exists sid, m = ContextManager.updateTaskContext (contextManager e) sid) ->
            engineInv (fst (let '(w', r) := m w2 in
                            (set_workflows (<[workflowId:=w']> (workflows e)) e, r)))).
  { intros m w2 H2 [->|[sid ->]]; simpl.
    - by apply engineInv_store.
    - unfold ContextManager.updateTaskContext.
      destruct (ContextManager.has _ _); by apply engineInv_store. }
  destruct sessionId as [sid|]; [|apply Hres; [done|by left]].
  destruct (JS.truthy sid); [|apply Hres; [done|by left]].
  unfold bind, modify. apply Hres; [|right; by eexists].
  by apply (strongInv_same_steps w1).
Qed.

Lemma strongInv_markCompleted now stepId outputs w :
  strongInv w ->
  strongInv (Workflow.set_steps
               (JS.modify_first (has_id stepId) (markCompleted now outputs) (Workflow.steps w))
               w).
Proof.
  intros Hinv. apply (strongInv_advance w _ Hinv); [|by left]. simpl.
  apply modify_first_Forall2; [apply advance_refl|].
  intros s _. split; [by repeat split|]. intros [H|H]; simpl in H; done.
Qed.

Lemma engineInv_completeStep now workflowId stepId outputs artifacts e :
  engineInv e ->
  engineInv (fst (completeStep now workflowId stepId outputs artifacts e)).
Proof.
  intros He.
  destruct (workflows e !! workflowId) as [w|] eqn:Hw; cycle 1.
  { destruct (completeStep_unknown now workflowId stepId outputs artifacts e) as (? & ->);
      [by rewrite Hw|done]. }
  destruct (List.find (has_id stepId) (Workflow.steps w)) as [step|] eqn:Hfind; cycle 1.
  { destruct (completeStep_unknown now workflowId stepId outputs artifacts e) as (? & ->);
      [by rewrite Hw|done]. }
  pose proof (strongInv_markCompleted now stepId outputs w (He _ _ Hw)) as H0.
  assert (H1 : strongInv (completed now stepId outputs w)).
  { revert H0. by apply strongInv_same_steps. }
  destruct (completeStep_unfold now workflowId stepId outputs artifacts e w step Hw Hfind)
    as [-> | (err & -> & _)]; [|by apply engineInv_store].
  destruct (allStepsComplete _).
  - destruct (bool_decide _); simpl; apply engineInv_store; try done.
    by apply strongInv_prepareReview, strongInv_touch.
  - simpl. apply engineInv_store; [done|]. by apply strongInv_startNextStep.
Qed.

Lemma imap_pending (f : nat -> string) (l : list TemplateStep.t) (s : WorkflowStep.t) :
  In s (imap (fun i step => instantiate (f i) step) l) ->
  WorkflowStep.status s = StepStatus.pending.
Proof.
  revert f. induction l as [|x l IH]; intros f; [done|].
  simpl. intros [<-|Hin]; [done|]. by apply (IH (f ∘ S)).
Qed.

Lemma engineInv_createWorkflow now uuid params e :
  engineInv e ->
  (templateFor e params = None -> stepsSatisfied (default [] (p_customSteps params))) ->
  engineInv (fst (createWorkflow now uuid params e)).
Proof.
  intros He Hside. unfold createWorkflow. simpl.
  apply (engineInv_store (uuid 0%nat) _ e He). split.
  - intros s Hin Hact. simpl in Hin.
    destruct (templateFor e params) as [template|].
    + apply (imap_pending (fun i => uuid (S i))) in Hin.
      destruct Hact as [H|H]; rewrite Hin in H; done.
    + by apply (Hside eq_refl).
  - done.
Qed.

Lemma engineInv_new cm : engineInv (new cm).
Proof. intros k w. unfold new. simpl. by rewrite lookup_empty. Qed.

(** C1, as amended. In every engine that the public operations build,
    as long as no completed step is taken out of that status again, every
    step of every workflow that is ready or running has all its
    dependencies completed, a dependency being looked up as
    [checkDependencies] does it, in one pass: it is the first step of the
    workflow whose name or whose id is the dependency. *)
Theorem reachable_depsSatisfied (e : WorkflowEngine.t) (workflowId : string) (w : Workflow.t) :
  reachable e ->
  workflows e !! workflowId = Some w ->
  forall s depId,
    In s (Workflow.steps w) ->
    WorkflowStep.status s = StepStatus.ready \/ WorkflowStep.status s = StepStatus.running ->
    In depId (WorkflowStep.dependencies s) ->
    exists depStep, List.find (refers depId) (Workflow.steps w) = Some depStep /\
                    WorkflowStep.status depStep = StepStatus.completed.
Proof.
  intros Hreach Hw.
  enough (depsSatisfied w) as Hdeps.
  { intros s depId Hs Hactive Hdep. specialize (Hdeps s Hs Hactive).
    unfold checkDependencies in Hdeps. rewrite forallb_forall in Hdeps.
    specialize (Hdeps depId Hdep). unfold dependencyCompleted in Hdeps.
    destruct (List.find (refers depId) (Workflow.steps w)) as [depStep|]; [|discriminate Hdeps].
    exists depStep. split; [reflexivity|]. by apply has_status_true. }
  enough (engineInv e) as He by by apply (He _ _ Hw).
  clear workflowId w Hw.
  induction Hreach as [cm | e now uuid params _ IH Hside | e now workflowId trg _ IH Hside
                       | e now workflowId stepId sessionId _ IH Hside
                       | e now workflowId stepId outputs artifacts _ IH].
  - apply engineInv_new.
  - by apply engineInv_createWorkflow.
  - by apply engineInv_transition.
  - by apply engineInv_executeStep.
  - by apply engineInv_completeStep.
Qed.

(** *** The theorems at concrete runs *)

(** C1, counterexample. A workflow from the feature-development template
    is started, its first step is executed and completed, and the workflow
    is paused and resumed, every call returning normally: "Technical
    Design" is then ready while its dependency "Requirements Analysis" is
    running again. *)
Lemma resume_leaves_ready_step_unsatisfied :
  succeeded Scenario.r2 = true /\ succeeded Scenario.r3 = true /\
  succeeded Scenario.r4 = true /\ succeeded Scenario.r5 = true /\
  succeeded Scenario.r6 = true /\
  exists w s, workflows Scenario.e6 !! "w" = Some w /\ In s (Workflow.steps w) /\
    WorkflowStep.name s = "Technical Design" /\
    WorkflowStep.status s = StepStatus.ready /\
    checkDependencies w s = false.
Proof.
  repeat (split; [vm_compute; reflexivity|]).
  destruct (workflows Scenario.e6 !! "w") as [w|] eqn:Hw; [|vm_compute in Hw; discriminate].
  exists w. vm_compute in Hw. injection Hw as <-.
  eexists. split; [reflexivity|]. split; [right; left; reflexivity|].
  repeat split; vm_compute; reflexivity.
Qed.

(** The lookup of a dependency is one pass over the steps, name or id:
    it is not the names first and the ids after. In the run [n4], within
    the operations that are taken, step "B" depends on "A" and is
    running, its dependency being completed as [checkDependencies] looks
    it up, in the step of id "A"; the step of name "A" is only ready. *)
Lemma dependency_is_not_looked_up_by_name_first :
  reachable Scenario.n4 /\
  exists w b, workflows Scenario.n4 !! "n" = Some w /\ In b (Workflow.steps w) /\
    WorkflowStep.name b = "B" /\ WorkflowStep.dependencies b = ["A"] /\
    WorkflowStep.status b = StepStatus.running /\
    checkDependencies w b = true /\
    forallb (dependencyCompletedNameFirst (Workflow.steps w)) (WorkflowStep.dependencies b)
      = false /\
    (fun s => (WorkflowStep.id s, WorkflowStep.status s))
      <$> List.find (fun s => bool_decide (WorkflowStep.name s = "A")) (Workflow.steps w)
      = Some ("a", StepStatus.ready).
Proof.
  split.
  - apply reach_executeStep.
    + apply reach_completeStep, reach_executeStep.
      * apply reach_transition; [|intros [H|H]; discriminate H].
        apply reach_createWorkflow; [apply reach_new|].
        intros _ s Hs [H|H]; vm_compute in Hs;
          destruct Hs as [<-|[<-|[<-|[]]]]; discriminate H.
      * intros w s Hw Hs. vm_compute in Hw. injection Hw as <-.
        vm_compute in Hs. injection Hs as <-. intros H. discriminate H.
    + intros w s Hw Hs. vm_compute in Hw. injection Hw as <-.
      vm_compute in Hs. injection Hs as <-. intros H. discriminate H.
  - destruct (workflows Scenario.n4 !! "n") as [w|] eqn:Hw;
      [|vm_compute in Hw; discriminate Hw].
    exists w. vm_compute in Hw. injection Hw as <-.
    eexists. split; [reflexivity|]. split; [right; right; left; reflexivity|].
    do 5 (split; [vm_compute; reflexivity|]). vm_compute. reflexivity.
Qed.

(** The run [e4] is within the operations that are taken. *)
Lemma reachable_e4 : reachable Scenario.e4.
Proof.
  apply reach_completeStep, reach_executeStep.
  - apply reach_transition; [|intros [H|H]; discriminate].
    apply reach_createWorkflow; [apply reach_new|].
    intros H. vm_compute in H. discriminate.
  - intros w s Hw Hfind. vm_compute in Hw. injection Hw as <-.
    vm_compute in Hfind. injection Hfind as <-. discriminate.
Defined.

(** The theorem at the run [e4]: a step completed and the next one ready. *)
Lemma reachable_depsSatisfied_witness :
  exists w, workflows Scenario.e4 !! "w" = Some w /\
    forall s depId,
      In s (Workflow.steps w) ->
      WorkflowStep.status s = StepStatus.ready \/ WorkflowStep.status s = StepStatus.running ->
      In depId (WorkflowStep.dependencies s) ->
      exists depStep, List.find (refers depId) (Workflow.steps w) = Some depStep /\
                      WorkflowStep.status depStep = StepStatus.completed.
Proof.
  destruct (workflows Scenario.e4 !! "w") as [w|] eqn:Hw;
    [|vm_compute in Hw; discriminate Hw].
  exists w. split; [reflexivity|].
  exact (reachable_depsSatisfied Scenario.e4 "w" w reachable_e4 Hw).
Defined.

(** C2, counterexample. On a workflow fresh from the feature-development
    template the first [start] already leaves the workflow running, and the
    second [start] is an invalid transition. *)
Lemma second_start_is_invalid :
  succeeded Scenario.r2 = true /\
  Workflow.state <$> workflows Scenario.e2 !! "w" = Some WorkflowState.running /\
  snd (transition 2 "w" Trigger.start Scenario.e2) = inl InvalidTransition.
Proof. repeat split; vm_compute; reflexivity. Qed.

(** The theorem at the run [e2]. *)
Lemma feature_development_single_start_witness :
  exists w1, workflows Scenario.e2 !! "w" = Some w1 /\
             Workflow.state w1 = WorkflowState.running /\
             map (fun s => (WorkflowStep.name s, WorkflowStep.status s)) (activeSteps w1) =
               [("Requirements Analysis", StepStatus.ready)] /\
             snd (transition 2 "w" Trigger.start Scenario.e2) = inl InvalidTransition.
Proof.
  destruct (feature_development_single_start Scenario.e0 Scenario.featureParams Scenario.uuid
              0 1 2 eq_refl eq_refl) as (w1 & _ & Hw1 & Hstate & _ & Hactive & Hr2).
  exists w1. split; [exact Hw1|]. split; [exact Hstate|]. split; [exact Hactive|].
  exact (f_equal snd Hr2).
Defined.

(** The theorem at a draft workflow, paused, and at a draft workflow
    without steps, started. *)
Lemma transition_failure_leaves_workflow_witness :
  transition 1 "w" Trigger.pause Scenario.e1 = (Scenario.e1, inl InvalidTransition) /\
  transition 1 "empty" Trigger.start Scenario.empty = (Scenario.empty, inl GuardNotMet).
Proof.
  split.
  - destruct (workflows Scenario.e1 !! "w") as [w|] eqn:Hw; [|vm_compute in Hw; discriminate].
    apply (proj1 (transition_failure_leaves_workflow Scenario.e1 1 "w" Trigger.pause w Hw)).
    vm_compute in Hw. injection Hw as <-. reflexivity.
  - destruct (workflows Scenario.empty !! "empty") as [w|] eqn:Hw;
      [|vm_compute in Hw; discriminate].
    assert (Hsteps : Workflow.state w = WorkflowState.draft /\ Workflow.steps w = []).
    { vm_compute in Hw. injection Hw as <-. by split. }
    destruct Hsteps as [Hstate Hsteps].
    eapply (proj2 (transition_failure_leaves_workflow Scenario.empty 1 "empty" Trigger.start
                     w Hw)).
    + unfold validTransitions. rewrite Hstate. left. reflexivity.
    + reflexivity.
    + unfold validateWorkflow. by rewrite Hsteps.
Defined.

(** The rounding of the doubles shows in the progress. Of forty steps,
    twenty-two are completed and [completeStep] returns normally on one
    more. The quotient 23 / 40 times 100 is the double
    57.49999999999999, and the progress is 57; in exact arithmetic the
    product is 57.5, which a half going up takes to 58. *)
Lemma progress_rounds_the_double :
  snd Scenario.r23 = inr tt /\
  (fun w => (Metrics.stepsCompleted (Workflow.metrics w),
             Metrics.stepsTotal (Workflow.metrics w),
             Metrics.progressPercentage (Workflow.metrics w)))
    <$> workflows Scenario.long23 !! "long" = Some (23, 40, 57) /\
  JS.mul (JS.div 23 40) 100 = (8092405580431359 # 140737488355328)%Q /\
  JS.Math_round (23 / 40 * 100)%Q = 58.
Proof. do 3 (split; [vm_compute; reflexivity|]). vm_compute. reflexivity. Qed.

(** The theorem at the run [long23]: twenty-three steps of forty
    completed give 57. *)
Lemma completeStep_progress_witness :
  exists w', workflows Scenario.long23 !! "long" = Some w' /\
             Metrics.progressPercentage (Workflow.metrics w') = 57.
Proof.
  assert (Hrun : completeStep 2 "long" (Scenario.label 23) None None Scenario.long22
                 = (Scenario.long23, inr tt)).
  { unfold Scenario.long23, Scenario.r23.
    destruct (completeStep 2 "long" (Scenario.label 23) None None Scenario.long22)
      as [e' r] eqn:Hr.
    assert (Hsnd : snd (completeStep 2 "long" (Scenario.label 23) None None Scenario.long22)
                   = inr tt) by (vm_compute; reflexivity).
    rewrite Hr in Hsnd. simpl in Hsnd. by rewrite Hsnd. }
  destruct (completeStep_progress _ _ _ _ _ _ _ Hrun) as (w' & Hw' & Hprogress).
  exists w'. split; [exact Hw'|].
  assert (Hcount : Metrics.stepsCompleted (Workflow.metrics w') = 23 /\
                   Metrics.stepsTotal (Workflow.metrics w') = 40).
  { assert (H : (fun w => (Metrics.stepsCompleted (Workflow.metrics w),
                           Metrics.stepsTotal (Workflow.metrics w)))
                  <$> workflows Scenario.long23 !! "long" = Some (23, 40))
      by (vm_compute; reflexivity).
    rewrite Hw' in H. simpl in H. injection H as H1 H2. split; assumption. }
  destruct Hcount as [Hc Ht]. cbv zeta in Hprogress. rewrite Hc, Ht in Hprogress.
  destruct Hprogress as [-> _]; [lia|]. vm_compute. reflexivity.
Defined.

(** C10, counterexample. [completeStep] on the only step of a draft
    workflow, a step never started: the step is marked and counted, and the
    call throws, as the review it asks for is not a transition of a draft. *)
Lemma completeStep_can_throw :
  is_Some (workflows Scenario.solo !! "solo" ≫= fun w =>
           List.find (has_id "only") (Workflow.steps w)) /\
  snd (completeStep 1 "solo" "only" None None Scenario.solo) = inl InvalidTransition.
Proof. split; [vm_compute; by eexists|vm_compute; reflexivity]. Qed.

(** The theorem at the run [duo2]: a third completion of the same step of
    a workflow of two steps gives a count of 3 and a progress of 150. *)
Lemma completeStep_unchecked_witness :
  exists w', workflows (fst (completeStep 3 "duo" "a" None None Scenario.duo2)) !! "duo" = Some w' /\
             Metrics.stepsCompleted (Workflow.metrics w') = 3 /\
             Metrics.progressPercentage (Workflow.metrics w') = 150.
Proof.
  destruct (workflows Scenario.duo2 !! "duo") as [w|] eqn:Hw; [|vm_compute in Hw; discriminate].
  destruct (List.find (has_id "a") (Workflow.steps w)) as [step|] eqn:Hfind;
    [|vm_compute in Hw; injection Hw as <-; vm_compute in Hfind; discriminate].
  destruct (completeStep_unchecked Scenario.duo2 3 "duo" "a" None w step Hw Hfind)
    as (w' & step' & Hw' & _ & _ & Hcount & Hprogress & _).
  exists w'. split; [exact Hw'|].
  vm_compute in Hw. injection Hw as <-.
  split; [exact Hcount|]. rewrite Hprogress. vm_compute. reflexivity.
Defined.

End WorkflowEngineProofs.

(** ** The agent orchestrator: proofs *)

Module AgentOrchestratorProofs.
Import Facts AgentOrchestrator.

Lemma is_agent_true agentId a : is_agent agentId a = true <-> Agent.id a = agentId.
Proof. unfold is_agent. apply bool_decide_eq_true. Qed.

Lemma is_agent_false agentId a : is_agent agentId a = false <-> Agent.id a <> agentId.
Proof. unfold is_agent. apply bool_decide_eq_false. Qed.

(** *** [registerAgent] *)

Lemma setAgent_find a l : List.find (is_agent (Agent.id a)) (setAgent a l) = Some a.
Proof.
  unfold setAgent. destruct (existsb _ l) eqn:Hex.
  - apply existsb_exists in Hex as (x & Hx & Hid).
    destruct (List.find (is_agent (Agent.id a)) l) as [y|] eqn:Hfind.
    + apply (find_modify_first_same _ (fun _ => a) _ _ Hfind). by apply is_agent_true.
    + by rewrite (find_none _ _ Hfind x Hx) in Hid.
  - induction l as [|y l IH]; simpl in *.
    + by rewrite (proj2 (is_agent_true _ _) eq_refl).
    + apply orb_false_iff in Hex as [-> Hex]. by apply IH.
Qed.

Lemma setAgent_known a l : existsb (is_agent (Agent.id a)) (setAgent a l) = true.
Proof.
  apply existsb_exists. pose proof (setAgent_find a l) as H.
  apply find_some in H. by exists a.
Qed.

Lemma modify_first_replace_same a l :
  List.find (is_agent (Agent.id a)) l = Some a ->
  JS.modify_first (is_agent (Agent.id a)) (fun _ => a) l = l.
Proof.
  induction l as [|y l IH]; [done|]. simpl.
  destruct (is_agent (Agent.id a) y); [by intros [= ->]|].
  intros H. by rewrite IH.
Qed.

Lemma setAgent_idempotent a l : setAgent a (setAgent a l) = setAgent a l.
Proof.
  unfold setAgent at 1. rewrite setAgent_known.
  apply modify_first_replace_same, setAgent_find.
Qed.

(** C9, as amended. [registerAgent] is an upsert by id on the registry:
    the record is stored as it is given, a known id keeps its place among
    the agents, and registering the same agent again changes nothing in
    the registry. The id is appended to the round-robin queue at every
    call, known or not. *)
Theorem registerAgent_upsert (agent : Agent.t) (o : t) :
  getAgent (Agent.id agent) (registerAgent agent o) = Some agent /\
  agents (registerAgent agent (registerAgent agent o)) = agents (registerAgent agent o) /\
  (is_Some (getAgent (Agent.id agent) o) ->
   map Agent.id (agents (registerAgent agent o)) = map Agent.id (agents o)) /\
  agentQueue (registerAgent agent o) = agentQueue o ++ [Agent.id agent].
Proof.
  split; [|split; [|split]].
  - apply setAgent_find.
  - apply setAgent_idempotent.
  - intros [b Hb]. unfold registerAgent, setAgent. simpl.
    assert (Hex : existsb (is_agent (Agent.id agent)) (agents o) = true).
    { apply existsb_exists. apply find_some in Hb. by exists b. }
    rewrite Hex. clear Hex Hb.
    induction (agents o) as [|y l IH]; [done|]. simpl.
    destruct (is_agent (Agent.id agent) y) eqn:Hy; simpl.
    + apply is_agent_true in Hy. by rewrite Hy.
    + by rewrite IH.
  - reflexivity.
Qed.

(** *** Selection of the least loaded agent *)

Lemma least_fold_In (rest : list Agent.t) (first : Agent.t) :
  let pick := fun least agent : Agent.t =>
                if JS.Qltb (Agent.currentLoad agent) (Agent.currentLoad least)
                then agent else least in
  In (fold_left pick rest first) (first :: rest).
Proof.
  intros pick. revert first. induction rest as [|a rest IH]; intros first; [by left|].
  simpl fold_left.
  assert (Hpick : pick first a = first \/ pick first a = a).
  { unfold pick. destruct (JS.Qltb _ _); auto. }
  destruct (IH (pick first a)) as [H|H].
  - rewrite <- H. destruct Hpick as [->| ->]; [by left|right; by left].
  - right. by right.
Qed.

Lemma selectLeastLoaded_In (candidates : list Agent.t) (a : Agent.t) :
  selectLeastLoaded candidates = Some a -> In a candidates.
Proof.
  destruct candidates as [|first rest]; [done|]. simpl. intros [= <-].
  apply least_fold_In.
Qed.

Lemma selectLeastLoaded_None (candidates : list Agent.t) :
  selectLeastLoaded candidates = None <-> candidates = [].
Proof. destruct candidates; simpl; split; congruence. Qed.

Lemma Qltb_false (x y : Q) : JS.Qltb x y = false -> (y <= x)%Q.
Proof. unfold JS.Qltb. intros H. apply negb_false_iff in H. by apply Qle_bool_iff. Qed.

Lemma Qltb_true (x y : Q) : JS.Qltb x y = true -> (x < y)%Q.
Proof.
  unfold JS.Qltb. intros H. apply negb_true_iff in H. apply Qnot_le_lt.
  intros Hle. apply Qle_bool_iff in Hle. congruence.
Qed.

Lemma least_fold_min (rest : list Agent.t) (first : Agent.t) :
  let pick := fun least agent : Agent.t =>
                if JS.Qltb (Agent.currentLoad agent) (Agent.currentLoad least)
                then agent else least in
  forall b, In b (first :: rest) ->
            (Agent.currentLoad (fold_left pick rest first) <= Agent.currentLoad b)%Q.
Proof.
  intros pick. revert first. induction rest as [|x rest IH]; intros first b Hb.
  - destruct Hb as [<-|[]]. apply Qle_refl.
  - simpl. assert (Hstep : (Agent.currentLoad (pick first x) <= Agent.currentLoad first)%Q /\
                           (Agent.currentLoad (pick first x) <= Agent.currentLoad x)%Q).
    { unfold pick. destruct (JS.Qltb _ _) eqn:Hlt.
      - apply Qltb_true in Hlt. split; [by apply Qlt_le_weak|apply Qle_refl].
      - apply Qltb_false in Hlt. split; [apply Qle_refl|done]. }
    destruct Hb as [<-|[<-|Hb]].
    + eapply Qle_trans; [apply IH; by left|apply Hstep].
    + eapply Qle_trans; [apply IH; by left|apply Hstep].
    + apply IH. by right.
Qed.

Lemma selectLeastLoaded_min (candidates : list Agent.t) (a : Agent.t) :
  selectLeastLoaded candidates = Some a ->
  forall b, In b candidates -> (Agent.currentLoad a <= Agent.currentLoad b)%Q.
Proof.
  destruct candidates as [|first rest]; [done|]. simpl. intros [= <-] b Hb.
  by apply least_fold_min.
Qed.

(** *** [failTask] and [reassignTask] *)

Lemma reassignable_spec previousAgentId a :
  reassignable previousAgentId a = true <->
  Agent.id a <> previousAgentId /\ eligible a = true.
Proof.
  unfold reassignable. rewrite andb_true_iff, negb_true_iff, is_agent_false. done.
Qed.

(** The outcome of [reassignTask] for the task it is called on. *)
Lemma reassignTask_outcome taskId (o : t) (asg : TaskAssignment.t) :
  assignments o !! taskId = Some asg ->
  let candidates := List.filter (reassignable (TaskAssignment.agentId asg)) (agents o) in
  match selectLeastLoaded candidates with
  | Some newAgent =>
      In newAgent (agents o) /\ eligible newAgent = true /\
      Agent.id newAgent <> TaskAssignment.agentId asg /\
      assignments (reassignTask taskId o) !! taskId =
        Some (TaskAssignment.set_status AssignmentStatus.reassigned
                (TaskAssignment.set_agentId (Agent.id newAgent) asg)) /\
      agents (reassignTask taskId o) =
        JS.modify_first (is_agent (Agent.id newAgent)) (pushTask taskId) (agents o)
  | None =>
      candidates = [] /\
      assignments (reassignTask taskId o) !! taskId =
        Some (TaskAssignment.set_status AssignmentStatus.failed asg) /\
      agents (reassignTask taskId o) = agents o
  end.
Proof.
  intros Hasg candidates. unfold reassignTask. rewrite Hasg. fold candidates.
  destruct (selectLeastLoaded candidates) as [newAgent|] eqn:Hsel.
  - apply selectLeastLoaded_In in Hsel. unfold candidates in Hsel.
    apply filter_In in Hsel as [Hin Hre]. apply reassignable_spec in Hre as [Hne Hel].
    repeat split; try done.
    unfold alterAgent, alterAssignment. simpl. by rewrite lookup_alter_eq, Hasg.
  - apply selectLeastLoaded_None in Hsel. repeat split; try done.
    unfold alterAssignment. simpl. by rewrite lookup_alter_eq, Hasg.
Qed.

Lemma reassignTask_other taskId taskId' (o : t) :
  taskId <> taskId' ->
  assignments (reassignTask taskId o) !! taskId' = assignments o !! taskId'.
Proof.
  intros Hne. unfold reassignTask.
  destruct (assignments o !! taskId) as [asg|]; [|done].
  destruct (selectLeastLoaded _); unfold alterAgent, alterAssignment; simpl;
    by rewrite lookup_alter_ne.
Qed.

Lemma candidates_after_failure taskId previousAgentId (l : list Agent.t) :
  List.filter (reassignable previousAgentId)
              (JS.modify_first (is_agent previousAgentId) (failAgentTask taskId) l) =
  List.filter (reassignable previousAgentId) l.
Proof.
  apply filter_modify_first. intros y Hy. unfold reassignable.
  assert (Hy' : is_agent previousAgentId (failAgentTask taskId y) = true) by exact Hy.
  by rewrite Hy, Hy'.
Qed.

(** C5, as amended. [failTask(taskId, error, retry = true)] on an existing
    assignment counts the failure first and compares the new count with 3:
    when [retryCount] before the call is less than 2 the task is
    reassigned, to an eligible agent other than the one that failed if
    there is one, and is marked failed if there is none; from 2 on the
    assignment is marked failed, stays with its agent and no agent is
    given the task. *)
Theorem failTask_retry_bound (o : t) (now : JS.Time) (taskId err : string)
  (asg : TaskAssignment.t) :
  assignments o !! taskId = Some asg ->
  let r := failTask now taskId err true o in
  let previous := TaskAssignment.agentId asg in
  snd r = inr tt /\
  exists asg', assignments (fst r) !! taskId = Some asg' /\
    TaskAssignment.retryCount asg' = TaskAssignment.retryCount asg + 1 /\
    (TaskAssignment.retryCount asg < 2 ->
       ((exists b, In b (agents o) /\ Agent.id b <> previous /\ eligible b = true) ->
        TaskAssignment.status asg' = AssignmentStatus.reassigned /\
        exists newAgent, In newAgent (agents o) /\ eligible newAgent = true /\
                         Agent.id newAgent <> previous /\
                         TaskAssignment.agentId asg' = Agent.id newAgent) /\
       ((forall b, In b (agents o) -> Agent.id b <> previous -> eligible b = false) ->
        TaskAssignment.status asg' = AssignmentStatus.failed /\
        TaskAssignment.agentId asg' = previous)) /\
    (2 <= TaskAssignment.retryCount asg ->
       TaskAssignment.status asg' = AssignmentStatus.failed /\
       TaskAssignment.agentId asg' = previous /\
       agents (fst r) = agents (alterAgent previous (failAgentTask taskId) o)).
Proof.
  intros Hasg r previous. subst r. unfold failTask, bind, get. rewrite Hasg.
  unfold modify. fold previous.
  set (o1 := alterAgent previous (failAgentTask taskId) o).
  set (count := fun a => TaskAssignment.set_retryCount (TaskAssignment.retryCount asg + 1)
                           (TaskAssignment.set_error (Some err) a)).
  set (o2 := alterAssignment taskId count o1).
  assert (Hasg2 : assignments o2 !! taskId = Some (count asg)).
  { unfold o2, alterAssignment. simpl. by rewrite lookup_alter_eq, Hasg. }
  simpl andb. case_bool_decide as Hlt.
  - simpl. split; [done|].
    pose proof (reassignTask_outcome taskId o2 (count asg) Hasg2) as Hout.
    simpl in Hout. fold previous in Hout.
    change (agents o2) with (JS.modify_first (is_agent previous) (failAgentTask taskId) (agents o))
      in Hout.
    rewrite candidates_after_failure in Hout.
    destruct (selectLeastLoaded (List.filter (reassignable previous) (agents o)))
      as [newAgent|] eqn:Hsel.
    + destruct Hout as (_ & _ & _ & Hlook & _).
      apply selectLeastLoaded_In, filter_In in Hsel as [Hin Hre].
      apply reassignable_spec in Hre as [Hne Hel].
      eexists. split; [exact Hlook|]. split; [done|]. split; [|lia].
      intros _. split.
      * intros _. split; [done|]. by exists newAgent.
      * intros Hnone. rewrite (Hnone newAgent Hin Hne) in Hel. done.
    + destruct Hout as (Hnil & Hlook & _).
      eexists. split; [exact Hlook|]. split; [done|]. split; [|lia].
      intros _. split; [|done].
      intros (b & Hb & Hne & Hel).
      assert (Hin : In b (List.filter (reassignable previous) (agents o))).
      { apply filter_In. split; [done|]. by apply reassignable_spec. }
      rewrite Hnil in Hin. done.
  - simpl. split; [done|].
    eexists. split.
    { unfold alterAssignment. simpl. rewrite lookup_alter_eq.
      change (alter count taskId (assignments o) !! taskId) with (assignments o2 !! taskId).
      rewrite Hasg2. reflexivity. }
    split; [done|]. split; [lia|]. intros _. done.
Qed.

(** *** [updateAgentStatus] and the pass over the tasks of an agent *)

Lemma getAgent_alter_same agentId f (o : t) :
  (forall a, Agent.id (f a) = Agent.id a) ->
  getAgent agentId (alterAgent agentId f o) = f <$> getAgent agentId o.
Proof.
  intros Hf. unfold getAgent, alterAgent. simpl.
  destruct (List.find (is_agent agentId) (agents o)) as [a|] eqn:Hfind; simpl.
  - apply find_modify_first_same; [done|].
    apply find_some in Hfind as [_ H]. unfold is_agent in *. by rewrite Hf.
  - rewrite modify_first_none; [done|].
    destruct (existsb _ _) eqn:Hex; [|done].
    apply existsb_exists in Hex as (x & Hx & Hp). by rewrite (find_none _ _ Hfind x Hx) in Hp.
Qed.

Lemma getAgent_alter_other agentId agentId' f (o : t) :
  (forall a, Agent.id (f a) = Agent.id a) ->
  agentId <> agentId' ->
  getAgent agentId' (alterAgent agentId f o) = getAgent agentId' o.
Proof.
  intros Hf Hne. unfold getAgent, alterAgent. simpl.
  apply find_modify_first_other.
  - intros y. unfold is_agent. by rewrite Hf.
  - intros y Hy. apply is_agent_true in Hy. apply is_agent_false. congruence.
Qed.

Lemma distinctIds_alter agentId f (o : t) :
  (forall a, Agent.id (f a) = Agent.id a) ->
  distinctIds o -> distinctIds (alterAgent agentId f o).
Proof.
  intros Hf. unfold distinctIds, alterAgent. simpl. by rewrite map_modify_first.
Qed.

Lemma find_unique (l : list Agent.t) agentId (a b : Agent.t) :
  NoDup (map Agent.id l) ->
  List.find (is_agent agentId) l = Some a -> In b l -> Agent.id b = agentId -> b = a.
Proof.
  induction l as [|y l IH]; [done|]. simpl. intros Hnd Hfind Hin Hid.
  apply NoDup_cons in Hnd as [Hy Hnd].
  destruct (is_agent agentId y) eqn:Hp.
  - injection Hfind as <-. destruct Hin as [->|Hin]; [done|].
    apply is_agent_true in Hp. exfalso. apply Hy.
    apply list_elem_of_In, in_map_iff. exists b. split; [congruence|done].
  - destruct Hin as [->|Hin]; [|by apply IH].
    apply is_agent_false in Hp. done.
Qed.

Lemma getAgent_In (o : t) (a : Agent.t) :
  distinctIds o -> In a (agents o) -> getAgent (Agent.id a) o = Some a.
Proof.
  intros Hnd Hin. unfold getAgent.
  destruct (List.find (is_agent (Agent.id a)) (agents o)) as [b|] eqn:Hfind.
  - f_equal. symmetry. by apply (find_unique (agents o) (Agent.id a) b a).
  - apply (find_none _ _ Hfind) in Hin. by apply is_agent_false in Hin.
Qed.

Lemma eligible_available a : eligible a = true -> Agent.status a = AgentStatus.available.
Proof.
  unfold eligible. intros H. apply andb_true_iff in H as [H _].
  by apply bool_decide_eq_true in H.
Qed.

Lemma pushTask_id taskId a : Agent.id (pushTask taskId a) = Agent.id a.
Proof. done. Qed.

Lemma downAt_not_chosen agentId a (o : t) (b : Agent.t) :
  downAt agentId a o -> In b (agents o) -> eligible b = true -> Agent.id b <> agentId.
Proof.
  intros (Hnd & Hget & Hst) Hin Hel Hid.
  rewrite (find_unique _ _ _ _ Hnd Hget Hin Hid) in Hel.
  by apply eligible_available in Hel.
Qed.

Lemma reassignTask_downAt agentId a taskId (o : t) :
  downAt agentId a o -> downAt agentId a (reassignTask taskId o).
Proof.
  intros Hdown. pose proof Hdown as (Hnd & Hget & Hst).
  destruct (assignments o !! taskId) as [asg|] eqn:Hasg; cycle 1.
  { unfold reassignTask. by rewrite Hasg. }
  pose proof (reassignTask_outcome taskId o asg Hasg) as Hout. simpl in Hout.
  unfold reassignTask. rewrite Hasg.
  destruct (selectLeastLoaded _) as [newAgent|].
  - destruct Hout as (Hin & Hel & _).
    pose proof (downAt_not_chosen _ _ _ _ Hdown Hin Hel) as Hne.
    split; [|split; [|done]].
    + by apply distinctIds_alter.
    + rewrite getAgent_alter_other; done.
  - done.
Qed.

Lemma reassignTask_dealtWith agentId a taskId (o : t) (asg : TaskAssignment.t) :
  downAt agentId a o -> assignments o !! taskId = Some asg ->
  exists asg', assignments (reassignTask taskId o) !! taskId = Some asg' /\
               dealtWith agentId asg'.
Proof.
  intros Hdown Hasg.
  pose proof (reassignTask_outcome taskId o asg Hasg) as Hout. simpl in Hout.
  destruct (selectLeastLoaded _) as [newAgent|].
  - destruct Hout as (Hin & Hel & _ & Hlook & _).
    eexists. split; [exact Hlook|]. left. split; [done|]. simpl.
    by apply (downAt_not_chosen _ _ _ _ Hdown Hin Hel).
  - destruct Hout as (_ & Hlook & _). eexists. split; [exact Hlook|]. by right.
Qed.

Lemma settleTasks_assignment agentId a (tasks : list string) (o : t)
  taskId (asg : TaskAssignment.t) :
  downAt agentId a o -> assignments o !! taskId = Some asg ->
  exists asg', assignments (settleTasks agentId tasks o) !! taskId = Some asg' /\
               (In taskId tasks \/ dealtWith agentId asg -> dealtWith agentId asg') /\
               (~ In taskId tasks -> asg' = asg).
Proof.
  revert o asg. induction tasks as [|t rest IH]; intros o asg Hdown Hasg.
  - simpl. exists asg. split; [done|]. split; [|done]. by intros [[]|H].
  - simpl. pose proof (reassignTask_downAt agentId a t o Hdown) as Hdown'.
    destruct (decide (t = taskId)) as [->|Hne].
    + destruct (reassignTask_dealtWith agentId a taskId o asg Hdown Hasg)
        as (asg1 & Hasg1 & Hgood1).
      destruct (IH _ asg1 Hdown' Hasg1) as (asg' & Hasg' & Hgood & _).
      exists asg'. split; [done|]. split; [intros _; apply Hgood; by right|].
      intros Hnot. exfalso. apply Hnot. by left.
    + assert (Hasg1 : assignments (reassignTask t o) !! taskId = Some asg)
        by by rewrite reassignTask_other.
      destruct (IH _ asg Hdown' Hasg1) as (asg' & Hasg' & Hgood & Hsame).
      exists asg'. split; [done|]. split.
      * intros [[Heq|Hin]|Hg]; [done|apply Hgood; by left|apply Hgood; by right].
      * intros Hnot. apply Hsame. intros Hin. apply Hnot. by right.
Qed.

Lemma settleTasks_agent agentId a (tasks : list string) (o : t) :
  downAt agentId a o ->
  getAgent agentId (settleTasks agentId tasks o) = Some (clearTasks a).
Proof.
  revert o. induction tasks as [|t rest IH]; intros o Hdown.
  - simpl. destruct Hdown as (_ & Hget & _). by rewrite getAgent_alter_same, Hget.
  - simpl. apply IH. by apply reassignTask_downAt.
Qed.

Lemma settle_updateAgentStatus agentId status (o : t) (a : Agent.t) :
  getAgent agentId o = Some a ->
  status = AgentStatus.offline \/ status = AgentStatus.error ->
  settle (updateAgentStatus agentId status o) =
  settleTasks agentId (Agent.activeTasks a) (alterAgent agentId (Agent.set_status status) o).
Proof.
  intros Hget Hst. unfold updateAgentStatus. rewrite Hget.
  assert (Hb : bool_decide (status = AgentStatus.offline) || bool_decide (status = AgentStatus.error) = true).
  { destruct Hst as [-> | ->]; done. }
  rewrite Hb. unfold reassignAgentTasks.
  rewrite getAgent_alter_same, Hget by done. simpl.
  by destruct (Agent.activeTasks a).
Qed.

Lemma In_alter_other agentId f (o : t) (b : Agent.t) :
  In b (agents o) -> Agent.id b <> agentId -> In b (agents (alterAgent agentId f o)).
Proof.
  intros Hin Hne. unfold alterAgent. simpl.
  induction (agents o) as [|y l IH]; [done|]. simpl.
  destruct (is_agent agentId y) eqn:Hy.
  - destruct Hin as [->|Hin]; [|by right].
    apply is_agent_true in Hy. done.
  - destruct Hin as [->|Hin]; [by left|right; by apply IH].
Qed.

Lemma settleTasks_app agentId (l1 l2 : list string) (o : t) :
  settleTasks agentId (l1 ++ l2) o = settleTasks agentId l2 (passThrough l1 o).
Proof. revert o. induction l1 as [|t l1 IH]; intros o; [done|]. simpl. apply IH. Qed.

Lemma passThrough_downAt agentId a (tasks : list string) (o : t) :
  downAt agentId a o -> downAt agentId a (passThrough tasks o).
Proof.
  revert o. induction tasks as [|t rest IH]; intros o Hdown; [done|].
  simpl. apply IH. by apply reassignTask_downAt.
Qed.

(** C6, as amended. When the pass that [updateAgentStatus(A, 'error')] or
    [updateAgentStatus(A, 'offline')] starts has run to its end, nothing
    else coming in between, A has no active task and a load of 0, and
    every task that was active on A and has an assignment is either
    reassigned to an agent other than A or marked failed. The tasks are
    taken in their order: when the pass comes to a task that has an
    assignment, the task goes to an agent of least load among the agents
    that are then available with a load under 100, the agent of the
    assignment left out, and that agent is not A and takes the task on;
    the task is marked failed when there is no such agent. In particular
    the first task, recorded on A, is reassigned to another agent whenever
    some other agent is available with a load under 100. *)
Theorem updateAgentStatus_down_settled (o : t) (agentId : string) (status : AgentStatus.t)
  (a : Agent.t) :
  distinctIds o ->
  getAgent agentId o = Some a ->
  status = AgentStatus.offline \/ status = AgentStatus.error ->
  let o1 := alterAgent agentId (Agent.set_status status) o in
  let o' := settle (updateAgentStatus agentId status o) in
  (exists a', getAgent agentId o' = Some a' /\ Agent.activeTasks a' = [] /\
              Agent.currentLoad a' = 0%Q /\ Agent.status a' = status) /\
  (forall taskId asg,
     In taskId (Agent.activeTasks a) -> assignments o !! taskId = Some asg ->
     exists asg', assignments o' !! taskId = Some asg' /\
       ((TaskAssignment.status asg' = AssignmentStatus.reassigned /\ TaskAssignment.agentId asg' <> agentId) \/
        TaskAssignment.status asg' = AssignmentStatus.failed)) /\
  (forall earlier taskId later asg,
     Agent.activeTasks a = earlier ++ taskId :: later ->
     let o2 := passThrough earlier o1 in
     assignments o2 !! taskId = Some asg ->
     let others := List.filter (reassignable (TaskAssignment.agentId asg)) (agents o2) in
     (others = [] ->
      assignments (reassignTask taskId o2) !! taskId =
        Some (TaskAssignment.set_status AssignmentStatus.failed asg)) /\
     (others <> [] ->
      exists newAgent, In newAgent others /\
        (forall b, In b others -> (Agent.currentLoad newAgent <= Agent.currentLoad b)%Q) /\
        Agent.id newAgent <> agentId /\
        assignments (reassignTask taskId o2) !! taskId =
          Some (TaskAssignment.set_status AssignmentStatus.reassigned
                  (TaskAssignment.set_agentId (Agent.id newAgent) asg)) /\
        getAgent (Agent.id newAgent) (reassignTask taskId o2) =
          Some (pushTask taskId newAgent)) /\
     (~ In taskId later ->
      assignments o' !! taskId = assignments (reassignTask taskId o2) !! taskId)) /\
  (forall taskId rest asg,
     Agent.activeTasks a = taskId :: rest -> ~ In taskId rest ->
     assignments o !! taskId = Some asg -> TaskAssignment.agentId asg = agentId ->
     (exists b, In b (agents o) /\ Agent.id b <> agentId /\ eligible b = true) ->
     exists asg', assignments o' !! taskId = Some asg' /\
       TaskAssignment.status asg' = AssignmentStatus.reassigned /\
       TaskAssignment.agentId asg' <> agentId).
Proof.
  intros Hnd Hget Hst o1 o'. subst o'. rewrite (settle_updateAgentStatus _ _ _ a Hget Hst).
  fold o1.
  assert (Hdown : downAt agentId (Agent.set_status status a) o1).
  { split; [by apply distinctIds_alter|]. split.
    - unfold o1. by rewrite getAgent_alter_same, Hget.
    - simpl. destruct Hst as [-> | ->]; done. }
  split; [|split; [|split]].
  - rewrite (settleTasks_agent _ _ _ _ Hdown). eexists. split; [done|]. done.
  - intros taskId asg Hin Hasg.
    destruct (settleTasks_assignment agentId _ (Agent.activeTasks a) o1 taskId asg Hdown Hasg)
      as (asg' & Hasg' & Hgood & _).
    exists asg'. split; [done|]. apply Hgood. by left.
  - intros earlier taskId later asg Htasks o2 Hasg others.
    pose proof (passThrough_downAt agentId _ earlier o1 Hdown) as Hdown2. fold o2 in Hdown2.
    pose proof (reassignTask_outcome taskId o2 asg Hasg) as Hout. cbv zeta in Hout.
    fold others in Hout.
    split; [|split].
    + intros Hnil. rewrite Hnil in Hout. simpl in Hout. by destruct Hout as (_ & Hlook & _).
    + intros Hne.
      destruct (selectLeastLoaded others) as [newAgent|] eqn:Hsel; cycle 1.
      { by destruct Hout as (Hnil & _). }
      destruct Hout as (Hin & Hel & Hprev & Hlook & Hagents).
      exists newAgent. split; [by apply selectLeastLoaded_In|].
      split; [by apply selectLeastLoaded_min|].
      split; [by apply (downAt_not_chosen _ _ _ _ Hdown2 Hin Hel)|].
      split; [exact Hlook|].
      destruct Hdown2 as (Hnd2 & _ & _).
      unfold getAgent. rewrite Hagents.
      apply find_modify_first_same; [by apply getAgent_In|].
      unfold is_agent. by apply bool_decide_eq_true.
    + intros Hnot. rewrite Htasks, settleTasks_app. fold o2. simpl.
      destruct (assignments (reassignTask taskId o2) !! taskId) as [asg1|] eqn:Hasg1.
      * pose proof (reassignTask_downAt agentId _ taskId o2 Hdown2) as Hdown3.
        destruct (settleTasks_assignment agentId _ later _ taskId asg1 Hdown3 Hasg1)
          as (asg' & Hasg' & _ & Hsame).
        by rewrite Hasg', (Hsame Hnot).
      * exfalso. destruct (selectLeastLoaded others); [destruct Hout as (_ & _ & _ & H & _)|
          destruct Hout as (_ & H & _)]; congruence.
  - intros taskId rest asg Htasks Hnot Hasg Hprev (b & Hb & Hne & Hel).
    rewrite Htasks. simpl.
    pose proof (reassignTask_outcome taskId o1 asg Hasg) as Hout. cbv zeta in Hout.
    pose proof (reassignTask_downAt agentId _ taskId o1 Hdown) as Hdown'.
    destruct (selectLeastLoaded _) as [newAgent|] eqn:Hsel.
    + destruct Hout as (Hin & Hel' & _ & Hlook & _).
      destruct (settleTasks_assignment agentId _ rest _ taskId _ Hdown' Hlook)
        as (asg' & Hasg' & _ & Hsame).
      exists asg'. split; [done|]. rewrite (Hsame Hnot). simpl. split; [done|].
      by apply (downAt_not_chosen _ _ _ _ Hdown Hin Hel').
    + destruct Hout as (Hnil & _). exfalso.
      assert (Hcand : In b (List.filter (reassignable (TaskAssignment.agentId asg)) (agents o1))).
      { apply filter_In. split; [by apply In_alter_other|].
        apply reassignable_spec. by rewrite Hprev. }
      rewrite Hnil in Hcand. done.
Qed.

(** *** Selection by capability *)

Lemma sortByScore_nil (scores : list (Agent.t * Q)) : sortByScore scores = [] -> scores = [].
Proof.
  destruct scores as [|x l]; [done|]. simpl.
  destruct (sortByScore l) as [|y l']; simpl; [done|]. by destruct (Qle_bool _ _).
Qed.

(** The head of the sorted scores is an entry of highest score. *)
Lemma sortByScore_head (scores : list (Agent.t * Q)) :
  scores <> [] ->
  exists h, head (sortByScore scores) = Some h /\ In h scores /\
            forall y, In y scores -> (snd y <= snd h)%Q.
Proof.
  induction scores as [|x l IH]; [done|]. intros _. simpl.
  destruct (sortByScore l) as [|y l'] eqn:Hsort.
  - apply sortByScore_nil in Hsort as ->. exists x. simpl.
    split; [done|]. split; [by left|]. intros y [<-|[]]. apply Qle_refl.
  - destruct IH as (h & Hh & Hin & Hmax).
    { intros ->. done. }
    simpl in Hh. injection Hh as ->. simpl.
    destruct (Qle_bool (snd h) (snd x)) eqn:Hle.
    + apply Qle_bool_iff in Hle. exists x. split; [done|]. split; [by left|].
      intros z [<-|Hz]; [apply Qle_refl|]. eapply Qle_trans; [by apply Hmax|done].
    + exists h. split; [done|]. split; [by right|].
      intros z [<-|Hz]; [|by apply Hmax].
      apply Qlt_le_weak, Qnot_le_lt. intros H. apply Qle_bool_iff in H. congruence.
Qed.

Lemma highestScoring_spec (score : Agent.t -> Q) (candidates : list Agent.t) :
  candidates <> [] ->
  exists h, highestScoring score candidates = Some h /\ In h candidates /\
            forall c, In c candidates -> (score c <= score h)%Q.
Proof.
  intros Hne. unfold highestScoring.
  destruct (sortByScore_head (map (fun agent => (agent, score agent)) candidates))
    as (h & Hh & Hin & Hmax).
  { by destruct candidates. }
  apply in_map_iff in Hin as (a & <- & Ha).
  exists a. rewrite Hh. split; [done|]. split; [done|].
  intros c Hc. apply (Hmax (c, score c)). apply in_map_iff. by exists c.
Qed.






(** *** What the operations keep

    A property of the registry that does not look past the agents, and
    that holds on when one agent is changed by any of the functions the
    operations apply to an agent, is kept by every operation but
    [registerAgent]. *)

Section Kept.

Variable P : t -> Prop.
Variable fits : (Agent.t -> Agent.t) -> Prop.

Hypothesis P_agents : forall o o', agents o' = agents o -> P o -> P o'.
Hypothesis P_alter : forall agentId f o, fits f -> P o -> P (alterAgent agentId f o).
Hypothesis fits_status : forall status, fits (Agent.set_status status).
Hypothesis fits_pushTask : forall taskId, fits (pushTask taskId).
Hypothesis fits_clearTasks : fits clearTasks.
Hypothesis fits_completeAgentTask : forall taskId d, fits (completeAgentTask taskId d).
Hypothesis fits_failAgentTask : forall taskId, fits (failAgentTask taskId).

Lemma kept_reassignTask taskId (o : t) : P o -> P (reassignTask taskId o).
Proof.
  intros Ho. unfold reassignTask.
  destruct (assignments o !! taskId) as [asg|]; [|done].
  destruct (selectLeastLoaded _) as [newAgent|].
  - apply P_alter; [apply fits_pushTask|]. by apply (P_agents o).
  - by apply (P_agents o).
Qed.

Lemma kept_resumeReassign k (o : t) : P o -> P (fst (resumeReassign k o)).
Proof.
  intros Ho. unfold resumeReassign. destruct (s_tasks k) as [|taskId rest]; simpl.
  - by apply P_alter.
  - by apply kept_reassignTask.
Qed.

Lemma kept_updateAgentStatus agentId status (o : t) :
  P o -> P (fst (updateAgentStatus agentId status o)).
Proof.
  intros Ho. unfold updateAgentStatus. destruct (getAgent agentId o); [|done].
  assert (H1 : P (alterAgent agentId (Agent.set_status status) o)) by by apply P_alter.
  destruct (_ || _); [|done].
  unfold reassignAgentTasks. destruct (getAgent agentId _) as [a|]; [|done].
  destruct (Agent.activeTasks a) as [|taskId rest] eqn:Htasks.
  - simpl. by apply P_alter.
  - by apply kept_resumeReassign.
Qed.

Lemma kept_selectAgent required preferred : preserves P (selectAgent required preferred).
Proof.
  unfold selectAgent. apply preserves_bind; [apply preserves_get|]. intros o.
  destruct (preferredEligible o preferred); [apply preserves_ret|].
  destruct (List.filter eligible (agents o)) as [|c cs]; [apply preserves_ret|].
  destruct (loadBalancingStrategy o); try apply preserves_ret.
  unfold selectRoundRobin. apply preserves_bind; [apply preserves_get|]. intros o'.
  destruct (agentQueue o'); [apply preserves_ret|].
  destruct (turnQueue _ _ _) as [[selected queue]|]; [|apply preserves_throw].
  apply preserves_bind; [|intros; apply preserves_ret].
  apply preserves_modify. intros st. by apply P_agents.
Qed.

Lemma kept_assignTask now params : preserves P (assignTask now params).
Proof.
  unfold assignTask. apply preserves_bind; [apply kept_selectAgent|].
  intros [agent|]; [|apply preserves_throw].
  apply preserves_bind.
  { apply preserves_modify. intros st. by apply P_alter. }
  intros _. apply preserves_bind; [|intros; apply preserves_ret].
  apply preserves_modify. intros st. by apply P_agents.
Qed.

Lemma kept_startTask now taskId sessionId : preserves P (startTask now taskId sessionId).
Proof.
  unfold startTask. apply preserves_bind; [apply preserves_get|]. intros o.
  destruct (assignments o !! taskId); [|apply preserves_throw].
  apply preserves_bind.
  { apply preserves_modify. intros st. by apply P_agents. }
  intros _. destruct (truthyId sessionId);
    [apply preserves_updateTaskContext|apply preserves_ret].
Qed.

Lemma kept_onEngine {A : Type} (m : M WorkflowEngine.t A) : preserves P (onEngine m).
Proof.
  intros o Ho. unfold onEngine. destruct (m (workflowEngine o)) as [e r]. simpl.
  by apply (P_agents o).
Qed.

Lemma kept_completeTask now taskId output sessionId :
  preserves P (completeTask now taskId output sessionId).
Proof.
  unfold completeTask. apply preserves_bind; [apply preserves_get|]. intros o.
  destruct (assignments o !! taskId) as [asg|]; [|apply preserves_throw].
  destruct (getAgent _ o); [|apply preserves_throw].
  apply preserves_bind.
  { apply preserves_modify. intros st. by apply P_agents. }
  intros _. apply preserves_bind.
  { apply preserves_modify. intros st. by apply P_alter. }
  intros _. apply preserves_bind.
  { destruct (truthyId (TaskAssignment.workflowId asg)); [|apply preserves_ret].
    destruct (truthyId (TaskAssignment.stepId asg)); [|apply preserves_ret].
    apply kept_onEngine. }
  intros _. destruct (truthyId sessionId);
    [apply preserves_updateTaskContext|apply preserves_ret].
Qed.

Lemma kept_failTask now taskId err retry : preserves P (failTask now taskId err retry).
Proof.
  unfold failTask. apply preserves_bind; [apply preserves_get|]. intros o.
  destruct (assignments o !! taskId) as [asg|]; [|apply preserves_throw].
  apply preserves_bind.
  { apply preserves_modify. intros st. by apply P_alter. }
  intros _. apply preserves_bind.
  { apply preserves_modify. intros st. by apply P_agents. }
  intros _. destruct (_ && _); apply preserves_modify; intros st.
  - apply kept_reassignTask.
  - by apply P_agents.
Qed.

(** With [registerAgent] and the constructor, every reachable
    orchestrator. *)
Lemma kept_reachable (c : t * option Suspended) :
  (forall cm e strategy, P (new cm e strategy)) ->
  (forall agent o, 0 < Agent.maxConcurrentTasks agent -> consistent agent ->
                   P o -> P (registerAgent agent o)) ->
  reachable c -> P (fst c).
Proof.
  intros Hnew Hregister Hreach.
  induction Hreach as [cm e strategy | agent o0 _ IH Hmax Hagent | agentId status o0 _ IH
                       | k0 o0 _ IH | now params o0 _ IH | now taskId sessionId o0 _ IH
                       | now taskId output sessionId o0 _ IH | now taskId err retry o0 _ IH];
    simpl in *.
  - apply Hnew.
  - by apply Hregister.
  - by apply kept_updateAgentStatus.
  - by apply kept_resumeReassign.
  - by apply kept_assignTask.
  - by apply kept_startTask.
  - by apply kept_completeTask.
  - by apply kept_failTask.
Qed.

End Kept.

(** *** Load consistency is kept *)

Lemma consistent_recomputeLoad (a : Agent.t) : consistent (Agent.recomputeLoad a).
Proof. unfold consistent. reflexivity. Qed.

(** No task gives a load of 0, whatever [maxConcurrentTasks] is: [0 / m]
    is a zero, or NaN when [m] is 0. *)
Lemma load_no_task (m : Q) : JS.mul (JS.div 0 m) 100 = 0%Q.
Proof.
  unfold JS.div. change (JS.ofQ 0) with (SpecFloat.S754_zero false).
  destruct (JS.ofQ m) as [s|s| |s mx ex]; vm_compute; try reflexivity;
    destruct s; reflexivity.
Qed.

Lemma consistent_clearTasks a : consistent (clearTasks a).
Proof.
  unfold consistent, clearTasks, Agent.load. cbn [Agent.currentLoad Agent.set_currentLoad
    Agent.set_activeTasks Agent.activeTasks Agent.maxConcurrentTasks length].
  change (inject_Z (Z.of_nat 0)) with 0%Q. by rewrite load_no_task.
Qed.

Lemma loadConsistent_alter agentId f (o : t) :
  keepsConsistent f -> loadConsistent o -> loadConsistent (alterAgent agentId f o).
Proof.
  intros Hf Ho a Hin. unfold alterAgent in Hin. simpl in Hin.
  apply In_modify_first in Hin as [Hin|(b & Hb & _ & ->)]; [by apply Ho|].
  by apply Hf, Ho.
Qed.

Lemma loadConsistent_agents (o o' : t) :
  agents o' = agents o -> loadConsistent o -> loadConsistent o'.
Proof. unfold loadConsistent. by intros ->. Qed.

Lemma keepsConsistent_status status : keepsConsistent (Agent.set_status status).
Proof. by intros a. Qed.

Lemma keepsConsistent_pushTask taskId : keepsConsistent (pushTask taskId).
Proof. intros a _. apply consistent_recomputeLoad. Qed.

Lemma keepsConsistent_clearTasks : keepsConsistent clearTasks.
Proof. intros a _. apply consistent_clearTasks. Qed.

Lemma keepsConsistent_completeAgentTask taskId d :
  keepsConsistent (completeAgentTask taskId d).
Proof. intros a _. unfold consistent. reflexivity. Qed.

Lemma keepsConsistent_failAgentTask taskId : keepsConsistent (failAgentTask taskId).
Proof. intros a _. apply consistent_recomputeLoad. Qed.

Lemma loadConsistent_registerAgent agent (o : t) :
  consistent agent -> loadConsistent o -> loadConsistent (registerAgent agent o).
Proof.
  intros Ha Ho a Hin. unfold registerAgent, setAgent in Hin. simpl in Hin.
  destruct (existsb _ _).
  - apply In_modify_first in Hin as [Hin|(b & _ & _ & ->)]; [by apply Ho|done].
  - apply in_app_iff in Hin as [Hin|[<-|[]]]; [by apply Ho|done].
Qed.

Lemma loadConsistent_new cm e strategy : loadConsistent (new cm e strategy).
Proof.
  intros a Hin. unfold new in Hin. simpl in Hin.
  destruct Hin as [<-|[<-|[<-|[]]]]; reflexivity.
Qed.

(** C4, as amended. In every orchestrator that the public operations
    build, each of them started when the reassignment pass of an earlier
    [updateAgentStatus] has run to its end, and at every point of such a
    pass, each agent of the registry has the [currentLoad] that
    [(activeTasks.length / maxConcurrentTasks) * 100] gives in the
    arithmetic of the code, provided the agents handed to [registerAgent]
    come with such a load and a positive [maxConcurrentTasks]:
    [registerAgent] stores the load it is given. *)
Theorem reachable_loadConsistent (o : t) (k : option Suspended) (a : Agent.t) :
  reachable (o, k) ->
  In a (agents o) ->
  (Agent.currentLoad a == Agent.load a)%Q.
Proof.
  intros Hreach. enough (loadConsistent o) as Ho by apply Ho.
  apply (kept_reachable loadConsistent keepsConsistent
           loadConsistent_agents loadConsistent_alter keepsConsistent_status
           keepsConsistent_pushTask keepsConsistent_clearTasks
           keepsConsistent_completeAgentTask keepsConsistent_failAgentTask (o, k)).
  - apply loadConsistent_new.
  - intros agent o0 _ Hagent. by apply loadConsistent_registerAgent.
  - exact Hreach.
Qed.

(** *** The ids of the registry stay distinct *)

Lemma distinctIds_registerAgent agent (o : t) :
  distinctIds o -> distinctIds (registerAgent agent o).
Proof.
  unfold distinctIds, registerAgent, setAgent. simpl. intros Hnd.
  destruct (existsb _ _) eqn:Hex.
  - rewrite map_modify_first_at; [done|]. intros y Hy. by apply is_agent_true in Hy.
  - rewrite map_app. simpl. apply NoDup_app. split; [done|]. split; [|apply NoDup_singleton].
    intros x Hx Hx'. apply list_elem_of_singleton in Hx' as ->.
    apply list_elem_of_In, in_map_iff in Hx as (b & Hid & Hb).
    assert (existsb (is_agent (Agent.id agent)) (agents o) = true); [|congruence].
    apply existsb_exists. exists b. split; [done|]. by apply is_agent_true.
Qed.

(** In every orchestrator that the operations build the ids of the agents
    are distinct, as the keys of a [Map] are. *)
Lemma reachable_distinctIds (o : t) (k : option Suspended) :
  reachable (o, k) -> distinctIds o.
Proof.
  intros Hreach.
  apply (kept_reachable distinctIds keepsId) with (c := (o, k)); try done.
  - unfold distinctIds. by intros ? ? ->.
  - intros agentId f o0 Hf. by apply distinctIds_alter.
  - intros cm e strategy. unfold distinctIds, new. simpl.
    apply (bool_decide_unpack _). by vm_compute.
  - intros agent o0 _ _. apply distinctIds_registerAgent.
Qed.

(** *** The theorems at concrete runs *)

(** C9, counterexample. An agent that is registered already is registered
    again: its id is appended to the round-robin queue once more, so the
    second call does not leave the orchestrator as the first one did. *)
Lemma registerAgent_known_grows_queue :
  getAgent "claude-3-opus" Scenario.o0 = Some claudeOpus /\
  agentQueue Scenario.o0 = ["claude-3-opus"; "gpt-4-turbo"; "gemini-pro"] /\
  agentQueue (registerAgent claudeOpus Scenario.o0) =
    ["claude-3-opus"; "gpt-4-turbo"; "gemini-pro"; "claude-3-opus"] /\
  registerAgent claudeOpus (registerAgent claudeOpus Scenario.o0) <>
    registerAgent claudeOpus Scenario.o0.
Proof.
  repeat (split; [vm_compute; reflexivity|]).
  intros H. apply (f_equal agentQueue) in H. vm_compute in H. discriminate.
Qed.

(** The theorem at the default orchestrator, registering an agent it already knows. *)
Lemma registerAgent_upsert_witness :
  getAgent "claude-3-opus" (registerAgent claudeOpus Scenario.o0) = Some claudeOpus /\
  map Agent.id (agents (registerAgent claudeOpus Scenario.o0)) =
    ["claude-3-opus"; "gpt-4-turbo"; "gemini-pro"].
Proof.
  destruct (registerAgent_upsert claudeOpus Scenario.o0) as (Hget & _ & Hplace & _).
  split; [exact Hget|]. rewrite Hplace; [reflexivity|]. by eexists.
Defined.

(** C5, counterexample. A task has failed twice and been reassigned twice;
    its [retryCount] is 2, less than 3, and agents other than its own are
    available with no load. The third [failTask(taskId, error, true)] marks
    it failed. *)
Lemma third_failure_is_final :
  (fun a => (TaskAssignment.agentId a, TaskAssignment.status a, TaskAssignment.retryCount a))
    <$> assignments Scenario.f3 !! "t" = Some ("claude-3-opus", AssignmentStatus.reassigned, 2) /\
  (exists b, In b (agents Scenario.f3) /\ Agent.id b <> "claude-3-opus" /\ eligible b = true) /\
  (fun a => (TaskAssignment.agentId a, TaskAssignment.status a, TaskAssignment.retryCount a))
    <$> assignments (fst (failTask 3 "t" "boom" true Scenario.f3)) !! "t"
    = Some ("claude-3-opus", AssignmentStatus.failed, 3).
Proof.
  split; [vm_compute; reflexivity|]. split; [|vm_compute; reflexivity].
  exists geminiPro. split; [|split; [done|reflexivity]].
  vm_compute. right. right. left. reflexivity.
Qed.

(** The theorem at the run [f1], whose task fails with retry and gives [f2]. *)
Lemma failTask_retry_bound_witness :
  exists asg', assignments Scenario.f2 !! "t" = Some asg' /\
               TaskAssignment.retryCount asg' = 1 /\
               TaskAssignment.status asg' = AssignmentStatus.reassigned.
Proof.
  destruct (assignments Scenario.f1 !! "t") as [asg|] eqn:Hasg;
    [|vm_compute in Hasg; discriminate].
  destruct (failTask_retry_bound Scenario.f1 1 "t" "boom" asg Hasg)
    as (_ & asg' & Hasg' & Hcount & Hlow & _).
  exists asg'. split; [exact Hasg'|].
  vm_compute in Hasg. injection Hasg as <-.
  split; [exact Hcount|].
  apply Hlow; [reflexivity|].
  exists gpt4Turbo. split; [|split; [done|reflexivity]].
  vm_compute. right. left. reflexivity.
Defined.

(** C6, counterexample. Agent A holds two tasks and B, the only other
    agent available, has room for one. When [updateAgentStatus("A",
    'error')] returns, A still holds its tasks; and when the pass has run to
    its end, the second task is marked failed, not reassigned. *)
Lemma second_task_fails_when_room_runs_out :
  Agent.activeTasks <$> getAgent "A" Scenario.d2 = Some ["t1"; "t2"] /\
  (exists b, In b (agents Scenario.d2) /\ Agent.id b <> "A" /\ eligible b = true) /\
  Agent.activeTasks <$> getAgent "A" (fst (updateAgentStatus "A" AgentStatus.error Scenario.d2))
    = Some ["t1"; "t2"] /\
  (fun a => (TaskAssignment.agentId a, TaskAssignment.status a))
    <$> assignments (settle (updateAgentStatus "A" AgentStatus.error Scenario.d2)) !! "t2"
    = Some ("A", AssignmentStatus.failed).
Proof.
  split; [vm_compute; reflexivity|]. split; [|split; vm_compute; reflexivity].
  exists (Scenario.debugger "B" 2 1). split; [|split; [done|reflexivity]].
  vm_compute. do 4 right. left. reflexivity.
Qed.

(** The theorem at the run [d2], agent A going to error with two tasks. *)
Lemma updateAgentStatus_down_settled_witness :
  (exists a', getAgent "A" (settle (updateAgentStatus "A" AgentStatus.error Scenario.d2)) = Some a' /\
              Agent.activeTasks a' = [] /\ Agent.currentLoad a' = 0%Q) /\
  (exists asg', assignments (settle (updateAgentStatus "A" AgentStatus.error Scenario.d2)) !! "t1"
                = Some asg' /\
                TaskAssignment.status asg' = AssignmentStatus.reassigned /\
                TaskAssignment.agentId asg' <> "A").
Proof.
  destruct (getAgent "A" Scenario.d2) as [a|] eqn:Hget; [|vm_compute in Hget; discriminate].
  destruct (assignments Scenario.d2 !! "t1") as [asg|] eqn:Hasg;
    [|vm_compute in Hasg; discriminate].
  destruct (updateAgentStatus_down_settled Scenario.d2 "A" AgentStatus.error a)
    as ((a' & Ha' & Htasks & Hload & _) & _ & _ & Hfirst).
  - unfold distinctIds. apply (bool_decide_unpack _). vm_compute. exact I.
  - exact Hget.
  - right. reflexivity.
  - split; [exists a'; split; [exact Ha'|split; [exact Htasks|exact Hload]]|].
    pose proof Hget as Ha0. vm_compute in Ha0. injection Ha0 as Ha0.
    pose proof Hasg as Hasg0. vm_compute in Hasg0. injection Hasg0 as Hasg0.
    apply (Hfirst "t1" ["t2"] asg).
    + rewrite <- Ha0. reflexivity.
    + intros [H|[]]. discriminate H.
    + exact Hasg.
    + rewrite <- Hasg0. reflexivity.
    + exists (Scenario.debugger "B" 2 1).
      split; [vm_compute; do 4 right; left; reflexivity|].
      split; [intros H; discriminate H|vm_compute; reflexivity].
Defined.



(** C4, counterexample. [registerAgent] stores the load it is given: an
    agent handed in without tasks and with a load of 50 is in the registry
    with that load. *)
Lemma registerAgent_keeps_stale_load :
  getAgent "S" (registerAgent Scenario.stale Scenario.o0) = Some Scenario.stale /\
  Agent.activeTasks Scenario.stale = [] /\
  Agent.maxConcurrentTasks Scenario.stale = 3 /\
  Agent.currentLoad Scenario.stale = 50%Q /\
  Agent.load Scenario.stale = 0%Q /\
  statedLoad Scenario.stale = 0%Q.
Proof.
  do 5 (split; [vm_compute; reflexivity|]). vm_compute. reflexivity.
Qed.

(** The order of the operations counts. With one task of three, the agent
    holds [(1 / 3) * 100], the double 33.33333333333333; the
    [100 * 1 / 3] of the specification is the next double,
    33.333333333333336. *)
Lemma load_is_quotient_times_100 :
  exists a, getAgent "claude-3-opus" Scenario.f1 = Some a /\
    Agent.activeTasks a = ["t"] /\ Agent.maxConcurrentTasks a = 3 /\
    Agent.currentLoad a = Agent.load a /\
    Agent.load a = (2345624805922133 # 70368744177664)%Q /\
    statedLoad a = (4691249611844267 # 140737488355328)%Q /\
    (Agent.load a < statedLoad a)%Q.
Proof.
  eexists. split; [vm_compute; reflexivity|].
  do 5 (split; [vm_compute; reflexivity|]). vm_compute. reflexivity.
Qed.

(** The theorem at the run [f2]: a task assigned, failed and reassigned. *)
Lemma reachable_loadConsistent_witness :
  Forall (fun a => (Agent.currentLoad a == Agent.load a)%Q) (agents Scenario.f2).
Proof.
  apply Forall_forall. intros a Ha. apply list_elem_of_In in Ha.
  apply (reachable_loadConsistent Scenario.f2 None a); [|exact Ha].
  apply reach_failTask, reach_assignTask, reach_new.
Defined.

End AgentOrchestratorProofs.

(** ** Workflow engine: what the operations do and keep

    Properties read off the code of the engine, beyond the ones its
    specification states. *)

Module WorkflowEngineBehaviour.
Import Facts WorkflowEngine WorkflowEngineProofs.

Section Stable.

Variable R : Workflow.t -> Workflow.t -> Prop.

Hypothesis R_refl : forall w, R w w.
Hypothesis R_trans : forall w1 w2 w3, R w1 w2 -> R w2 w3 -> R w1 w3.
Hypothesis R_steps : forall w l,
  map shape l = map shape (Workflow.steps w) -> R w (Workflow.set_steps l w).
Hypothesis R_state : forall w v, R w (Workflow.set_state v w).
Hypothesis R_updatedAt : forall w now,
  R w (Workflow.set_metadata (Metadata.set_updatedAt now (Workflow.metadata w)) w).
Hypothesis R_currentStepId : forall w v, R w (Workflow.set_currentStepId v w).
Hypothesis R_sessionId : forall w v, R w (Workflow.set_sessionId v w).
Hypothesis R_handleBlocker : forall w, R w (handleBlocker w).
Hypothesis R_updateProgress : forall w, R w (updateProgress w).
Hypothesis R_progress : forall w v,
  R w (Workflow.set_metrics (Metrics.set_progressPercentage v (Workflow.metrics w)) w).
Hypothesis R_prepareReview : forall w, R w (prepareReview w).

Lemma stable_modify_first w p f :
  (forall s, shape (f s) = shape s) ->
  R w (Workflow.set_steps (JS.modify_first p f (Workflow.steps w)) w).
Proof. intros Hf. apply R_steps. by apply map_modify_first. Qed.

Lemma stable_startNextStep w : R w (startNextStep w).
Proof. by apply stable_modify_first. Qed.

Lemma stable_prepareWorkflow w : R w (prepareWorkflow w).
Proof.
  unfold prepareWorkflow. rewrite prepare_loop.
  set (w1 := Workflow.set_steps _ w).
  assert (H1 : R w w1).
  { apply R_steps. rewrite map_map. apply map_ext. intros s. unfold promote.
    by destruct (_ && _). }
  destruct (existsb _ _); [|done].
  eapply R_trans; [exact H1|]. eapply R_trans; [apply R_state|]. apply stable_startNextStep.
Qed.

Lemma stable_pauseCurrentStep cm w : R w (fst (pauseCurrentStep cm w)).
Proof. by rewrite strongInv_pauseCurrentStep. Qed.

Lemma stable_resumeCurrentStep cm w : R w (fst (resumeCurrentStep cm w)).
Proof.
  unfold resumeCurrentStep, bind, get, modify.
  destruct (currentStepPred w) as [p|]; [|done].
  destruct (List.find p (Workflow.steps w)); [|done].
  destruct (linkedSession w) as [sid|]; [rewrite fst_updateTaskContext|];
    by apply stable_modify_first.
Qed.

Lemma stable_handleFailure now w : R w (handleFailure now w).
Proof.
  unfold handleFailure. destruct (currentStepPred w); [|done]. by apply stable_modify_first.
Qed.

Lemma stable_completeWorkflow now w : R w (completeWorkflow now w).
Proof.
  unfold completeWorkflow. eapply R_trans; [apply (R_updatedAt w now)|].
  apply (R_progress (Workflow.set_metadata _ w)).
Qed.

Lemma stable_action now cm row act w :
  In row transitions -> action row = Some act -> R w (fst (act now cm w)).
Proof.
  intros Hrow Hact. unfold transitions in Hrow. simpl in Hrow.
  repeat destruct Hrow as [<-|Hrow]; try destruct Hrow; simpl in Hact;
    injection Hact as <-; unfold modify; simpl;
    eauto using stable_prepareWorkflow, stable_startNextStep, stable_pauseCurrentStep,
                stable_resumeCurrentStep, stable_handleFailure, stable_completeWorkflow.
Qed.

Lemma stable_touch now to w : R w (touch now to w).
Proof.
  unfold touch. eapply R_trans; [apply (R_state w to)|].
  apply (R_updatedAt (Workflow.set_state to w)).
Qed.

Lemma stable_fire now cm (valid : list WorkflowTransition) w :
  (forall row, In row valid -> In row transitions) ->
  R w (fst (fire now cm valid w)).
Proof.
  intros Hvalid. induction valid as [|row rest IH]; [done|].
  simpl. unfold bind at 1. unfold get at 1.
  destruct (match condition row with Some c => c w | None => true end).
  - unfold bind at 1. unfold modify at 1.
    change (Workflow.set_metadata _ _) with (touch now (to row) w).
    unfold bind at 1.
    destruct (action row) as [act|] eqn:Hact.
    + pose proof (stable_action now cm row act (touch now (to row) w)
                    (Hvalid row (or_introl eq_refl)) Hact) as H.
      destruct (act now cm (touch now (to row) w)) as [w' [err|[]]]; simpl in *;
        (eapply R_trans; [apply stable_touch|exact H]).
    + simpl. apply stable_touch.
  - apply IH. intros r Hr. apply Hvalid. by right.
Qed.

Lemma related_refl (e : WorkflowEngine.t) : related R e e.
Proof. intros k. destruct (workflows e !! k); by constructor. Qed.

Lemma related_store workflowId w w' (e : WorkflowEngine.t) :
  workflows e !! workflowId = Some w -> R w w' -> related R e (store workflowId w' e).
Proof.
  intros Hw HR k. unfold store. simpl. rewrite lookup_insert. case_decide as Hid.
  - subst. rewrite Hw. by constructor.
  - apply related_refl.
Qed.

Lemma stable_transition now workflowId trg (e : WorkflowEngine.t) :
  related R e (fst (transition now workflowId trg e)).
Proof.
  destruct (workflows e !! workflowId) as [w|] eqn:Hw.
  - rewrite (transition_unfold _ _ _ _ _ Hw).
    pose proof (stable_fire now (contextManager e) (validTransitions w trg) w) as Hfire.
    destruct (validTransitions w trg) as [|row rest] eqn:Hv; [apply related_refl|].
    destruct (fire now (contextManager e) (row :: rest) w) as [w' r]. simpl.
    apply (related_store workflowId w w' e Hw), Hfire.
    intros r0 Hr0. rewrite <- Hv in Hr0. by apply validTransitions_spec in Hr0 as [? _].
  - unfold transition, onWorkflow. rewrite Hw. apply related_refl.
Qed.

Lemma stable_executeStep now workflowId stepId sessionId (e : WorkflowEngine.t) :
  related R e (fst (executeStep now workflowId stepId sessionId e)).
Proof.
  unfold executeStep, onWorkflow.
  destruct (workflows e !! workflowId) as [w|] eqn:Hw; [|apply related_refl].
  pose proof (fun w' => related_store workflowId w w' e Hw) as Hstore. unfold store in Hstore.
  unfold bind at 1. unfold get at 1.
  destruct (List.find (has_id stepId) (Workflow.steps w)) as [s|]; [|by apply Hstore].
  destruct (checkDependencies w s); [|by apply Hstore].
  change (negb true) with false. cbv beta iota.
  unfold bind at 1. unfold modify at 1.
  set (w1 := Workflow.set_currentStepId (Some stepId) _).
  assert (H1 : R w w1).
  { eapply R_trans; [|apply R_currentStepId]. by apply stable_modify_first. }
  destruct sessionId as [sid|]; [|by apply Hstore].
  destruct (JS.truthy sid); [|by apply Hstore].
  unfold bind, modify, ContextManager.updateTaskContext.
  assert (H2 : R w (Workflow.set_sessionId (Some sid) w1)).
  { eapply R_trans; [exact H1|apply R_sessionId]. }
  destruct (ContextManager.has _ _); by apply Hstore.
Qed.

Lemma stable_completed now stepId outputs w : R w (completed now stepId outputs w).
Proof.
  unfold completed. eapply R_trans; [|apply R_updateProgress]. by apply stable_modify_first.
Qed.

Lemma stable_completeStep now workflowId stepId outputs artifacts (e : WorkflowEngine.t) :
  related R e (fst (completeStep now workflowId stepId outputs artifacts e)).
Proof.
  destruct (workflows e !! workflowId) as [w|] eqn:Hw.
  - pose proof (fun w' => related_store workflowId w w' e Hw) as Hstore.
    destruct (List.find (has_id stepId) (Workflow.steps w)) as [step|] eqn:Hfind.
    + pose proof (stable_completed now stepId outputs w) as H1.
      destruct (completeStep_unfold now workflowId stepId outputs artifacts e w step Hw Hfind)
        as [->|[err [-> _]]].
      * cbv zeta. destruct (allStepsComplete _).
        -- destruct (bool_decide _); simpl; apply Hstore; try done.
           eapply R_trans; [exact H1|]. eapply R_trans; [apply stable_touch|].
           apply R_prepareReview.
        -- simpl. apply Hstore.
           eapply R_trans; [exact H1|apply stable_startNextStep].
      * simpl. apply Hstore. by apply stable_modify_first.
    + destruct (completeStep_unknown now workflowId stepId outputs artifacts e) as [err ->].
      * by rewrite Hw.
      * apply related_refl.
  - destruct (completeStep_unknown now workflowId stepId outputs artifacts e) as [err ->].
    + by rewrite Hw.
    + apply related_refl.
Qed.

End Stable.

Lemma sameShape_refl w : sameShape w w.
Proof. by repeat split. Qed.

Lemma sameShape_trans w1 w2 w3 : sameShape w1 w2 -> sameShape w2 w3 -> sameShape w1 w3.
Proof.
  unfold sameShape. intros (?&?&?&?&?&?&?) (?&?&?&?&?&?&?). repeat split; congruence.
Qed.

(** X1. [transition], [executeStep] and [completeStep] neither add nor
    remove a workflow, and they leave to each workflow its id, project,
    name, description, type and creation date and to each of its steps
    the id, name, description, type and dependencies: only statuses,
    dates, outputs and counters move. *)
Theorem operations_keep_workflow_identity (e : WorkflowEngine.t) :
  (forall now workflowId trg,
     related sameShape e (fst (transition now workflowId trg e))) /\
  (forall now workflowId stepId sessionId,
     related sameShape e (fst (executeStep now workflowId stepId sessionId e))) /\
  (forall now workflowId stepId outputs artifacts,
     related sameShape e (fst (completeStep now workflowId stepId outputs artifacts e))).
Proof.
  assert (Hprep : forall w, sameShape w (prepareReview w)).
  { intros w. unfold prepareReview.
    destruct (Metadata.estimatedDuration _); [|apply sameShape_refl].
    destruct (bool_decide _); by repeat split. }
  repeat split; intros;
    [apply stable_transition|apply stable_executeStep|apply stable_completeStep];
    first [exact sameShape_refl | exact sameShape_trans | exact Hprep | by repeat split].
Qed.


Lemma related_keeps (P : Workflow.t -> Prop) (e e' : WorkflowEngine.t) :
  related (keeps P) e e' ->
  (forall workflowId w, workflows e !! workflowId = Some w -> P w) ->
  forall workflowId w, workflows e' !! workflowId = Some w -> P w.
Proof.
  intros Hrel He k w' Hw'. specialize (Hrel k). rewrite Hw' in Hrel.
  inversion Hrel as [w ? HR Hw|]; subst. apply HR, (He k). by symmetry.
Qed.

Lemma bookkeeping_steps w l :
  map shape l = map shape (Workflow.steps w) ->
  keeps bookkeeping w (Workflow.set_steps l w).
Proof.
  intros Hl (Htotal & Hrest). split; [|exact Hrest]. simpl. rewrite Htotal.
  apply (f_equal length) in Hl. rewrite !length_map in Hl. by rewrite Hl.
Qed.

Lemma bookkeeping_prepareReview w : keeps bookkeeping w (prepareReview w).
Proof.
  intros Hw. unfold prepareReview.
  destruct Hw as (H1 & H2 & H3 & H4 & H5). rewrite H4. by repeat split.
Qed.

Lemma bookkeeping_operation (e e' : WorkflowEngine.t) :
  (exists now workflowId trg, e' = fst (transition now workflowId trg e)) \/
  (exists now workflowId stepId sessionId,
     e' = fst (executeStep now workflowId stepId sessionId e)) \/
  (exists now workflowId stepId outputs artifacts,
     e' = fst (completeStep now workflowId stepId outputs artifacts e)) ->
  related (keeps bookkeeping) e e'.
Proof.
  intros [(now & k & trg & ->)|[(now & k & stepId & sid & ->)|
                                (now & k & stepId & outputs & arts & ->)]];
    [apply stable_transition|apply stable_executeStep|apply stable_completeStep];
    first [ exact bookkeeping_steps | exact bookkeeping_prepareReview
          | by intros ? | by intros ? ? ? H12 H23 H1; apply H23, H12
          | intros w; intros; intros (? & ? & ? & ? & ?); repeat split; simpl; try done; lia ].
Qed.

Lemma built_bookkeeping (e : WorkflowEngine.t) (workflowId : string) (w : Workflow.t) :
  built e -> workflows e !! workflowId = Some w -> bookkeeping w.
Proof.
  intros Hb. revert workflowId w.
  induction Hb as [cm|e now uuid params _ IH|e now k trg _ IH|e now k stepId sid _ IH
                  |e now k stepId outputs arts _ IH]; intros workflowId w.
  - unfold new. simpl. by rewrite lookup_empty.
  - unfold createWorkflow. simpl. rewrite lookup_insert. case_decide; [|apply IH].
    intros [= <-]. by repeat split.
  - apply (related_keeps bookkeeping e); [|exact IH].
    apply bookkeeping_operation. left. by exists now, k, trg.
  - apply (related_keeps bookkeeping e); [|exact IH].
    apply bookkeeping_operation. right. left. by exists now, k, stepId, sid.
  - apply (related_keeps bookkeeping e); [|exact IH].
    apply bookkeeping_operation. right. right. by exists now, k, stepId, outputs, arts.
Qed.

Lemma onlySteps_refl w : onlySteps w w.
Proof. by destruct w. Qed.

Lemma onlySteps_steps w l : onlySteps w (Workflow.set_steps l w).
Proof. done. Qed.

Lemma onlySteps_resumeCurrentStep cm w : onlySteps w (fst (resumeCurrentStep cm w)).
Proof. apply stable_resumeCurrentStep; [apply onlySteps_refl|]. intros; apply onlySteps_steps. Qed.

Lemma state_prepareWorkflow w :
  Workflow.metadata (prepareWorkflow w) = Workflow.metadata w /\
  (Workflow.state (prepareWorkflow w) = Workflow.state w \/
   Workflow.state (prepareWorkflow w) = WorkflowState.running).
Proof.
  unfold prepareWorkflow. rewrite prepare_loop. simpl.
  destruct (existsb _ _); simpl; auto.
Qed.

Lemma action_state now cm row act w :
  In row transitions -> action row = Some act ->
  let w' := fst (act now cm w) in
  (Metadata.updatedAt (Workflow.metadata w') = Metadata.updatedAt (Workflow.metadata w) \/
   Metadata.updatedAt (Workflow.metadata w') = now) /\
  (Workflow.state w' = Workflow.state w \/
   from row = WorkflowState.draft /\ trigger row = Trigger.start /\
   Workflow.state w' = WorkflowState.running).
Proof.
  intros Hrow Hact. unfold transitions in Hrow. simpl in Hrow.
  repeat destruct Hrow as [<-|Hrow]; try destruct Hrow; simpl in Hact;
    injection Hact as <-; unfold modify; cbv zeta; simpl.
  - destruct (state_prepareWorkflow w) as [-> [->| ->]]; auto.
  - auto.
  - auto.
  - rewrite strongInv_pauseCurrentStep. auto.
  - rewrite (onlySteps_resumeCurrentStep cm w). auto.
  - auto.
  - auto.
  - unfold prepareReview. destruct (Metadata.estimatedDuration _); [|auto].
    destruct (bool_decide _); auto.
  - auto.
  - unfold handleFailure. destruct (currentStepPred w); auto.
  - auto.
Qed.

Lemma validTransitions_from w trg row :
  In row (validTransitions w trg) -> from row = Workflow.state w.
Proof.
  unfold validTransitions. rewrite filter_In. intros [_ Hb].
  apply andb_true_iff in Hb as [Hb _]. by apply bool_decide_eq_true in Hb.
Qed.

Lemma fire_success now cm (valid : list WorkflowTransition) w w' wr :
  fire now cm valid w = (w', inr wr) ->
  wr = w' /\
  exists row, In row valid /\
    w' = match action row with
         | Some act => fst (act now cm (touch now (to row) w))
         | None => touch now (to row) w
         end.
Proof.
  induction valid as [|row rest IH]; [done|].
  simpl. unfold bind at 1. unfold get at 1.
  destruct (match condition row with Some c => c w | None => true end).
  - unfold bind at 1. unfold modify at 1.
    change (Workflow.set_metadata _ _) with (touch now (to row) w).
    unfold bind at 1. intros H. 
    assert (Hgoal : wr = w' /\ w' = match action row with
         | Some act => fst (act now cm (touch now (to row) w))
         | None => touch now (to row) w
         end).
    { destruct (action row) as [act|].
      - destruct (act now cm (touch now (to row) w)) as [w1 [err|[]]]; [done|].
        unfold get in H. by injection H as <- <-.
      - unfold ret, get in H. by injection H as <- <-. }
    destruct Hgoal. split; [done|]. exists row. split; [by left|done].
  - intros H. destruct (IH H) as [? (r & ? & ?)]. split; [done|]. exists r. split; [by right|done].
Qed.

(** X2. A transition that succeeds follows the table: the workflow it
    returns is the one stored under the id, its [updatedAt] is the date of
    the call, and its state is the target of a row of the table for the
    state before and the trigger. The one exception is [start] on a
    draft, which [prepareWorkflow] may take on to [running] at once. *)
Theorem transition_follows_table (e e' : WorkflowEngine.t) (now : JS.Time)
  (workflowId : string) (trg : Trigger.t) (w w' : Workflow.t) :
  workflows e !! workflowId = Some w ->
  transition now workflowId trg e = (e', inr w') ->
  workflows e' !! workflowId = Some w' /\
  Metadata.updatedAt (Workflow.metadata w') = now /\
  exists row, In row transitions /\
    from row = Workflow.state w /\ trigger row = trg /\
    (Workflow.state w' = to row \/
     Workflow.state w = WorkflowState.draft /\ trg = Trigger.start /\
     Workflow.state w' = WorkflowState.running).
Proof.
  intros Hw. rewrite (transition_unfold _ _ _ _ _ Hw).
  destruct (validTransitions w trg) as [|row0 rest] eqn:Hv; [done|].
  destruct (fire now (contextManager e) (row0 :: rest) w) as [w1 r] eqn:Hfire.
  intros [= <- ->]. apply fire_success in Hfire as [<- (row & Hrow & Hw')].
  rewrite <- Hv in Hrow.
  pose proof (validTransitions_from _ _ _ Hrow) as Hfrom.
  apply validTransitions_spec in Hrow as [Hin Htrg].
  split; [simpl; by rewrite lookup_insert_eq|].
  destruct (action row) as [act|] eqn:Hact.
  - destruct (action_state now (contextManager e) row act (touch now (to row) w) Hin Hact)
      as [Hdate Hstate]. cbv zeta in *. rewrite <- Hw' in *. simpl in Hdate, Hstate.
    split; [by destruct Hdate|]. exists row. repeat split; try done.
    destruct Hstate as [->|(Hd & Hs & ->)]; [by left|right].
    repeat split; congruence.
  - rewrite Hw'. simpl. split; [done|]. exists row. repeat split; try done. by left.
Qed.

Lemma executeStep_state now workflowId stepId sessionId (e : WorkflowEngine.t) :
  related sameState e (fst (executeStep now workflowId stepId sessionId e)).
Proof. apply stable_executeStep; try done. unfold sameState. congruence. Qed.

Lemma completeStep_state now workflowId stepId outputs artifacts (e : WorkflowEngine.t) :
  related toReview e (fst (completeStep now workflowId stepId outputs artifacts e)).
Proof.
  assert (Hrefl : forall w, toReview w w) by (by left).
  destruct (workflows e !! workflowId) as [w|] eqn:Hw.
  - pose proof (fun w' => related_store toReview Hrefl workflowId w w' e Hw) as Hstore.
    destruct (List.find (has_id stepId) (Workflow.steps w)) as [step|] eqn:Hfind.
    + destruct (completeStep_unfold now workflowId stepId outputs artifacts e w step Hw Hfind)
        as [->|[err [-> _]]].
      * cbv zeta. destruct (allStepsComplete _).
        -- destruct (bool_decide _) eqn:Hrun; simpl; apply Hstore; [|by left].
           apply bool_decide_eq_true in Hrun. right. split; [done|].
           unfold prepareReview. simpl. destruct (Metadata.estimatedDuration _); [|done].
           by destruct (bool_decide _).
        -- simpl. apply Hstore. by left.
      * simpl. apply Hstore. by left.
    + destruct (completeStep_unknown now workflowId stepId outputs artifacts e) as [err ->].
      * by rewrite Hw.
      * by apply related_refl.
  - destruct (completeStep_unknown now workflowId stepId outputs artifacts e) as [err ->].
    + by rewrite Hw.
    + by apply related_refl.
Qed.

(** X3. The states [completed], [failed] and [cancelled] are final: every
    trigger is an invalid transition that changes nothing, and neither
    [executeStep] nor [completeStep], on this or on another workflow,
    changes the state, although they have no check on it. *)
Theorem terminal_state_absorbing (e : WorkflowEngine.t) (workflowId : string) (w : Workflow.t) :
  workflows e !! workflowId = Some w ->
  Workflow.state w = WorkflowState.completed \/ Workflow.state w = WorkflowState.failed \/
  Workflow.state w = WorkflowState.cancelled ->
  (forall now trg, transition now workflowId trg e = (e, inl InvalidTransition)) /\
  (forall now k stepId sessionId,
     Workflow.state <$> workflows (fst (executeStep now k stepId sessionId e)) !! workflowId
     = Some (Workflow.state w)) /\
  (forall now k stepId outputs artifacts,
     Workflow.state <$> workflows (fst (completeStep now k stepId outputs artifacts e))
                          !! workflowId
     = Some (Workflow.state w)).
Proof.
  intros Hw Hstate. repeat split.
  - intros now trg. rewrite (transition_unfold _ _ _ _ _ Hw).
    unfold validTransitions.
    destruct Hstate as [->|[->| ->]]; by destruct trg.
  - intros now k stepId sid.
    pose proof (executeStep_state now k stepId sid e workflowId) as H.
    rewrite Hw in H. inversion H as [? w' HR|]; subst. simpl. by rewrite HR.
  - intros now k stepId outputs arts.
    pose proof (completeStep_state now k stepId outputs arts e workflowId) as H.
    rewrite Hw in H. inversion H as [? w' HR|]; subst. simpl.
    destruct HR as [->|[Hrun _]]; [done|].
    rewrite Hrun in Hstate. by destruct Hstate as [|[|]].
Qed.

Lemma checkDependencies_same (w w' : Workflow.t) (s s' : WorkflowStep.t) :
  Forall2 sameCompleted (Workflow.steps w) (Workflow.steps w') ->
  WorkflowStep.dependencies s' = WorkflowStep.dependencies s ->
  checkDependencies w' s' = checkDependencies w s.
Proof.
  intros Hsteps Hdeps. unfold checkDependencies. rewrite Hdeps.
  apply forallb_pointwise. intros d. by apply dependencyCompleted_same.
Qed.

Lemma sameCompleted_refl s : sameCompleted s s.
Proof. by repeat split. Qed.

Lemma sameCompleted_trans s1 s2 s3 :
  sameCompleted s1 s2 -> sameCompleted s2 s3 -> sameCompleted s1 s3.
Proof. intros (?&?&?) (?&?&?). repeat split; try congruence; tauto. Qed.

Lemma prepareWorkflow_promotes w :
  forall s, In s (Workflow.steps (prepareWorkflow w)) -> waiting (prepareWorkflow w) s = false.
Proof.
  unfold prepareWorkflow. rewrite prepare_loop.
  set (w1 := Workflow.set_steps (map (promote w) (Workflow.steps w)) w).
  assert (Hsame : Forall2 sameCompleted (Workflow.steps w) (Workflow.steps w1)).
  { simpl. apply Forall2_fmap_r, Forall_Forall2_diag, Forall_forall.
    intros s _. apply promote_sameCompleted. }
  assert (H1 : forall s, In s (Workflow.steps w1) -> waiting w1 s = false).
  { intros s Hs. simpl in Hs. apply in_map_iff in Hs as (s0 & <- & _).
    unfold waiting.
    rewrite (checkDependencies_same w w1 s0 (promote w s0) Hsame)
      by (unfold promote; by destruct (_ && _)).
    unfold promote. destruct (checkDependencies w s0) eqn:Hc; simpl; [|apply andb_false_r].
    destruct (has_status StepStatus.pending s0) eqn:Hp; simpl; [done|].
    by rewrite Hp. }
  cbv zeta. destruct (existsb _ _); [|exact H1].
  set (w2 := Workflow.set_state WorkflowState.running w1).
  assert (Hsame2 : Forall2 sameCompleted (Workflow.steps w1) (Workflow.steps (startNextStep w2))).
  { simpl. apply modify_first_Forall2; [apply sameCompleted_refl|].
    intros s Hs. apply find_some in Hs as [_ Hs].
    apply (startable_not_completed w2) in Hs. repeat split; simpl; done. }
  intros s Hs. unfold waiting.
  simpl in Hs. apply In_modify_first in Hs as [Hs|(s0 & Hs0 & _ & ->)].
  - rewrite (checkDependencies_same w1 (startNextStep w2) s s Hsame2 eq_refl).
    by apply H1.
  - done.
Qed.

(** X4. Right after the [start] of a valid draft, [getWorkflowStatus]
    reports no ready step: what it calls ready is a pending step whose
    dependencies are met, and [prepareWorkflow] has just set every such
    step to [ready]. The blocked steps it reports are all the steps
    still pending. *)
Theorem start_reports_no_ready_step (e : WorkflowEngine.t) (now : JS.Time)
  (workflowId : string) (w : Workflow.t) :
  workflows e !! workflowId = Some w ->
  Workflow.state w = WorkflowState.draft ->
  validateWorkflow w = true ->
  let r := transition now workflowId Trigger.start e in
  exists w' st, snd r = inr w' /\
    getWorkflowStatus workflowId (fst r) = inr st /\
    WorkflowStatus.workflow st = w' /\
    WorkflowStatus.readySteps st = [] /\
    WorkflowStatus.blockedSteps st =
      List.filter (has_status StepStatus.pending) (Workflow.steps w').
Proof.
  intros Hw Hstate Hvalid r. unfold r.
  rewrite (transition_draft_start now workflowId e w Hw Hstate Hvalid). cbv zeta.
  set (w' := prepareWorkflow _). exists w'. eexists. split; [done|].
  unfold getWorkflowStatus. simpl. rewrite lookup_insert_eq. split; [done|]. simpl.
  pose proof (prepareWorkflow_promotes (touch now WorkflowState.ready w)) as Hnone.
  fold w' in Hnone. split; [done|]. split.
  - change (List.filter (waiting w') (Workflow.steps w') = []).
    revert Hnone. generalize (Workflow.steps w'). intros l Hl.
    induction l as [|s l IH]; [done|]. simpl.
    rewrite (Hl s (or_introl eq_refl)). apply IH. intros s' Hs'. apply Hl. by right.
  - apply filter_ext_in. intros s Hs. apply Hnone in Hs. unfold waiting in Hs.
    destruct (has_status StepStatus.pending s); [|done]. simpl in *. by rewrite Hs.
Qed.

Lemma executeStep_unfold now workflowId stepId sessionId (e : WorkflowEngine.t)
  (w : Workflow.t) (s : WorkflowStep.t) :
  workflows e !! workflowId = Some w ->
  List.find (has_id stepId) (Workflow.steps w) = Some s ->
  checkDependencies w s = true ->
  executeStep now workflowId stepId sessionId e =
  match sessionId with
  | Some sid =>
      if JS.truthy sid
      then (store workflowId (Workflow.set_sessionId (Some sid) (started now stepId w)) e,
            if ContextManager.has (contextManager e) sid then inr tt
            else inl (SessionNotFound sid))
      else (store workflowId (started now stepId w) e, inr tt)
  | None => (store workflowId (started now stepId w) e, inr tt)
  end.
Proof.
  intros Hw Hfind Hcheck. unfold executeStep, onWorkflow. rewrite Hw.
  unfold bind at 1. unfold get at 1. rewrite Hfind, Hcheck.
  change (negb true) with false. cbv beta iota.
  unfold bind at 1. unfold modify at 1.
  destruct sessionId as [sid|]; [|done].
  destruct (JS.truthy sid); [|done].
  unfold bind, modify, ContextManager.updateTaskContext.
  by destruct (ContextManager.has _ _).
Qed.

(** X5. [executeStep] throws before it changes anything when the
    workflow is unknown, when the workflow has no step of that id, and
    when a dependency of the step is not completed; the engine is then
    as it was. *)
Theorem executeStep_rejections (e : WorkflowEngine.t) (now : JS.Time)
  (workflowId stepId : string) (sessionId : option string) :
  let r := executeStep now workflowId stepId sessionId e in
  (workflows e !! workflowId = None -> r = (e, inl (WorkflowNotFound workflowId))) /\
  (forall w, workflows e !! workflowId = Some w ->
     List.find (has_id stepId) (Workflow.steps w) = None ->
     r = (e, inl (StepNotFound stepId))) /\
  (forall w s, workflows e !! workflowId = Some w ->
     List.find (has_id stepId) (Workflow.steps w) = Some s ->
     checkDependencies w s = false ->
     r = (e, inl (DependenciesNotMet stepId))).
Proof.
  cbv zeta. unfold executeStep, onWorkflow. repeat split.
  - by intros ->.
  - intros w Hw Hfind. rewrite Hw. unfold bind, get. rewrite Hfind. simpl.
    by rewrite set_workflows_id.
  - intros w s Hw Hfind Hcheck. rewrite Hw. unfold bind, get. rewrite Hfind, Hcheck. simpl.
    by rewrite set_workflows_id.
Qed.

(** X6. When the step is found and its dependencies are met,
    [executeStep] sets it to [running] with the date of the call, makes it
    the current step and leaves the state of the workflow alone, whatever
    the status of the step was. A session id that is given is linked to
    the workflow first and checked afterwards: with a session the context
    manager does not know the call throws, and the step stays started. *)
Theorem executeStep_starts_step (e : WorkflowEngine.t) (now : JS.Time)
  (workflowId stepId : string) (sessionId : option string)
  (w : Workflow.t) (s : WorkflowStep.t) :
  workflows e !! workflowId = Some w ->
  List.find (has_id stepId) (Workflow.steps w) = Some s ->
  checkDependencies w s = true ->
  let r := executeStep now workflowId stepId sessionId e in
  exists w', workflows (fst r) !! workflowId = Some w' /\
    List.find (has_id stepId) (Workflow.steps w') =
      Some (WorkflowStep.set_startedAt (Some now)
              (WorkflowStep.set_status StepStatus.running s)) /\
    Workflow.currentStepId w' = Some stepId /\
    Workflow.state w' = Workflow.state w /\
    (sessionId = None \/ sessionId = Some "" ->
     snd r = inr tt /\ Workflow.sessionId w' = Workflow.sessionId w) /\
    (forall sid, sessionId = Some sid -> sid <> "" ->
     Workflow.sessionId w' = Some sid /\
     snd r = if ContextManager.has (contextManager e) sid then inr tt
             else inl (SessionNotFound sid)).
Proof.
  intros Hw Hfind Hcheck r. unfold r.
  rewrite (executeStep_unfold now workflowId stepId sessionId e w s Hw Hfind Hcheck).
  assert (Hstep : List.find (has_id stepId) (Workflow.steps (started now stepId w)) =
                  Some (markRunning now s)).
  { simpl. apply find_modify_first_same; [done|]. by apply find_some in Hfind as [_ ?]. }
  assert (Hempty : forall sid, JS.truthy sid = false -> sid = "").
  { intros sid H. unfold JS.truthy in H. by apply negb_false_iff, String.eqb_eq in H. }
  destruct sessionId as [sid|]; [destruct (JS.truthy sid) eqn:Htruthy|];
    eexists; (split; [apply store_lookup|]); (split; [exact Hstep|]);
    (split; [done|]); (split; [done|]); split.
  - intros [[=]|[= ->]]. discriminate Htruthy.
  - by intros ? [= <-] _.
  - done.
  - intros ? [= <-] Hne. by apply Hempty in Htruthy.
  - done.
  - by intros ? [=].
Qed.

Lemma find_has_id_NoDup (l : list WorkflowStep.t) (s : WorkflowStep.t) :
  NoDup (map WorkflowStep.id l) -> In s l ->
  List.find (has_id (WorkflowStep.id s)) l = Some s.
Proof.
  induction l as [|x l IH]; [done|]. simpl. intros Hnd Hin.
  apply NoDup_cons in Hnd as [Hx Hnd]. unfold has_id at 1. case_bool_decide as Hid.
  - destruct Hin as [->|Hin]; [done|]. exfalso. apply Hx. rewrite Hid.
    apply list_elem_of_In, in_map. done.
  - destruct Hin as [->|Hin]; [done|]. by apply IH.
Qed.

(** X7. In a workflow whose step ids are distinct, [executeStep] accepts
    every step that [getWorkflowStatus] reports ready and rejects every
    step it reports blocked, with [DependenciesNotMet] and no change;
    every pending step is reported as the one or the other. *)
Theorem reported_steps_and_executeStep (e : WorkflowEngine.t) (now : JS.Time)
  (workflowId : string) (w : Workflow.t) :
  workflows e !! workflowId = Some w ->
  NoDup (map WorkflowStep.id (Workflow.steps w)) ->
  exists st, getWorkflowStatus workflowId e = inr st /\
    WorkflowStatus.workflow st = w /\
    (forall s, In s (WorkflowStatus.readySteps st) ->
       snd (executeStep now workflowId (WorkflowStep.id s) None e) = inr tt) /\
    (forall s sessionId, In s (WorkflowStatus.blockedSteps st) ->
       executeStep now workflowId (WorkflowStep.id s) sessionId e =
         (e, inl (DependenciesNotMet (WorkflowStep.id s)))) /\
    (forall s, In s (Workflow.steps w) ->
       WorkflowStep.status s = StepStatus.pending ->
       In s (WorkflowStatus.readySteps st) \/ In s (WorkflowStatus.blockedSteps st)).
Proof.
  intros Hw Hnd. unfold getWorkflowStatus. rewrite Hw. eexists. split; [done|]. simpl.
  split; [done|]. repeat split.
  - intros s Hs. apply filter_In in Hs as [Hin Hb]. apply andb_true_iff in Hb as [_ Hc].
    by rewrite (executeStep_unfold now workflowId _ None e w s Hw (find_has_id_NoDup _ _ Hnd Hin) Hc).
  - intros s sid Hs. apply filter_In in Hs as [Hin Hb]. apply andb_true_iff in Hb as [_ Hc].
    apply negb_true_iff in Hc.
    by apply (executeStep_rejections e now workflowId (WorkflowStep.id s) sid) with w s;
      [|apply find_has_id_NoDup|].
  - intros s Hin Hp. rewrite !filter_In.
    apply has_status_true in Hp. rewrite Hp. simpl.
    destruct (checkDependencies w s); [left|right]; done.
Qed.

Lemma createWorkflow_lookup now uuid params (e : WorkflowEngine.t) :
  exists w, createWorkflow now uuid params e = (store (uuid 0%nat) w e, inr w) /\
    Workflow.state w = WorkflowState.draft /\
    Workflow.steps w =
      match templateFor e params with
      | Some template =>
          imap (fun i step => instantiate (uuid (S i)) step) (WorkflowTemplate.steps template)
      | None => default [] (p_customSteps params)
      end.
Proof. by eexists. Qed.

(** X8. [createWorkflow] with a template id the engine does not know and
    no custom steps makes a workflow without steps. Such a workflow
    cannot be started, the guard of [start] failing on it every time; all
    other triggers but [cancel] are invalid, and [cancel] succeeds. *)
Theorem workflow_without_steps_only_cancels (e : WorkflowEngine.t) (now0 : JS.Time)
  (uuid : nat -> string) (params : CreateParams) :
  templateFor e params = None ->
  default [] (p_customSteps params) = [] ->
  let e1 := fst (createWorkflow now0 uuid params e) in
  (forall now, transition now (uuid 0%nat) Trigger.start e1 = (e1, inl GuardNotMet)) /\
  (forall now trg, trg <> Trigger.start -> trg <> Trigger.cancel ->
     transition now (uuid 0%nat) trg e1 = (e1, inl InvalidTransition)) /\
  (forall now, exists w', snd (transition now (uuid 0%nat) Trigger.cancel e1) = inr w' /\
     Workflow.state w' = WorkflowState.cancelled).
Proof.
  intros Htemplate Hcustom.
  destruct (createWorkflow_lookup now0 uuid params e) as (w & -> & Hstate & Hsteps).
  rewrite Htemplate, Hcustom in Hsteps. cbv zeta. simpl fst.
  pose proof (store_lookup (uuid 0%nat) w e) as Hw.
  generalize dependent (store (uuid 0%nat) w e). intros e1 Hw.
  repeat split.
  - intros now. rewrite (transition_unfold _ _ _ _ _ Hw).
    unfold validTransitions. rewrite Hstate. simpl.
    unfold bind, get, validateWorkflow. rewrite Hsteps. simpl.
    by rewrite (set_workflows_id _ _ _ Hw).
  - intros now trg Hstart Hcancel. rewrite (transition_unfold _ _ _ _ _ Hw).
    unfold validTransitions. rewrite Hstate. by destruct trg.
  - intros now. rewrite (transition_unfold _ _ _ _ _ Hw).
    unfold validTransitions. rewrite Hstate. simpl. by eexists.
Qed.

(** X9. A workflow made from a known template is a draft whose steps
    are the steps of the template in their order, each with the id drawn
    for it; [getWorkflowStatus] reports as ready the steps without
    dependencies, as blocked all others, and none as completed. *)
Theorem fresh_template_workflow_status (e : WorkflowEngine.t) (now : JS.Time)
  (uuid : nat -> string) (params : CreateParams) (templateId : string)
  (template : WorkflowTemplate.t) :
  p_templateId params = Some templateId -> templateId <> "" ->
  templates e !! templateId = Some template ->
  let r := createWorkflow now uuid params e in
  exists w st, snd r = inr w /\
    getWorkflowStatus (uuid 0%nat) (fst r) = inr st /\
    WorkflowStatus.workflow st = w /\
    Workflow.state w = WorkflowState.draft /\
    (forall i, Workflow.steps w !! i =
               instantiate (uuid (S i)) <$> WorkflowTemplate.steps template !! i) /\
    WorkflowStatus.readySteps st =
      List.filter (fun s => bool_decide (WorkflowStep.dependencies s = [])) (Workflow.steps w) /\
    WorkflowStatus.blockedSteps st =
      List.filter (fun s => negb (bool_decide (WorkflowStep.dependencies s = [])))
                  (Workflow.steps w) /\
    WorkflowStatus.completedSteps st = [].
Proof.
  intros Hid Hne Htemplate r. unfold r.
  destruct (createWorkflow_lookup now uuid params e) as (w & -> & Hstate & Hsteps).
  assert (Hfor : templateFor e params = Some template).
  { unfold templateFor. rewrite Hid. unfold JS.truthy.
    by destruct (String.eqb_spec templateId ""). }
  rewrite Hfor in Hsteps.
  assert (Hpending : Forall (fun s => WorkflowStep.status s = StepStatus.pending)
                            (Workflow.steps w)).
  { apply Forall_forall. intros s Hs. apply list_elem_of_In in Hs. rewrite Hsteps in Hs.
    by apply imap_pending in Hs. }
  assert (Hnone : Forall (fun s => WorkflowStep.status s <> StepStatus.completed)
                         (Workflow.steps w)).
  { eapply Forall_impl; [exact Hpending|]. intros s Hs. by rewrite Hs. }
  exists w. eexists. split; [done|]. unfold getWorkflowStatus, fst.
  rewrite store_lookup. split; [done|]. simpl. split; [done|]. split; [done|].
  split; [intros i; by rewrite Hsteps, list_lookup_imap|].
  rewrite Forall_forall in Hpending. rewrite Forall_forall in Hnone.
  repeat split.
  - apply filter_ext_in. intros s Hs. apply list_elem_of_In in Hs.
    pose proof (Hpending s Hs) as Hp. apply has_status_true in Hp. rewrite Hp. simpl.
    apply checkDependencies_none. by apply Forall_forall.
  - apply filter_ext_in. intros s Hs. apply list_elem_of_In in Hs.
    pose proof (Hpending s Hs) as Hp. apply has_status_true in Hp. rewrite Hp. simpl.
    f_equal. apply checkDependencies_none. by apply Forall_forall.
  - revert Hpending. generalize (Workflow.steps w). intros l Hl.
    induction l as [|s l IH]; [done|]. simpl.
    assert (Hs : has_status StepStatus.completed s = false).
    { apply has_status_false. rewrite (Hl s); [done|]. by left. }
    rewrite Hs. apply IH. intros s' Hs'. apply Hl. by right.
Qed.

Lemma state_prepareReview w : Workflow.state (prepareReview w) = Workflow.state w.
Proof.
  unfold prepareReview. destruct (Metadata.estimatedDuration _); [|done].
  by destruct (bool_decide _).
Qed.

Lemma modify_first_NoDup_In (k : string) (f : WorkflowStep.t -> WorkflowStep.t)
  (l : list WorkflowStep.t) (x : WorkflowStep.t) :
  NoDup (map WorkflowStep.id l) ->
  In x (JS.modify_first (has_id k) f l) ->
  (In x l /\ WorkflowStep.id x <> k) \/
  (exists y, List.find (has_id k) l = Some y /\ x = f y).
Proof.
  induction l as [|a l IH]; [done|]. simpl. intros Hnd.
  apply NoDup_cons in Hnd as [Ha Hnd]. unfold has_id at 1 3. case_bool_decide as Hid.
  - intros [<-|Hx]; [right; by exists a|]. left. split; [by right|].
    intros Hk. apply Ha. rewrite Hid, <- Hk. by apply list_elem_of_In, in_map.
  - intros [<-|Hx]; [left; split; [by left|done]|].
    destruct (IH Hnd Hx) as [[? ?]|?]; [left; split; [by right|done]|by right].
Qed.

Lemma transition_approve now workflowId (e : WorkflowEngine.t) (w : Workflow.t) :
  workflows e !! workflowId = Some w ->
  Workflow.state w = WorkflowState.review ->
  let w' := completeWorkflow now (touch now WorkflowState.completed w) in
  transition now workflowId Trigger.approve e = (store workflowId w' e, inr w').
Proof.
  intros Hw Hst. rewrite (transition_unfold _ _ _ _ _ Hw).
  unfold validTransitions. by rewrite Hst.
Qed.

(** X10. In a running workflow with distinct step ids, completing the
    one step that is neither completed nor skipped succeeds and moves the
    workflow to [review]; [approve] then moves it to [completed] and sets
    the progress to 100. *)
Theorem last_step_moves_to_review (e : WorkflowEngine.t) (now now' : JS.Time)
  (workflowId stepId : string) (outputs : option string)
  (w : Workflow.t) (step : WorkflowStep.t) :
  workflows e !! workflowId = Some w ->
  Workflow.state w = WorkflowState.running ->
  NoDup (map WorkflowStep.id (Workflow.steps w)) ->
  List.find (has_id stepId) (Workflow.steps w) = Some step ->
  (forall s, In s (Workflow.steps w) -> WorkflowStep.id s <> stepId ->
     WorkflowStep.status s = StepStatus.completed \/
     WorkflowStep.status s = StepStatus.skipped) ->
  let r := completeStep now workflowId stepId outputs None e in
  snd r = inr tt /\
  exists w', workflows (fst r) !! workflowId = Some w' /\
    Workflow.state w' = WorkflowState.review /\
    allStepsComplete w' = true /\
    exists w'', transition now' workflowId Trigger.approve (fst r)
                  = (store workflowId w'' (fst r), inr w'') /\
      Workflow.state w'' = WorkflowState.completed /\
      Metrics.progressPercentage (Workflow.metrics w'') = 100.
Proof.
  intros Hw Hrun Hnd Hfind Hothers r. unfold r.
  destruct (completeStep_unfold now workflowId stepId outputs None e w step Hw Hfind)
    as [->|[err [_ ?]]]; [|done].
  cbv zeta.
  assert (Hall : allStepsComplete (completed now stepId outputs w) = true).
  { unfold allStepsComplete. apply forallb_forall. intros s Hs. simpl in Hs.
    apply modify_first_NoDup_In in Hs as [[Hin Hid]|(y & _ & ->)]; [|done|done].
    apply orb_true_iff. rewrite !has_status_true. by apply Hothers. }
  rewrite Hall. rewrite bool_decide_eq_true_2 by done. simpl.
  split; [done|].
  set (w' := prepareReview _).
  assert (Hstate : Workflow.state w' = WorkflowState.review) by apply state_prepareReview.
  exists w'. split; [apply store_lookup|]. split; [done|]. split.
  { unfold allStepsComplete, w'. by rewrite steps_prepareReview. }
  eexists. split; [|split].
  - apply transition_approve; [apply store_lookup|done].
  - done.
  - done.
Qed.

Lemma transition_block now workflowId (e : WorkflowEngine.t) (w : Workflow.t) :
  workflows e !! workflowId = Some w ->
  Workflow.state w = WorkflowState.running \/ Workflow.state w = WorkflowState.ready ->
  let w' := handleBlocker (touch now WorkflowState.blocked w) in
  transition now workflowId Trigger.block e = (store workflowId w' e, inr w').
Proof.
  intros Hw Hst. rewrite (transition_unfold _ _ _ _ _ Hw).
  unfold validTransitions. by destruct Hst as [-> | ->].
Qed.

Lemma transition_unblock now workflowId (e : WorkflowEngine.t) (w : Workflow.t) :
  workflows e !! workflowId = Some w ->
  Workflow.state w = WorkflowState.blocked ->
  let w' := resolveBlocker (touch now WorkflowState.running w) in
  transition now workflowId Trigger.unblock e = (store workflowId w' e, inr w').
Proof.
  intros Hw Hst. rewrite (transition_unfold _ _ _ _ _ Hw).
  unfold validTransitions. by rewrite Hst.
Qed.

(** X11. [block] on a running or a ready workflow moves it to [blocked],
    adds one to [blockerCount] and touches no step; [unblock] then moves
    it to [running], also when it came from [ready], and sets the first
    step that can start to [ready]. *)
Theorem block_then_unblock (e : WorkflowEngine.t) (now1 now2 : JS.Time)
  (workflowId : string) (w : Workflow.t) :
  workflows e !! workflowId = Some w ->
  Workflow.state w = WorkflowState.running \/ Workflow.state w = WorkflowState.ready ->
  let r1 := transition now1 workflowId Trigger.block e in
  let r2 := transition now2 workflowId Trigger.unblock (fst r1) in
  exists w1 w2,
    snd r1 = inr w1 /\ workflows (fst r1) !! workflowId = Some w1 /\
    Workflow.state w1 = WorkflowState.blocked /\
    Workflow.steps w1 = Workflow.steps w /\
    Metrics.blockerCount (Workflow.metrics w1) = Metrics.blockerCount (Workflow.metrics w) + 1 /\
    snd r2 = inr w2 /\ workflows (fst r2) !! workflowId = Some w2 /\
    Workflow.state w2 = WorkflowState.running /\
    Workflow.steps w2 = Workflow.steps (startNextStep w) /\
    Metrics.blockerCount (Workflow.metrics w2) = Metrics.blockerCount (Workflow.metrics w) + 1.
Proof.
  intros Hw Hst r1 r2. unfold r2, r1.
  rewrite (transition_block now1 workflowId e w Hw Hst). cbv zeta. simpl fst.
  set (w1 := handleBlocker _).
  rewrite (transition_unblock now2 workflowId _ w1 (store_lookup _ _ _) eq_refl).
  cbv zeta. exists w1. eexists. simpl fst. simpl snd.
  rewrite !store_lookup. repeat split.
Qed.

Lemma modify_first_fixed {A : Type} (p : A -> bool) (f : A -> A) (l : list A) :
  (forall x, List.find p l = Some x -> f x = x) -> JS.modify_first p f l = l.
Proof.
  induction l as [|a l IH]; [done|]. simpl. destruct (p a).
  - intros H. by rewrite H.
  - intros H. by rewrite IH.
Qed.

Lemma set_status_same (s : WorkflowStep.t) :
  WorkflowStep.set_status (WorkflowStep.status s) s = s.
Proof. by destruct s. Qed.

(** X12. [pause] followed by [resume] gives the workflow back as it was
    but for [updatedAt], when the current step, if there is one, is
    running and the linked session, if there is one, is known to the
    context manager. *)
Theorem pause_resume_round_trip (e : WorkflowEngine.t) (now1 now2 : JS.Time)
  (workflowId : string) (w : Workflow.t) :
  workflows e !! workflowId = Some w ->
  Workflow.state w = WorkflowState.running ->
  (forall s, currentStep w = Some s -> WorkflowStep.status s = StepStatus.running) ->
  (forall sid, linkedSession w = Some sid ->
     ContextManager.has (contextManager e) sid = true) ->
  let r1 := transition now1 workflowId Trigger.pause e in
  let r2 := transition now2 workflowId Trigger.resume (fst r1) in
  let w2 := Workflow.set_metadata (Metadata.set_updatedAt now2 (Workflow.metadata w)) w in
  (exists w1, snd r1 = inr w1 /\ Workflow.state w1 = WorkflowState.paused /\
              Workflow.steps w1 = Workflow.steps w) /\
  r2 = (store workflowId w2 e, inr w2).
Proof.
  intros Hw Hrun Hcur Hsess r1 r2 w2. unfold r2, r1.
  assert (Hctx : forall w0 : Workflow.t,
            match linkedSession w with
            | Some sid => ContextManager.updateTaskContext (contextManager e) sid
            | None => ret tt
            end w0 = (w0, inr tt)).
  { intros w0. destruct (linkedSession w) as [sid|] eqn:Hl; [|done].
    unfold ContextManager.updateTaskContext. by rewrite (Hsess sid eq_refl). }
  assert (Hpause : transition now1 workflowId Trigger.pause e =
                   (store workflowId (touch now1 WorkflowState.paused w) e,
                    inr (touch now1 WorkflowState.paused w))).
  { rewrite (transition_unfold _ _ _ _ _ Hw). unfold validTransitions. rewrite Hrun. simpl.
    unfold bind, get, modify, pauseCurrentStep, bind, get.
    change (currentStepPred (Workflow.set_metadata _ _)) with (currentStepPred w).
    change (linkedSession (Workflow.set_metadata _ _)) with (linkedSession w).
    unfold currentStep in Hcur.
    destruct (currentStepPred w) as [p|]; [|done]. simpl.
    destruct (List.find p (Workflow.steps w)) as [s|]; [|done].
    destruct (has_status StepStatus.running s); [|done].
    by rewrite Hctx. }
  rewrite Hpause. simpl fst. split; [by eexists|].
  rewrite (transition_unfold _ _ _ _ _ (store_lookup _ _ _)).
  unfold validTransitions. simpl.
  unfold bind, get, modify, resumeCurrentStep, bind, get, modify.
  change (currentStepPred (Workflow.set_metadata _ _)) with (currentStepPred w).
  change (linkedSession (Workflow.set_metadata _ _)) with (linkedSession w).
  unfold currentStep in Hcur. simpl.
  assert (Hw2 : forall l, l = Workflow.steps w ->
            Workflow.set_steps l
              (Workflow.set_metadata
                 (Metadata.set_updatedAt now2
                    (Metadata.set_updatedAt now1 (Workflow.metadata w)))
                 (Workflow.set_state WorkflowState.running
                    (Workflow.set_metadata (Metadata.set_updatedAt now1 (Workflow.metadata w))
                       (Workflow.set_state WorkflowState.paused w)))) = w2).
  { intros l ->. unfold w2. destruct w. simpl in *. by subst. }
  assert (Hw3 : Workflow.set_metadata
                 (Metadata.set_updatedAt now2
                    (Metadata.set_updatedAt now1 (Workflow.metadata w)))
                 (Workflow.set_state WorkflowState.running
                    (Workflow.set_metadata (Metadata.set_updatedAt now1 (Workflow.metadata w))
                       (Workflow.set_state WorkflowState.paused w))) = w2).
  { unfold w2. destruct w. simpl in *. by subst. }
  assert (Hfinal : forall (w1 x : Workflow.t), x = w2 ->
            (set_workflows (<[workflowId := x]> (workflows (store workflowId w1 e)))
                           (store workflowId w1 e), inr x : Error + Workflow.t) =
            (store workflowId w2 e, inr w2)).
  { intros w1 x ->. unfold store. simpl. by rewrite insert_insert_eq. }
  destruct (currentStepPred w) as [p|].
  - destruct (List.find p (Workflow.steps w)) as [s|] eqn:Hfind.
    + rewrite Hctx. apply Hfinal, Hw2.
      apply modify_first_fixed. intros x Hx. rewrite Hfind in Hx. injection Hx as <-.
      rewrite <- (Hcur s eq_refl). apply set_status_same.
    + apply Hfinal, Hw3.
  - apply Hfinal, Hw3.
Qed.

(** X13. In every engine that the public operations build, whatever
    their arguments, [stepsTotal] is the number of steps of the workflow,
    and [stepsCompleted] and [blockerCount] are not negative. *)
Theorem built_metrics (e : WorkflowEngine.t) (workflowId : string) (w : Workflow.t) :
  built e -> workflows e !! workflowId = Some w ->
  Metrics.stepsTotal (Workflow.metrics w) = Z.of_nat (length (Workflow.steps w)) /\
  0 <= Metrics.stepsCompleted (Workflow.metrics w) /\
  0 <= Metrics.blockerCount (Workflow.metrics w).
Proof.
  intros Hb Hw. by destruct (built_bookkeeping e workflowId w Hb Hw) as (? & ? & ? & _).
Qed.

(** X14. No workflow of an engine that the public operations build has
    an estimated or an actual duration: [createWorkflow] does not copy
    the estimate of the template, and [prepareReview] computes the actual
    duration only when there is an estimate. *)
Theorem built_records_no_duration (e : WorkflowEngine.t) (workflowId : string)
  (w : Workflow.t) :
  built e -> workflows e !! workflowId = Some w ->
  Metadata.estimatedDuration (Workflow.metadata w) = None /\
  Metadata.actualDuration (Workflow.metadata w) = None.
Proof.
  intros Hb Hw. by destruct (built_bookkeeping e workflowId w Hb Hw) as (_ & _ & _ & ? & ?).
Qed.

Lemma fixedParts_onWorkflow {A : Type} T cm workflowId (m : M Workflow.t A) :
  preserves (fixedParts T cm) (onWorkflow workflowId m).
Proof.
  intros e He. unfold onWorkflow. destruct (workflows e !! workflowId) as [w|]; [|done].
  by destruct (m w).
Qed.

Lemma fixedParts_transition T cm now workflowId trg :
  preserves (fixedParts T cm) (transition now workflowId trg).
Proof. intros e He. unfold transition. by apply fixedParts_onWorkflow. Qed.

Lemma fixedParts_executeStep T cm now workflowId stepId sessionId :
  preserves (fixedParts T cm) (executeStep now workflowId stepId sessionId).
Proof. intros e He. unfold executeStep. by apply fixedParts_onWorkflow. Qed.

Lemma fixedParts_completeStep T cm now workflowId stepId outputs artifacts :
  preserves (fixedParts T cm) (completeStep now workflowId stepId outputs artifacts).
Proof.
  intros e He. unfold completeStep.
  apply (preserves_bind (fixedParts T cm)); [apply fixedParts_onWorkflow| |exact He].
  intros [|].
  - apply preserves_bind; [apply fixedParts_transition|]. intros ?. apply preserves_ret.
  - apply fixedParts_onWorkflow.
Qed.

(** X15. No operation writes the templates: every engine that the
    public operations build has the three default templates and no
    other. *)
Theorem built_keeps_default_templates (e : WorkflowEngine.t) :
  built e -> templates e = loadDefaultTemplates.
Proof.
  intros Hb.
  enough (H : exists cm, fixedParts loadDefaultTemplates cm e) by (by destruct H as [? [? _]]).
  induction Hb as [cm|e now uuid params _ [cm IH]|e now k trg _ [cm IH]
                  |e now k stepId sid _ [cm IH]|e now k stepId outputs arts _ [cm IH]];
    exists cm.
  - done.
  - done.
  - by apply fixedParts_transition.
  - by apply fixedParts_executeStep.
  - by apply fixedParts_completeStep.
Qed.

(** *** The theorems at concrete runs *)

(** The run [e4] is built by the operations. *)
Lemma built_e4 : built Scenario.e4.
Proof.
  apply built_completeStep, built_executeStep, built_transition, built_createWorkflow.
  apply built_new.
Defined.

(** The theorem at the [start] of the run [e1]. *)
Lemma transition_follows_table_witness :
  exists w', workflows Scenario.e2 !! "w" = Some w' /\
             Metadata.updatedAt (Workflow.metadata w') = 1.
Proof.
  destruct (workflows Scenario.e1 !! "w") as [w|] eqn:Hw; [|vm_compute in Hw; discriminate Hw].
  assert (Hrun : exists w', transition 1 "w" Trigger.start Scenario.e1 = (Scenario.e2, inr w')).
  { unfold Scenario.e2, Scenario.r2.
    destruct (transition 1 "w" Trigger.start Scenario.e1) as [e' [err|w']] eqn:Hr.
    - assert (Hsnd : succeeded (transition 1 "w" Trigger.start Scenario.e1) = true)
        by (vm_compute; reflexivity).
      rewrite Hr in Hsnd. discriminate Hsnd.
    - exists w'. reflexivity. }
  destruct Hrun as [w' Hrun].
  destruct (transition_follows_table Scenario.e1 Scenario.e2 1 "w" Trigger.start w w' Hw Hrun)
    as (Hw' & Hdate & _).
  exists w'. split; [exact Hw'|exact Hdate].
Defined.

(** The theorem at the cancelled workflow, started. *)
Lemma terminal_state_absorbing_witness :
  transition 2 "empty" Trigger.start Scenario.cancelled =
    (Scenario.cancelled, inl InvalidTransition).
Proof.
  destruct (workflows Scenario.cancelled !! "empty") as [w|] eqn:Hw;
    [|vm_compute in Hw; discriminate Hw].
  assert (Hstate : Workflow.state w = WorkflowState.cancelled).
  { vm_compute in Hw. injection Hw as <-. reflexivity. }
  apply (proj1 (terminal_state_absorbing Scenario.cancelled "empty" w Hw
                  (or_intror (or_intror Hstate)))).
Defined.

(** The theorem at the run [e1], a draft fresh from the template. *)
Lemma start_reports_no_ready_step_witness :
  exists st, getWorkflowStatus "w" Scenario.e2 = inr st /\ WorkflowStatus.readySteps st = [].
Proof.
  destruct (workflows Scenario.e1 !! "w") as [w|] eqn:Hw; [|vm_compute in Hw; discriminate Hw].
  assert (Hdraft : Workflow.state w = WorkflowState.draft /\ validateWorkflow w = true).
  { vm_compute in Hw. injection Hw as <-. split; reflexivity. }
  destruct (start_reports_no_ready_step Scenario.e1 1 "w" w Hw (proj1 Hdraft) (proj2 Hdraft))
    as (w' & st & _ & Hst & _ & Hready & _).
  exists st. split; [exact Hst|exact Hready].
Defined.

(** The theorem at the run [e1] and a workflow id it does not hold. *)
Lemma executeStep_rejections_witness :
  executeStep 1 "nobody" "s1" None Scenario.e1 = (Scenario.e1, inl (WorkflowNotFound "nobody")).
Proof.
  apply (proj1 (executeStep_rejections Scenario.e1 1 "nobody" "s1" None)).
  vm_compute. reflexivity.
Defined.

(** The theorem at the run [e2] and its first step. *)
Lemma executeStep_starts_step_witness :
  exists w', workflows Scenario.e3 !! "w" = Some w' /\
             Workflow.currentStepId w' = Some "s1" /\
             Scenario.r3 = (Scenario.e3, inr tt).
Proof.
  destruct (workflows Scenario.e2 !! "w") as [w|] eqn:Hw; [|vm_compute in Hw; discriminate Hw].
  destruct (List.find (has_id "s1") (Workflow.steps w)) as [s|] eqn:Hfind.
  2: { exfalso. pose proof Hw as Hw0. vm_compute in Hw0. injection Hw0 as Hw0. subst w.
       vm_compute in Hfind. discriminate Hfind. }
  assert (Hcheck : checkDependencies w s = true).
  { pose proof Hw as Hw0. vm_compute in Hw0. injection Hw0 as Hw0. subst w.
    vm_compute in Hfind. injection Hfind as <-. reflexivity. }
  destruct (executeStep_starts_step Scenario.e2 2 "w" "s1" None w s Hw Hfind Hcheck)
    as (w' & Hw' & _ & Hcurrent & _ & Hnone & _).
  exists w'. split; [exact Hw'|]. split; [exact Hcurrent|].
  destruct (Hnone (or_introl eq_refl)) as [Hsnd _].
  unfold Scenario.e3, Scenario.r3 in *.
  destruct (executeStep 2 "w" "s1" None Scenario.e2) as [e' r]. simpl in Hsnd.
  simpl. rewrite Hsnd. reflexivity.
Defined.

(** The theorem at the run [e1], where all steps but the first are blocked. *)
Lemma reported_steps_and_executeStep_witness :
  exists st, getWorkflowStatus "w" Scenario.e1 = inr st /\
    forall s sessionId, In s (WorkflowStatus.blockedSteps st) ->
      executeStep 1 "w" (WorkflowStep.id s) sessionId Scenario.e1 =
        (Scenario.e1, inl (DependenciesNotMet (WorkflowStep.id s))).
Proof.
  destruct (workflows Scenario.e1 !! "w") as [w|] eqn:Hw; [|vm_compute in Hw; discriminate Hw].
  assert (Hnd : NoDup (map WorkflowStep.id (Workflow.steps w))).
  { pose proof Hw as Hw0. vm_compute in Hw0. injection Hw0 as Hw0. subst w.
    apply (bool_decide_unpack _). vm_compute. exact I. }
  destruct (reported_steps_and_executeStep Scenario.e1 1 "w" w Hw Hnd)
    as (st & Hst & _ & _ & Hblocked & _).
  exists st. split; [exact Hst|exact Hblocked].
Defined.

(** The theorem at a template id with a typing error. *)
Lemma workflow_without_steps_only_cancels_witness :
  transition 1 "typo" Trigger.start Scenario.typo = (Scenario.typo, inl GuardNotMet).
Proof.
  apply (proj1 (workflow_without_steps_only_cancels Scenario.e0 0 (fun _ => "typo")
                  Scenario.typoParams eq_refl eq_refl)).
Defined.

(** The theorem at the feature-development template. *)
Lemma fresh_template_workflow_status_witness :
  exists st, getWorkflowStatus "w" Scenario.e1 = inr st /\
             WorkflowStatus.completedSteps st = [].
Proof.
  assert (Hne : "feature-development" <> "") by discriminate.
  destruct (fresh_template_workflow_status Scenario.e0 0 Scenario.uuid Scenario.featureParams
              "feature-development" featureDevelopment eq_refl Hne eq_refl)
    as (w & st & _ & Hst & _ & _ & _ & _ & _ & Hcompleted).
  exists st. split; [exact Hst|exact Hcompleted].
Defined.

(** The theorem at the running workflow of one step. *)
Lemma last_step_moves_to_review_witness :
  snd (completeStep 2 "solo" "only" None None Scenario.solo1) = inr tt /\
  exists w', workflows (fst (completeStep 2 "solo" "only" None None Scenario.solo1))
               !! "solo" = Some w' /\
             Workflow.state w' = WorkflowState.review.
Proof.
  destruct (workflows Scenario.solo1 !! "solo") as [w|] eqn:Hw;
    [|vm_compute in Hw; discriminate Hw].
  pose proof Hw as Hw0. vm_compute in Hw0. injection Hw0 as Hw0.
  destruct (List.find (has_id "only") (Workflow.steps w)) as [step|] eqn:Hfind;
    [|subst w; vm_compute in Hfind; discriminate Hfind].
  assert (Hrun : Workflow.state w = WorkflowState.running) by (by subst w).
  assert (Hnd : NoDup (map WorkflowStep.id (Workflow.steps w))).
  { subst w. apply (bool_decide_unpack _). vm_compute. exact I. }
  assert (Hothers : forall s, In s (Workflow.steps w) -> WorkflowStep.id s <> "only" ->
                      WorkflowStep.status s = StepStatus.completed \/
                      WorkflowStep.status s = StepStatus.skipped).
  { subst w. intros s [<-|[]] Hid. by destruct Hid. }
  destruct (last_step_moves_to_review Scenario.solo1 2 3 "solo" "only" None w step
              Hw Hrun Hnd Hfind Hothers) as (Hsnd & w' & Hw' & Hstate & _).
  split; [exact Hsnd|]. exists w'. split; [exact Hw'|exact Hstate].
Defined.

(** The theorem at the run [e2], a running workflow. *)
Lemma block_then_unblock_witness :
  exists w2, snd (transition 3 "w" Trigger.unblock
                    (fst (transition 2 "w" Trigger.block Scenario.e2))) = inr w2 /\
             Workflow.state w2 = WorkflowState.running.
Proof.
  destruct (workflows Scenario.e2 !! "w") as [w|] eqn:Hw; [|vm_compute in Hw; discriminate Hw].
  assert (Hrun : Workflow.state w = WorkflowState.running).
  { vm_compute in Hw. injection Hw as <-. reflexivity. }
  destruct (block_then_unblock Scenario.e2 2 3 "w" w Hw (or_introl Hrun))
    as (w1 & w2 & _ & _ & _ & _ & _ & Hsnd & _ & Hstate & _).
  exists w2. split; [exact Hsnd|exact Hstate].
Defined.

(** The theorem at the run [e3], whose current step is running. *)
Lemma pause_resume_round_trip_witness :
  exists w, workflows Scenario.e3 !! "w" = Some w /\
    snd (transition 4 "w" Trigger.resume (fst (transition 3 "w" Trigger.pause Scenario.e3))) =
      inr (Workflow.set_metadata (Metadata.set_updatedAt 4 (Workflow.metadata w)) w).
Proof.
  destruct (workflows Scenario.e3 !! "w") as [w|] eqn:Hw; [|vm_compute in Hw; discriminate Hw].
  pose proof Hw as Hw0. vm_compute in Hw0. injection Hw0 as Hw0.
  assert (Hrun : Workflow.state w = WorkflowState.running) by (by subst w).
  assert (Hcur : forall s, currentStep w = Some s ->
                           WorkflowStep.status s = StepStatus.running).
  { subst w. intros s Hs. vm_compute in Hs. injection Hs as <-. reflexivity. }
  assert (Hsess : forall sid, linkedSession w = Some sid ->
                    ContextManager.has (contextManager Scenario.e3) sid = true).
  { subst w. intros sid Hs. vm_compute in Hs. discriminate Hs. }
  exists w. split; [reflexivity|].
  destruct (pause_resume_round_trip Scenario.e3 3 4 "w" w Hw Hrun Hcur Hsess) as [_ Hr2].
  exact (f_equal snd Hr2).
Defined.

(** The theorem at the run [e4]. *)
Lemma built_metrics_witness :
  exists w, workflows Scenario.e4 !! "w" = Some w /\
    Metrics.stepsTotal (Workflow.metrics w) = Z.of_nat (length (Workflow.steps w)).
Proof.
  destruct (workflows Scenario.e4 !! "w") as [w|] eqn:Hw; [|vm_compute in Hw; discriminate Hw].
  exists w. split; [reflexivity|].
  exact (proj1 (built_metrics Scenario.e4 "w" w built_e4 Hw)).
Defined.

(** The theorem at the run [e4], with one step completed. *)
Lemma built_records_no_duration_witness :
  exists w, workflows Scenario.e4 !! "w" = Some w /\
    Metadata.actualDuration (Workflow.metadata w) = None.
Proof.
  destruct (workflows Scenario.e4 !! "w") as [w|] eqn:Hw; [|vm_compute in Hw; discriminate Hw].
  exists w. split; [reflexivity|].
  exact (proj2 (built_records_no_duration Scenario.e4 "w" w built_e4 Hw)).
Defined.

(** The theorem at the run [e4], for its templates. *)
Lemma built_keeps_default_templates_witness :
  templates Scenario.e4 = loadDefaultTemplates.
Proof. exact (built_keeps_default_templates Scenario.e4 built_e4). Defined.

End WorkflowEngineBehaviour.

(** ** Agent orchestrator: what the operations do and keep *)

Module AgentOrchestratorBehaviour.
Import Facts AgentOrchestrator AgentOrchestratorProofs.

(** The queue after [selectRoundRobin]: the ids in front that are no
    candidates are moved behind, in their order, and the id that is
    chosen behind them. *)
Lemma turnQueue_Some (candidates : list Agent.t) (front back : list string)
  (a : Agent.t) (queue : list string) :
  turnQueue candidates front back = Some (a, queue) ->
  exists skipped agentId rest,
    front = skipped ++ agentId :: rest /\
    Forall (fun x => List.find (is_agent x) candidates = None) skipped /\
    List.find (is_agent agentId) candidates = Some a /\
    queue = rest ++ back ++ skipped ++ [agentId].
Proof.
  revert back. induction front as [|x front IH]; [done|]. intros back. simpl.
  destruct (List.find (is_agent x) candidates) as [b|] eqn:Hfind.
  - intros [= <- <-]. by exists [], x, front.
  - intros H. apply IH in H as (skipped & agentId & rest & -> & Hsk & Ha & ->).
    exists (x :: skipped), agentId, rest. repeat split; try done.
    + by constructor.
    + by rewrite <- !app_assoc.
Qed.

Lemma turnQueue_None (candidates : list Agent.t) (front back : list string) :
  turnQueue candidates front back = None ->
  Forall (fun x => List.find (is_agent x) candidates = None) front.
Proof.
  revert back. induction front as [|x front IH]; [done|]. intros back. simpl.
  destruct (List.find (is_agent x) candidates) as [b|] eqn:Hfind; [done|].
  intros H. constructor; [done|]. by apply IH in H.
Qed.

Lemma turnQueue_Permutation (candidates : list Agent.t) (front : list string)
  (a : Agent.t) (queue : list string) :
  turnQueue candidates front [] = Some (a, queue) -> queue ≡ₚ front.
Proof.
  intros H. apply turnQueue_Some in H as (skipped & agentId & rest & -> & _ & _ & ->).
  simpl. rewrite (Permutation_app_comm rest). by rewrite <- app_assoc.
Qed.

Section Roster.

Variable P : t -> Prop.
Variable fits : (Agent.t -> Agent.t) -> Prop.

Hypothesis P_rest : forall o o',
  agents o' = agents o -> agentQueue o' = agentQueue o -> P o -> P o'.
Hypothesis P_alter : forall agentId f o, fits f -> P o -> P (alterAgent agentId f o).
Hypothesis P_turn : forall o queue, queue ≡ₚ agentQueue o -> P o -> P (set_agentQueue queue o).
Hypothesis fits_status : forall status, fits (Agent.set_status status).
Hypothesis fits_pushTask : forall taskId, fits (pushTask taskId).
Hypothesis fits_clearTasks : fits clearTasks.
Hypothesis fits_completeAgentTask : forall taskId d, fits (completeAgentTask taskId d).
Hypothesis fits_failAgentTask : forall taskId, fits (failAgentTask taskId).

Lemma roster_reassignTask taskId (o : t) : P o -> P (reassignTask taskId o).
Proof.
  intros Ho. unfold reassignTask.
  destruct (assignments o !! taskId) as [asg|]; [|done].
  destruct (selectLeastLoaded _) as [newAgent|].
  - apply P_alter; [apply fits_pushTask|]. by apply (P_rest o).
  - by apply (P_rest o).
Qed.

Lemma roster_resumeReassign k (o : t) : P o -> P (fst (resumeReassign k o)).
Proof.
  intros Ho. unfold resumeReassign. destruct (s_tasks k) as [|taskId rest]; simpl.
  - by apply P_alter.
  - by apply roster_reassignTask.
Qed.

Lemma roster_updateAgentStatus agentId status (o : t) :
  P o -> P (fst (updateAgentStatus agentId status o)).
Proof.
  intros Ho. unfold updateAgentStatus. destruct (getAgent agentId o); [|done].
  assert (H1 : P (alterAgent agentId (Agent.set_status status) o)) by by apply P_alter.
  destruct (_ || _); [|done].
  unfold reassignAgentTasks. destruct (getAgent agentId _) as [a|]; [|done].
  destruct (Agent.activeTasks a) as [|taskId rest] eqn:Htasks.
  - simpl. by apply P_alter.
  - by apply roster_resumeReassign.
Qed.

Lemma roster_settle (r : t * option Suspended) : P (fst r) -> P (settle r).
Proof.
  destruct r as [o [k|]]; [|done]. simpl. generalize (s_tasks k). intros tasks. revert o.
  induction tasks as [|taskId rest IH]; intros o Ho; simpl.
  - by apply P_alter.
  - by apply IH, roster_reassignTask.
Qed.

Lemma roster_selectAgent required preferred : preserves P (selectAgent required preferred).
Proof.
  unfold selectAgent. apply preserves_bind; [apply preserves_get|]. intros o.
  destruct (preferredEligible o preferred); [apply preserves_ret|].
  destruct (List.filter eligible (agents o)) as [|c cs]; [apply preserves_ret|].
  destruct (loadBalancingStrategy o); try apply preserves_ret.
  unfold selectRoundRobin. intros o' Ho'. unfold bind, get.
  destruct (agentQueue o') eqn:Hq; [done|].
  destruct (turnQueue _ _ _) as [[selected queue]|] eqn:Hturn; [|done].
  simpl. apply P_turn; [|done]. rewrite Hq. by apply turnQueue_Permutation in Hturn.
Qed.

Lemma roster_assignTask now params : preserves P (assignTask now params).
Proof.
  unfold assignTask. apply preserves_bind; [apply roster_selectAgent|].
  intros [agent|]; [|apply preserves_throw].
  apply preserves_bind.
  { apply preserves_modify. intros st. by apply P_alter. }
  intros _. apply preserves_bind; [|intros; apply preserves_ret].
  apply preserves_modify. intros st. by apply P_rest.
Qed.

Lemma roster_startTask now taskId sessionId : preserves P (startTask now taskId sessionId).
Proof.
  unfold startTask. apply preserves_bind; [apply preserves_get|]. intros o.
  destruct (assignments o !! taskId); [|apply preserves_throw].
  apply preserves_bind.
  { apply preserves_modify. intros st. by apply P_rest. }
  intros _. destruct (truthyId sessionId);
    [apply preserves_updateTaskContext|apply preserves_ret].
Qed.

Lemma roster_onEngine {A : Type} (m : M WorkflowEngine.t A) : preserves P (onEngine m).
Proof.
  intros o Ho. unfold onEngine. destruct (m (workflowEngine o)) as [e r]. simpl.
  by apply (P_rest o).
Qed.

Lemma roster_completeTask now taskId output sessionId :
  preserves P (completeTask now taskId output sessionId).
Proof.
  unfold completeTask. apply preserves_bind; [apply preserves_get|]. intros o.
  destruct (assignments o !! taskId) as [asg|]; [|apply preserves_throw].
  destruct (getAgent _ o); [|apply preserves_throw].
  apply preserves_bind.
  { apply preserves_modify. intros st. by apply P_rest. }
  intros _. apply preserves_bind.
  { apply preserves_modify. intros st. by apply P_alter. }
  intros _. apply preserves_bind.
  { destruct (truthyId (TaskAssignment.workflowId asg)); [|apply preserves_ret].
    destruct (truthyId (TaskAssignment.stepId asg)); [|apply preserves_ret].
    apply roster_onEngine. }
  intros _. destruct (truthyId sessionId);
    [apply preserves_updateTaskContext|apply preserves_ret].
Qed.

Lemma roster_failTask now taskId err retry : preserves P (failTask now taskId err retry).
Proof.
  unfold failTask. apply preserves_bind; [apply preserves_get|]. intros o.
  destruct (assignments o !! taskId) as [asg|]; [|apply preserves_throw].
  apply preserves_bind.
  { apply preserves_modify. intros st. by apply P_alter. }
  intros _. apply preserves_bind.
  { apply preserves_modify. intros st. by apply P_rest. }
  intros _. destruct (_ && _); apply preserves_modify; intros st.
  - apply roster_reassignTask.
  - by apply P_rest.
Qed.

Lemma roster_built (c : t * option Suspended) :
  (forall cm e strategy, P (new cm e strategy)) ->
  (forall agent o, P o -> P (registerAgent agent o)) ->
  built c -> P (fst c).
Proof.
  intros Hnew Hregister Hreach.
  induction Hreach as [cm e strategy | agent o0 _ IH | agentId status o0 _ IH
                       | k0 o0 _ IH | now params o0 _ IH | now taskId sessionId o0 _ IH
                       | now taskId output sessionId o0 _ IH | now taskId err retry o0 _ IH];
    simpl in *.
  - apply Hnew.
  - by apply Hregister.
  - by apply roster_updateAgentStatus.
  - by apply roster_resumeReassign.
  - by apply roster_assignTask.
  - by apply roster_startTask.
  - by apply roster_completeTask.
  - by apply roster_failTask.
Qed.

End Roster.

Lemma ids_alterAgent agentId f (o : t) :
  keepsId f -> map Agent.id (agents (alterAgent agentId f o)) = map Agent.id (agents o).
Proof. intros Hf. simpl. by apply map_modify_first. Qed.

Lemma keepsId_status status : keepsId (Agent.set_status status).
Proof. done. Qed.

Lemma keepsId_pushTask taskId : keepsId (pushTask taskId).
Proof. done. Qed.

Lemma keepsId_clearTasks : keepsId clearTasks.
Proof. done. Qed.

Lemma keepsId_completeAgentTask taskId d : keepsId (completeAgentTask taskId d).
Proof. done. Qed.

Lemma keepsId_failAgentTask taskId : keepsId (failAgentTask taskId).
Proof. done. Qed.

#[local] Hint Resolve keepsId_status keepsId_pushTask keepsId_clearTasks
  keepsId_completeAgentTask keepsId_failAgentTask : core.

Lemma sameRoster_refl o : sameRoster o o.
Proof. done. Qed.


Lemma highestScoring_In (score : Agent.t -> Q) (candidates : list Agent.t) :
  candidates <> [] -> exists h, highestScoring score candidates = Some h /\ In h candidates.
Proof.
  intros Hne. destruct (highestScoring_spec score candidates Hne) as (h & ? & ? & _).
  by exists h.
Qed.

Lemma selectByCapability_In (candidates : list Agent.t) required :
  candidates <> [] ->
  exists a, selectByCapability candidates required = Some a /\ In a candidates.
Proof.
  intros Hne. unfold selectByCapability.
  assert (Hleast : exists a, selectLeastLoaded candidates = Some a /\ In a candidates).
  { destruct (selectLeastLoaded candidates) as [a|] eqn:H.
    - exists a. split; [done|]. by apply selectLeastLoaded_In.
    - by apply selectLeastLoaded_None in H. }
  destruct required as [[|r rs]|]; [done| |done]. by apply highestScoring_In.
Qed.

Lemma selectHybrid_In (candidates : list Agent.t) required :
  candidates <> [] ->
  exists a, selectHybrid candidates required = Some a /\ In a candidates.
Proof.
  intros Hne. unfold selectHybrid, selectByPerformance.
  destruct (selectByCapability_In candidates required Hne) as (a & -> & Ha).
  destruct (highestScoring_In (performanceScore required) candidates Hne) as (b & -> & Hb).
  destruct (bool_decide _); [by exists a|]. destruct (JS.Qltb _ _); [by exists a|by exists b].
Qed.

(** What [selectAgent] returns: an agent of the registry that is
    available with a load under 100, or nobody when there is none; the
    round-robin loop is the only place where it may hang. *)
Lemma selectAgent_outcome required preferred (o : t) :
  match selectAgent required preferred o with
  | (o', inr (Some a)) =>
      In a (agents o) /\ eligible a = true /\
      agents o' = agents o /\ assignments o' = assignments o
  | (o', inr None) => o' = o /\ List.filter eligible (agents o) = []
  | (o', inl err) =>
      o' = o /\ err = Diverges /\ loadBalancingStrategy o = round_robin /\
      agentQueue o <> [] /\ List.filter eligible (agents o) <> [] /\
      Forall (fun x => List.find (is_agent x) (List.filter eligible (agents o)) = None)
             (agentQueue o)
  end.
Proof.
  unfold selectAgent, bind, get.
  destruct (preferredEligible o preferred) as [a|] eqn:Hpref.
  { simpl. unfold preferredEligible in Hpref.
    destruct preferred as [agentId|]; [|done]. destruct (JS.truthy agentId); [|done].
    destruct (getAgent agentId o) as [b|] eqn:Hget; [|done].
    destruct (eligible b) eqn:Hel; [|done]. injection Hpref as <-.
    apply find_some in Hget as [? _]. done. }
  destruct (List.filter eligible (agents o)) as [|c cs] eqn:Hcands; [done|].
  assert (Hne : c :: cs <> []) by done.
  assert (Hin : forall a, In a (c :: cs) -> In a (agents o) /\ eligible a = true).
  { intros a Ha. rewrite <- Hcands in Ha. by apply filter_In in Ha. }
  destruct (loadBalancingStrategy o) eqn:Hstrategy.
  - unfold selectRoundRobin, bind, get.
    destruct (agentQueue o) as [|x queue] eqn:Hq.
    { simpl. destruct (Hin c); [by left|done]. }
    destruct (turnQueue _ _ _) as [[a queue']|] eqn:Hturn.
    + simpl. apply turnQueue_Some in Hturn as (skipped & y & rest & _ & _ & Hfind & _).
      apply find_some in Hfind as [Ha _]. by destruct (Hin a Ha).
    + simpl. apply turnQueue_None in Hturn. done.
  - unfold ret. destruct (selectLeastLoaded (c :: cs)) as [a|] eqn:Hsel; [|done].
    apply selectLeastLoaded_In in Hsel. by destruct (Hin a Hsel).
  - destruct (selectByCapability_In (c :: cs) required Hne) as (a & Hsel & Ha).
    unfold ret. rewrite Hsel. by destruct (Hin a Ha).
  - destruct (highestScoring_In (performanceScore required) (c :: cs) Hne) as (a & Hsel & Ha).
    unfold ret, selectByPerformance. rewrite Hsel. by destruct (Hin a Ha).
  - destruct (selectHybrid_In (c :: cs) required Hne) as (a & Hsel & Ha).
    unfold ret. rewrite Hsel. by destruct (Hin a Ha).
Qed.

(** X16. Whatever the strategy, a task that [assignTask] assigns goes to
    an agent of the registry that was available with a load under 100.
    The assignment is stored under the task id with status [assigned] and
    no retry, and the task is appended to the active tasks of the agent,
    whose load is recomputed. *)
Theorem assignTask_assigns_eligible (o o' : t) (now : JS.Time) (params : AssignParams)
  (asg : TaskAssignment.t) :
  assignTask now params o = (o', inr asg) ->
  exists agent, In agent (agents o) /\ eligible agent = true /\
    TaskAssignment.agentId asg = Agent.id agent /\
    TaskAssignment.taskId asg = p_taskId params /\
    TaskAssignment.status asg = AssignmentStatus.assigned /\
    TaskAssignment.retryCount asg = 0 /\
    assignments o' !! p_taskId params = Some asg /\
    (distinctIds o ->
     getAgent (Agent.id agent) o' = Some (pushTask (p_taskId params) agent)).
Proof.
  unfold assignTask, bind at 1.
  pose proof (selectAgent_outcome (p_requiredCapabilities params) (p_preferredAgent params) o)
    as Hsel.
  destruct (selectAgent _ _ o) as [o1 [err|[agent|]]]; [done| |done].
  destruct Hsel as (Hin & Hel & Hagents & Hasg).
  unfold bind, modify, ret. intros [= <- <-]. exists agent.
  repeat split; try done.
  - simpl. by rewrite lookup_insert_eq.
  - intros Hnd. unfold getAgent. simpl. rewrite Hagents.
    change (getAgent (Agent.id agent) (alterAgent (Agent.id agent)
              (pushTask (p_taskId params)) o) = Some (pushTask (p_taskId params) agent)).
    rewrite getAgent_alter_same by done. by rewrite getAgent_In.
Qed.

(** X17. [assignTask] throws [NoSuitableAgent] and changes nothing
    exactly when no agent of the registry is available with a load under
    100. *)
Theorem assignTask_no_suitable_agent (o : t) (now : JS.Time) (params : AssignParams) :
  (forall a, In a (agents o) -> eligible a = false) <->
  assignTask now params o = (o, inl NoSuitableAgent).
Proof.
  unfold assignTask, bind at 1.
  pose proof (selectAgent_outcome (p_requiredCapabilities params) (p_preferredAgent params) o)
    as Hsel.
  destruct (selectAgent _ _ o) as [o1 [err|[agent|]]].
  - destruct Hsel as (-> & -> & _ & _ & Hne & _). split; [|done].
    intros Hnone. destruct Hne.
    destruct (List.filter eligible (agents o)) as [|c cs] eqn:Hcands; [done|].
    assert (Hc : In c (List.filter eligible (agents o))) by (rewrite Hcands; by left).
    apply filter_In in Hc as [Hc Hel]. by rewrite (Hnone c Hc) in Hel.
  - destruct Hsel as (Hin & Hel & _). unfold bind, modify, ret. split; [|done].
    intros Hnone. by rewrite (Hnone agent Hin) in Hel.
  - destruct Hsel as (-> & Hnil). unfold throw. split; [done|]. intros _ a Ha.
    destruct (eligible a) eqn:Hel; [|done].
    assert (Hin : In a (List.filter eligible (agents o))) by by apply filter_In.
    by rewrite Hnil in Hin.
Qed.

Lemma In_setAgent agent (l : list Agent.t) (a : Agent.t) :
  In a (setAgent agent l) -> a = agent \/ In a l.
Proof.
  unfold setAgent. destruct (existsb _ l).
  - intros H. apply In_modify_first in H as [?|(y & _ & _ & ->)]; auto.
  - intros H. apply in_app_or in H as [?|[<-|[]]]; auto.
Qed.

Lemma queued_registerAgent agent (o : t) : queued o -> queued (registerAgent agent o).
Proof.
  intros Ho a Ha. simpl in *. apply in_or_app.
  apply In_setAgent in Ha as [->|Ha]; [right; by left|left; by apply Ho].
Qed.

Lemma built_queued (o : t) (k : option Suspended) : built (o, k) -> queued o.
Proof.
  intros Hbuilt.
  apply (roster_built queued keepsId) with (c := (o, k)); try done.
  - intros o1 o2 Ha Hq Ho a. rewrite Ha, Hq. apply Ho.
  - intros agentId f o1 Hf Ho a Ha. simpl in *.
    apply In_modify_first in Ha as [Ha|(y & Hy & _ & ->)]; [by apply Ho|].
    rewrite Hf. by apply Ho.
  - intros o1 queue Hq Ho a Ha. simpl. apply list_elem_of_In. rewrite Hq.
    apply list_elem_of_In. by apply Ho.
  - intros cm e strategy. unfold new. do 3 apply queued_registerAgent. by intros a [].
  - intros agent o1. apply queued_registerAgent.
Qed.

(** X18. In an orchestrator that the public operations have built from a
    new one, whatever the agents registered and the arguments, each
    operation being started when the reassignment pass of an earlier
    [updateAgentStatus] has run to its end, [assignTask] returns an
    assignment as soon as one agent is available with a load under 100:
    every registered id is in the queue, so the loop of
    [selectRoundRobin] finds a candidate and ends. *)
Theorem built_assignTask_total (o : t) (k : option Suspended) (now : JS.Time)
  (params : AssignParams) :
  built (o, k) ->
  (exists a, In a (agents o) /\ eligible a = true) ->
  exists o' asg, assignTask now params o = (o', inr asg).
Proof.
  intros Hreach (a & Ha & Hel). apply built_queued in Hreach.
  unfold assignTask, bind at 1.
  pose proof (selectAgent_outcome (p_requiredCapabilities params) (p_preferredAgent params) o)
    as Hsel.
  destruct (selectAgent _ _ o) as [o1 [err|[agent|]]].
  - exfalso. destruct Hsel as (_ & _ & _ & _ & _ & Hall).
    rewrite Forall_forall in Hall.
    specialize (Hall (Agent.id a) (proj2 (list_elem_of_In _ _) (Hreach a Ha))).
    assert (Hin : In a (List.filter eligible (agents o))) by by apply filter_In.
    apply (find_none _ _ Hall) in Hin. by apply is_agent_false in Hin.
  - unfold bind, modify, ret. by eexists _, _.
  - exfalso. destruct Hsel as (_ & Hnil).
    assert (Hin : In a (List.filter eligible (agents o))) by by apply filter_In.
    by rewrite Hnil in Hin.
Qed.

Lemma turnQueue_skip (candidates : list Agent.t) (skipped : list string)
  (agentId : string) (rest back : list string) (a : Agent.t) :
  Forall (fun x => List.find (is_agent x) candidates = None) skipped ->
  List.find (is_agent agentId) candidates = Some a ->
  turnQueue candidates (skipped ++ agentId :: rest) back =
  Some (a, rest ++ back ++ skipped ++ [agentId]).
Proof.
  intros Hsk Ha. revert back. induction Hsk as [|x skipped Hx _ IH]; intros back; simpl.
  - by rewrite Ha.
  - rewrite Hx, IH. by rewrite <- !app_assoc.
Qed.

(** X19. Round-robin takes the first id of the queue whose agent is
    available with a load under 100; the ids before it and then the id
    taken are moved to the back of the queue, in that order. *)
Theorem round_robin_takes_turns (o : t) (now : JS.Time) (params : AssignParams)
  (skipped : list string) (agentId : string) (rest : list string) :
  loadBalancingStrategy o = round_robin ->
  p_preferredAgent params = None ->
  agentQueue o = skipped ++ agentId :: rest ->
  (forall a, In a (agents o) -> In (Agent.id a) skipped -> eligible a = false) ->
  (exists a, In a (agents o) /\ Agent.id a = agentId /\ eligible a = true) ->
  exists o' asg, assignTask now params o = (o', inr asg) /\
    TaskAssignment.agentId asg = agentId /\
    agentQueue o' = rest ++ skipped ++ [agentId].
Proof.
  intros Hstrategy Hpref Hqueue Hskipped (a & Ha & Hid & Hel).
  set (candidates := List.filter eligible (agents o)).
  assert (Hin : In a candidates) by by apply filter_In.
  assert (Hsk : Forall (fun x => List.find (is_agent x) candidates = None) skipped).
  { apply Forall_forall. intros x Hx. apply list_elem_of_In in Hx.
    destruct (List.find (is_agent x) candidates) as [b|] eqn:Hfind; [|done].
    apply find_some in Hfind as [Hb Hbx]. apply filter_In in Hb as [Hb Hbel].
    apply is_agent_true in Hbx. subst x. by rewrite (Hskipped b Hb Hx) in Hbel. }
  destruct (List.find (is_agent agentId) candidates) as [b|] eqn:Hfind.
  2: { apply (find_none _ _ Hfind) in Hin. by apply is_agent_false in Hin. }
  pose proof (turnQueue_skip candidates skipped agentId rest [] b Hsk Hfind) as Hturn.
  unfold assignTask, bind at 1, selectAgent, bind at 1, get. rewrite Hpref. simpl.
  fold candidates. destruct candidates as [|c cs] eqn:Hcands; [done|].
  rewrite Hstrategy. unfold selectRoundRobin, bind at 1, get. rewrite Hqueue.
  destruct (skipped ++ agentId :: rest) as [|x queue] eqn:Happ.
  { by destruct skipped. }
  rewrite Hturn. unfold bind, modify, ret. eexists _, _. split; [done|]. simpl.
  split; [|done]. apply find_some in Hfind as [_ Hb]. by apply is_agent_true in Hb.
Qed.

(** X20. Under the least-loaded strategy, and under the capability
    strategy when no capability is required, the agent chosen has the
    least load of all agents that are available with a load under 100. *)
Theorem least_loaded_picks_minimum (o o' : t) (now : JS.Time) (params : AssignParams)
  (asg : TaskAssignment.t) :
  loadBalancingStrategy o = least_loaded \/
  (loadBalancingStrategy o = capability_based /\
   (p_requiredCapabilities params = None \/ p_requiredCapabilities params = Some [])) ->
  p_preferredAgent params = None ->
  assignTask now params o = (o', inr asg) ->
  exists agent, In agent (agents o) /\ eligible agent = true /\
    TaskAssignment.agentId asg = Agent.id agent /\
    forall b, In b (agents o) -> eligible b = true ->
              (Agent.currentLoad agent <= Agent.currentLoad b)%Q.
Proof.
  intros Hstrategy Hpref.
  unfold assignTask, bind at 1, selectAgent, bind at 1, get. rewrite Hpref. simpl.
  destruct (List.filter eligible (agents o)) as [|c cs] eqn:Hcands; [done|].
  assert (Hleast : forall agent, selectLeastLoaded (c :: cs) = Some agent ->
            In agent (agents o) /\ eligible agent = true /\
            forall b, In b (agents o) -> eligible b = true ->
                      (Agent.currentLoad agent <= Agent.currentLoad b)%Q).
  { intros agent Hleast.
    pose proof (selectLeastLoaded_In _ _ Hleast) as Hin. rewrite <- Hcands in Hin.
    apply filter_In in Hin as [Hin Hel]. repeat split; try done.
    intros b Hb Hbel. apply (selectLeastLoaded_min _ _ Hleast). rewrite <- Hcands.
    by apply filter_In. }
  assert (Hsel : selectByCapability (c :: cs) None = selectLeastLoaded (c :: cs) /\
                 selectByCapability (c :: cs) (Some []) = selectLeastLoaded (c :: cs))
    by done.
  destruct Hsel as [HselNone HselNil].
  destruct Hstrategy as [Hs|[Hs [Hreq|Hreq]]]; rewrite Hs; unfold ret at 1;
    rewrite ?Hreq, ?HselNone, ?HselNil;
    (destruct (selectLeastLoaded (c :: cs)) as [agent|]; [|done]);
    unfold bind, modify, ret; intros [= <- <-]; exists agent;
    destruct (Hleast agent eq_refl) as (? & ? & ?); by repeat split.
Qed.

Lemma sortByScore_first (score : Agent.t -> Q) (candidates : list Agent.t) :
  candidates <> [] ->
  exists h rest,
    sortByScore (map (fun agent => (agent, score agent)) candidates) = (h, score h) :: rest /\
    firstHighest score candidates h.
Proof.
  induction candidates as [|x l IH]; [done|]. intros _.
  destruct l as [|y l'].
  - exists x, []. split; [done|]. exists [], []. by repeat split.
  - destruct IH as (h & rest & Hsort & before & after & Hl & Hbefore & Hafter); [done|].
    change (sortByScore (map (fun agent => (agent, score agent)) (x :: y :: l')))
      with (insertByScore (x, score x)
              (sortByScore (map (fun agent => (agent, score agent)) (y :: l')))).
    rewrite Hsort. simpl. destruct (Qle_bool (score h) (score x)) eqn:Hle.
    + apply Qle_bool_iff in Hle. exists x, ((h, score h) :: rest). split; [done|].
      exists [], (y :: l'). repeat split; [done|].
      intros c Hc. rewrite Hl in Hc. apply in_app_or in Hc as [Hc|[<-|Hc]].
      * apply Qlt_le_weak. eapply Qlt_le_trans; [by apply Hbefore|done].
      * done.
      * eapply Qle_trans; [by apply Hafter|done].
    + assert (Hlt : (score x < score h)%Q).
      { apply Qnot_le_lt. intros H. apply Qle_bool_iff in H. congruence. }
      eexists h, _. split; [done|].
      exists (x :: before), after. rewrite Hl. repeat split; [|done].
      intros c [<-|Hc]; [done|by apply Hbefore].
Qed.

(** X21. The sort by falling score that [selectByCapability] and
    [selectByPerformance] end with, followed by [scores[0]], returns the
    first of the candidates, in the order of the array, that has the
    highest score, whatever numbers the scores are: the sort is stable,
    so a tie goes to the candidate that comes first. *)
Theorem highest_score_first_wins (score : Agent.t -> Q) (candidates : list Agent.t) :
  candidates <> [] ->
  exists h, highestScoring score candidates = Some h /\ firstHighest score candidates h.
Proof.
  intros Hne. destruct (sortByScore_first score candidates Hne) as (h & rest & Hsort & Hfirst).
  exists h. unfold highestScoring. by rewrite Hsort.
Qed.

Lemma truthyId_Some (s : option string) (x : string) :
  s = Some x -> x <> "" -> truthyId s = Some x.
Proof.
  intros -> Hne. unfold truthyId, JS.truthy. by destruct (String.eqb_spec x "").
Qed.

(** X22. [completeTask], called without a session id on a task linked
    to a workflow step, runs [completeStep] of the engine on that step
    with the output of the task, and returns what it returns. It has
    completed the assignment and released the agent before: they stay so
    when [completeStep] throws. *)
Theorem completeTask_runs_linked_step (o : t) (now : JS.Time) (taskId : string)
  (output : option string) (asg : TaskAssignment.t) (agent : Agent.t)
  (workflowId stepId : string) :
  assignments o !! taskId = Some asg ->
  getAgent (TaskAssignment.agentId asg) o = Some agent ->
  TaskAssignment.workflowId asg = Some workflowId -> workflowId <> "" ->
  TaskAssignment.stepId asg = Some stepId -> stepId <> "" ->
  let r := completeTask now taskId output None o in
  let c := WorkflowEngine.completeStep now workflowId stepId output None (workflowEngine o) in
  workflowEngine (fst r) = fst c /\ snd r = snd c /\
  (exists asg', assignments (fst r) !! taskId = Some asg' /\
     TaskAssignment.status asg' = AssignmentStatus.completed /\
     TaskAssignment.completedAt asg' = Some now /\
     TaskAssignment.output asg' = output) /\
  getAgent (TaskAssignment.agentId asg) (fst r) =
    Some (completeAgentTask taskId (durationOf now asg) agent).
Proof.
  intros Hasg Hagent Hw Hwne Hs Hsne r c.
  set (o2 := alterAgent (TaskAssignment.agentId asg)
               (completeAgentTask taskId (durationOf now asg))
               (alterAssignment taskId
                  (fun a => TaskAssignment.set_actualDuration (durationOf now asg)
                     (TaskAssignment.set_output output
                        (TaskAssignment.set_completedAt (Some now)
                           (TaskAssignment.set_status AssignmentStatus.completed a)))) o)).
  assert (Hrun : r = (set_workflowEngine (fst c) o2, snd c)).
  { unfold r, completeTask, bind, get, modify, onEngine. rewrite Hasg, Hagent.
    rewrite (truthyId_Some _ _ Hw Hwne), (truthyId_Some _ _ Hs Hsne).
    fold o2. change (workflowEngine o2) with (workflowEngine o). fold c.
    by destruct c as [e [err|[]]]. }
  rewrite Hrun. simpl fst. simpl snd. split; [done|]. split; [done|]. split.
  - simpl. rewrite lookup_alter_eq, Hasg. by eexists.
  - change (getAgent (TaskAssignment.agentId asg) o2 =
            Some (completeAgentTask taskId (durationOf now asg) agent)).
    unfold o2. rewrite getAgent_alter_same by done. unfold getAgent in *. simpl.
    by rewrite Hagent.
Qed.

Lemma noBetter_refl p : (0 <= Performance.successRate p)%Q -> noBetter p p.
Proof. intros H. repeat split; [lia|done|apply Qle_refl]. Qed.

Lemma noBetter_trans p1 p2 p3 : noBetter p1 p2 -> noBetter p2 p3 -> noBetter p1 p3.
Proof.
  intros (? & ? & ?) (? & ? & ?). repeat split; [lia|done|]. by eapply Qle_trans.
Qed.

Lemma keepsRecord_status status : keepsRecord (Agent.set_status status).
Proof. split; [done|]. intros a _ H. by apply noBetter_refl. Qed.

Lemma keepsRecord_pushTask taskId : keepsRecord (pushTask taskId).
Proof. split; [done|]. intros a _ H. by apply noBetter_refl. Qed.

Lemma keepsRecord_clearTasks : keepsRecord clearTasks.
Proof. split; [done|]. intros a _ H. by apply noBetter_refl. Qed.

Lemma keepsRecord_completeAgentTask taskId d : keepsRecord (completeAgentTask taskId d).
Proof.
  split; [done|]. intros a _ H. unfold completeAgentTask, updateAverage. simpl.
  destruct d as [d|]; [destruct (Qeq_bool d 0)|]; simpl; unfold noBetter; simpl.
  all: repeat split; [lia|done|apply Qle_refl].
Qed.

Lemma discount_le (rate : Q) (n : Z) :
  0 <= n -> (0 <= rate)%Q ->
  (0 <= rate * inject_Z n / (inject_Z n + 1))%Q /\
  (rate * inject_Z n / (inject_Z n + 1) <= rate)%Q.
Proof.
  intros Hn Hrate.
  assert (H0 : (0 <= inject_Z n)%Q) by (change 0%Q with (inject_Z 0); by rewrite <- Zle_Qle).
  assert (H1 : (0 < inject_Z n + 1)%Q) by lra.
  split.
  - apply Qle_shift_div_l; [done|]. rewrite Qmult_0_l. by apply Qmult_le_0_compat.
  - apply Qle_shift_div_r; [done|]. nra.
Qed.

Lemma keepsRecord_failAgentTask taskId : keepsRecord (failAgentTask taskId).
Proof.
  split; [done|]. intros a Hn Hrate. unfold failAgentTask, noBetter. simpl.
  destruct (discount_le _ _ Hn Hrate). repeat split; [lia|done|done].
Qed.


Lemma roster_operation (P : t -> Prop) (fits : (Agent.t -> Agent.t) -> Prop) :
  (forall o o', agents o' = agents o -> agentQueue o' = agentQueue o -> P o -> P o') ->
  (forall agentId f o, fits f -> P o -> P (alterAgent agentId f o)) ->
  (forall o queue, queue ≡ₚ agentQueue o -> P o -> P (set_agentQueue queue o)) ->
  (forall status, fits (Agent.set_status status)) ->
  (forall taskId, fits (pushTask taskId)) ->
  fits clearTasks ->
  (forall taskId d, fits (completeAgentTask taskId d)) ->
  (forall taskId, fits (failAgentTask taskId)) ->
  forall o o', operation o o' -> P o -> P o'.
Proof.
  intros Hrest Halter Hturn Hstatus Hpush Hclear Hcomplete Hfail o o' Hop Ho.
  destruct Hop.
  - apply (roster_updateAgentStatus P fits); auto.
  - apply (roster_settle P fits); auto. apply (roster_updateAgentStatus P fits); auto.
  - apply (roster_assignTask P fits); auto.
  - apply (roster_startTask P); auto.
  - apply (roster_completeTask P fits); auto.
  - apply (roster_failTask P fits); auto.
Qed.

(** X23. No operation but [registerAgent] adds, removes or reorders an
    agent of the registry, and the queue keeps its entries: only their
    order changes. *)
Theorem operations_keep_roster (o o' : t) : operation o o' -> sameRoster o o'.
Proof.
  intros Hop. apply (roster_operation (sameRoster o) keepsId) with (o := o);
    auto using keepsId_status, keepsId_pushTask, keepsId_clearTasks,
               keepsId_completeAgentTask, keepsId_failAgentTask.
  - intros o1 o2 Ha Hq [? ?]. split; by rewrite ?Ha, ?Hq.
  - intros agentId f o1 Hf [? ?]. split; [by rewrite ids_alterAgent|done].
  - intros o1 queue Hq [? ?]. split; [done|]. simpl. by rewrite Hq.
  - apply sameRoster_refl.
Qed.

(** X24. No operation but [registerAgent] raises the success rate of an
    agent or lowers its count of completed tasks, the rate and the count
    not being negative: [failTask] discounts the rate and nothing ever
    credits it. *)
Theorem operations_never_raise_successRate (o o' : t) (agentId : string)
  (p : Performance.t) :
  operation o o' ->
  getAgentMetrics agentId o = Some p ->
  0 <= Performance.tasksCompleted p -> (0 <= Performance.successRate p)%Q ->
  exists p', getAgentMetrics agentId o' = Some p' /\
    Performance.tasksCompleted p <= Performance.tasksCompleted p' /\
    (0 <= Performance.successRate p')%Q /\
    (Performance.successRate p' <= Performance.successRate p)%Q.
Proof.
  intros Hop Hp Hn Hrate.
  set (P := fun o1 => exists p', getAgentMetrics agentId o1 = Some p' /\ noBetter p p').
  apply (roster_operation P keepsRecord) with (o := o);
    auto using keepsRecord_status, keepsRecord_pushTask, keepsRecord_clearTasks,
               keepsRecord_completeAgentTask, keepsRecord_failAgentTask.
  - intros o1 o2 Ha _ (p' & Hp' & Hnb). exists p'. split; [|done].
    unfold getAgentMetrics, getAgent in *. by rewrite Ha.
  - intros x f o1 [Hid Hf] (p' & Hp' & Hnb). unfold P, getAgentMetrics in *.
    destruct (decide (x = agentId)) as [->|Hne].
    + rewrite getAgent_alter_same by done.
      destruct (getAgent agentId o1) as [a|]; [|done]. simpl in *. injection Hp' as <-.
      eexists. split; [done|]. eapply noBetter_trans; [exact Hnb|].
      destruct Hnb as (? & ? & ?). apply Hf; [lia|done].
    + rewrite getAgent_alter_other by done. by exists p'.
  - exists p. split; [done|]. by apply noBetter_refl.
Qed.

Lemma getAgent_reassignTask_previous taskId (o : t) (asg : TaskAssignment.t) :
  assignments o !! taskId = Some asg ->
  getAgent (TaskAssignment.agentId asg) (reassignTask taskId o) =
  getAgent (TaskAssignment.agentId asg) o.
Proof.
  intros Hasg. pose proof (reassignTask_outcome taskId o asg Hasg) as Hout. cbv zeta in Hout.
  destruct (selectLeastLoaded _) as [newAgent|].
  - destruct Hout as (_ & _ & Hne & _ & Hagents). unfold getAgent. rewrite Hagents.
    apply (getAgent_alter_other (Agent.id newAgent) (TaskAssignment.agentId asg)
             (pushTask taskId) o); done.
  - destruct Hout as (_ & _ & Hagents). unfold getAgent. by rewrite Hagents.
Qed.

(** X25. [failTask] multiplies the success rate of the agent of the task
    by n / (n + 1), n being its count of completed tasks, and leaves the
    count: the first failure of an agent that has completed nothing sets
    its rate to 0. *)
Theorem failTask_discounts_successRate (o : t) (now : JS.Time) (taskId err : string)
  (retry : bool) (asg : TaskAssignment.t) (agent : Agent.t) :
  assignments o !! taskId = Some asg ->
  getAgent (TaskAssignment.agentId asg) o = Some agent ->
  let p := Agent.performance agent in
  let n := inject_Z (Performance.tasksCompleted p) in
  exists p',
    getAgentMetrics (TaskAssignment.agentId asg) (fst (failTask now taskId err retry o))
      = Some p' /\
    Performance.successRate p' = (Performance.successRate p * n / (n + 1))%Q /\
    Performance.tasksCompleted p' = Performance.tasksCompleted p /\
    (Performance.tasksCompleted p = 0 -> (Performance.successRate p' == 0)%Q).
Proof.
  intros Hasg Hagent p n.
  set (previous := TaskAssignment.agentId asg).
  set (o1 := alterAgent previous (failAgentTask taskId) o).
  set (o2 := alterAssignment taskId
               (fun a => TaskAssignment.set_retryCount (TaskAssignment.retryCount asg + 1)
                           (TaskAssignment.set_error (Some err) a)) o1).
  assert (H2 : getAgent previous o2 = Some (failAgentTask taskId agent)).
  { change (getAgent previous o1 = Some (failAgentTask taskId agent)).
    unfold o1. rewrite getAgent_alter_same by done. unfold previous. by rewrite Hagent. }
  assert (Hasg2 : exists asg2, assignments o2 !! taskId = Some asg2 /\
                               TaskAssignment.agentId asg2 = previous).
  { simpl. rewrite lookup_alter_eq, Hasg. by eexists. }
  assert (Hfinal : getAgent previous (fst (failTask now taskId err retry o)) =
                   Some (failAgentTask taskId agent)).
  { unfold failTask, bind, get, modify. rewrite Hasg. fold previous o1 o2.
    destruct (retry && _); simpl; [|exact H2].
    destruct Hasg2 as (asg2 & Hasg2 & <-).
    by rewrite (getAgent_reassignTask_previous taskId o2 asg2 Hasg2). }
  unfold getAgentMetrics. rewrite Hfinal. eexists. split; [done|]. simpl.
  repeat split. intros Hzero. fold p. unfold n. rewrite Hzero.
  unfold Qdiv. rewrite Qmult_0_r. apply Qmult_0_l.
Qed.

Lemma getAgent_is_Some agentId (o : t) :
  is_Some (getAgent agentId o) <-> In agentId (map Agent.id (agents o)).
Proof.
  unfold getAgent. split.
  - intros [a Ha]. apply find_some in Ha as [Hin Hid]. apply is_agent_true in Hid.
    subst. by apply in_map.
  - intros Hin. apply in_map_iff in Hin as (a & Hid & Hin).
    destruct (List.find (is_agent agentId) (agents o)) as [b|] eqn:Hfind; [by eexists|].
    apply (find_none _ _ Hfind) in Hin. by apply is_agent_false in Hin.
Qed.

Lemma assignedKnown_ids (o o' : t) :
  map Agent.id (agents o') = map Agent.id (agents o) -> assignments o' = assignments o ->
  assignedKnown o -> assignedKnown o'.
Proof.
  intros Hids Hasg Ho taskId asg. rewrite Hasg. intros H.
  apply getAgent_is_Some. rewrite Hids. apply getAgent_is_Some. by apply (Ho taskId).
Qed.

Lemma assignedKnown_alterAgent agentId f (o : t) :
  keepsId f -> assignedKnown o -> assignedKnown (alterAgent agentId f o).
Proof. intros Hf. apply assignedKnown_ids; [by apply ids_alterAgent|done]. Qed.

Lemma assignedKnown_alterAssignment taskId f (o : t) :
  (forall a, is_Some (getAgent (TaskAssignment.agentId a) o) ->
             is_Some (getAgent (TaskAssignment.agentId (f a)) o)) ->
  assignedKnown o -> assignedKnown (alterAssignment taskId f o).
Proof.
  intros Hf Ho k asg. simpl. destruct (decide (taskId = k)) as [->|Hne].
  - rewrite lookup_alter_eq. destruct (assignments o !! k) as [a|] eqn:Ha; [|done].
    intros [= <-]. apply Hf. by apply (Ho k).
  - rewrite lookup_alter_ne by done. apply Ho.
Qed.

Lemma assignedKnown_reassignTask taskId (o : t) :
  assignedKnown o -> assignedKnown (reassignTask taskId o).
Proof.
  intros Ho. unfold reassignTask.
  destruct (assignments o !! taskId) as [asg|]; [|done].
  destruct (selectLeastLoaded _) as [newAgent|] eqn:Hsel.
  - apply assignedKnown_alterAgent; [done|].
    apply assignedKnown_alterAssignment; [|done]. intros a _. simpl.
    apply getAgent_is_Some. apply in_map.
    apply selectLeastLoaded_In in Hsel. by apply filter_In in Hsel as [? _].
  - by apply assignedKnown_alterAssignment.
Qed.

Lemma assignedKnown_settleTasks agentId tasks (o : t) :
  assignedKnown o -> assignedKnown (settleTasks agentId tasks o).
Proof.
  revert o. induction tasks as [|taskId rest IH]; intros o Ho; simpl.
  - by apply assignedKnown_alterAgent.
  - by apply IH, assignedKnown_reassignTask.
Qed.

Lemma assignedKnown_resumeReassign k (o : t) :
  assignedKnown o -> assignedKnown (fst (resumeReassign k o)).
Proof.
  intros Ho. unfold resumeReassign. destruct (s_tasks k); simpl.
  - by apply assignedKnown_alterAgent.
  - by apply assignedKnown_reassignTask.
Qed.

Lemma assignedKnown_updateAgentStatus agentId status (o : t) :
  assignedKnown o -> assignedKnown (fst (updateAgentStatus agentId status o)).
Proof.
  intros Ho. unfold updateAgentStatus. destruct (getAgent agentId o); [|done].
  assert (H1 : assignedKnown (alterAgent agentId (Agent.set_status status) o))
    by by apply assignedKnown_alterAgent.
  destruct (_ || _); [|done].
  unfold reassignAgentTasks. destruct (getAgent agentId _) as [a|]; [|done].
  destruct (Agent.activeTasks a) as [|taskId rest].
  - simpl. by apply assignedKnown_alterAgent.
  - by apply assignedKnown_resumeReassign.
Qed.

Lemma assignedKnown_assignTask now params : preserves assignedKnown (assignTask now params).
Proof.
  intros o Ho. unfold assignTask, bind at 1.
  pose proof (selectAgent_outcome (p_requiredCapabilities params) (p_preferredAgent params) o)
    as Hsel.
  destruct (selectAgent _ _ o) as [o1 [err|[agent|]]].
  - by destruct Hsel as (-> & _).
  - destruct Hsel as (Hin & _ & Hagents & Hasg). unfold bind, modify, ret. simpl.
    assert (H1 : assignedKnown o1).
    { apply (assignedKnown_ids o); [by rewrite Hagents|done|done]. }
    intros k asg. simpl. rewrite lookup_insert. case_decide.
    + intros [= <-]. simpl. apply getAgent_is_Some.
      change (In (Agent.id agent)
                 (map Agent.id (agents (alterAgent (Agent.id agent)
                                          (pushTask (p_taskId params)) o1)))).
      rewrite ids_alterAgent by done. rewrite Hagents. by apply in_map.
    + intros Hk. by apply (assignedKnown_alterAgent _ _ o1 (keepsId_pushTask _) H1 k).
  - by destruct Hsel as (-> & _).
Qed.

Lemma assignedKnown_startTask now taskId sessionId :
  preserves assignedKnown (startTask now taskId sessionId).
Proof.
  unfold startTask. apply preserves_bind; [apply preserves_get|]. intros o.
  destruct (assignments o !! taskId); [|apply preserves_throw].
  apply preserves_bind.
  { apply preserves_modify. intros st. by apply assignedKnown_alterAssignment. }
  intros _. destruct (truthyId sessionId);
    [apply preserves_updateTaskContext|apply preserves_ret].
Qed.

Lemma assignedKnown_completeTask now taskId output sessionId :
  preserves assignedKnown (completeTask now taskId output sessionId).
Proof.
  unfold completeTask. apply preserves_bind; [apply preserves_get|]. intros o.
  destruct (assignments o !! taskId) as [asg|]; [|apply preserves_throw].
  destruct (getAgent _ o); [|apply preserves_throw].
  apply preserves_bind.
  { apply preserves_modify. intros st. by apply assignedKnown_alterAssignment. }
  intros _. apply preserves_bind.
  { apply preserves_modify. intros st. by apply assignedKnown_alterAgent. }
  intros _. apply preserves_bind.
  { destruct (truthyId (TaskAssignment.workflowId asg)); [|apply preserves_ret].
    destruct (truthyId (TaskAssignment.stepId asg)); [|apply preserves_ret].
    intros st Hst. unfold onEngine. destruct (WorkflowEngine.completeStep _ _ _ _ _ _).
    simpl. by apply (assignedKnown_ids st). }
  intros _. destruct (truthyId sessionId);
    [apply preserves_updateTaskContext|apply preserves_ret].
Qed.

Lemma assignedKnown_failTask now taskId err retry :
  preserves assignedKnown (failTask now taskId err retry).
Proof.
  unfold failTask. apply preserves_bind; [apply preserves_get|]. intros o.
  destruct (assignments o !! taskId) as [asg|]; [|apply preserves_throw].
  apply preserves_bind.
  { apply preserves_modify. intros st. by apply assignedKnown_alterAgent. }
  intros _. apply preserves_bind.
  { apply preserves_modify. intros st. by apply assignedKnown_alterAssignment. }
  intros _. destruct (_ && _); apply preserves_modify; intros st.
  - apply assignedKnown_reassignTask.
  - by apply assignedKnown_alterAssignment.
Qed.

Lemma ids_setAgent agent (l : list Agent.t) (x : string) :
  In x (map Agent.id l) -> In x (map Agent.id (setAgent agent l)).
Proof.
  unfold setAgent. destruct (existsb _ l).
  - rewrite map_modify_first_at; [done|]. intros y Hy. by apply is_agent_true in Hy.
  - rewrite map_app. intros H. apply in_or_app. by left.
Qed.

Lemma assignedKnown_registerAgent agent (o : t) :
  assignedKnown o -> assignedKnown (registerAgent agent o).
Proof.
  intros Ho k asg Hk. apply getAgent_is_Some. simpl. apply ids_setAgent.
  apply getAgent_is_Some. by apply (Ho k).
Qed.

Lemma built_assignedKnown (o : t) (k : option Suspended) :
  built (o, k) -> assignedKnown o.
Proof.
  intros Hreach. remember (o, k) as c eqn:Hc.
  change o with (fst (o, k)). rewrite <- Hc. clear Hc o k.
  induction Hreach as [cm e strategy | agent o0 _ IH | agentId status o0 _ IH
                       | k0 o0 _ IH | now params o0 _ IH | now taskId sessionId o0 _ IH
                       | now taskId output sessionId o0 _ IH | now taskId err retry o0 _ IH];
    simpl in *.
  - unfold new. do 3 apply assignedKnown_registerAgent. intros k asg. simpl.
    by rewrite lookup_empty.
  - by apply assignedKnown_registerAgent.
  - by apply assignedKnown_updateAgentStatus.
  - by apply assignedKnown_resumeReassign.
  - by apply assignedKnown_assignTask.
  - by apply assignedKnown_startTask.
  - by apply assignedKnown_completeTask.
  - by apply assignedKnown_failTask.
Qed.

Lemma completeStep_errors now workflowId stepId outputs (e : WorkflowEngine.t) :
  let r := WorkflowEngine.completeStep now workflowId stepId outputs None e in
  snd r = inr tt \/ snd r = inl (WorkflowNotFound workflowId) \/
  snd r = inl (StepNotFound stepId) \/ snd r = inl InvalidTransition.
Proof.
  cbv zeta.
  destruct (WorkflowEngine.workflows e !! workflowId) as [w|] eqn:Hw.
  - destruct (List.find (WorkflowEngine.has_id stepId) (Workflow.steps w)) as [step|] eqn:Hfind.
    + destruct (WorkflowEngineProofs.completeStep_unfold now workflowId stepId outputs None
                  e w step Hw Hfind) as [->|[err [_ ?]]]; [|done].
      cbv zeta. destruct (WorkflowEngine.allStepsComplete _); [|by left].
      destruct (bool_decide _); [by left|by right; right; right].
    + unfold WorkflowEngine.completeStep, bind, WorkflowEngine.onWorkflow, get.
      rewrite Hw, Hfind. by right; right; left.
  - unfold WorkflowEngine.completeStep, bind, WorkflowEngine.onWorkflow. rewrite Hw.
    by right; left.
Qed.

(** X26. In an orchestrator that the public operations have built from a
    new one, whatever the agents registered and the arguments, each
    operation being started when the reassignment pass of an earlier
    [updateAgentStatus] has run to its end, every assignment names a
    registered agent, so [completeTask] never throws [AgentNotFound]. *)
Theorem built_assignment_has_agent (o : t) (k : option Suspended) (now : JS.Time)
  (taskId : string) (asg : TaskAssignment.t) :
  built (o, k) ->
  assignments o !! taskId = Some asg ->
  is_Some (getAgent (TaskAssignment.agentId asg) o) /\
  forall output sessionId agentId,
    snd (completeTask now taskId output sessionId o) <> inl (AgentNotFound agentId).
Proof.
  intros Hreach Hasg. pose proof (built_assignedKnown o k Hreach taskId asg Hasg) as [a Ha].
  split; [by exists a|]. intros output sid agentId.
  unfold completeTask, bind at 1, get at 1. rewrite Hasg, Ha.
  unfold bind at 1, modify at 1. unfold bind at 1, modify at 1. unfold bind at 1.
  set (o2 := alterAgent _ _ _).
  assert (Hengine : exists o3 r,
            match truthyId (TaskAssignment.workflowId asg) with
            | Some workflowId =>
                match truthyId (TaskAssignment.stepId asg) with
                | Some stepId =>
                    onEngine (WorkflowEngine.completeStep now workflowId stepId output None)
                | None => ret tt
                end
            | None => ret tt
            end o2 = (o3, r) /\ forall x, r <> inl (AgentNotFound x)).
  { destruct (truthyId (TaskAssignment.workflowId asg)) as [workflowId|];
      [|by eexists _, _].
    destruct (truthyId (TaskAssignment.stepId asg)) as [stepId|]; [|by eexists _, _].
    unfold onEngine.
    pose proof (completeStep_errors now workflowId stepId output (workflowEngine o2)) as Herr.
    cbv zeta in Herr.
    destruct (WorkflowEngine.completeStep _ _ _ _ _ _) as [e r]. simpl in Herr.
    eexists _, _. split; [done|]. intros x.
    destruct Herr as [->|[->|[->| ->]]]; done. }
  destruct Hengine as (o3 & r & -> & Hr). destruct r as [err|[]]; [apply Hr|].
  destruct (truthyId sid) as [s|]; [|done]. unfold ContextManager.updateTaskContext.
  by destruct (ContextManager.has _ _).
Qed.

Lemma updateTaskContext_error {St : Type} cm sid (s : St) (x : string) :
  snd (ContextManager.updateTaskContext cm sid s) <> inl (TaskNotFound x).
Proof. unfold ContextManager.updateTaskContext. by destruct (ContextManager.has cm sid). Qed.

(** X27. [startTask], [completeTask] and [failTask] throw [TaskNotFound]
    exactly when the task id has no assignment, and they change nothing
    then: with an assignment, whatever else they throw, also from the
    engine or the context manager, is no [TaskNotFound]. *)
Theorem unknown_task_is_rejected (o : t) (now : JS.Time) (taskId : string) :
  (assignments o !! taskId = None ->
   (forall sessionId, startTask now taskId sessionId o = (o, inl (TaskNotFound taskId))) /\
   (forall output sessionId,
      completeTask now taskId output sessionId o = (o, inl (TaskNotFound taskId))) /\
   (forall err retry, failTask now taskId err retry o = (o, inl (TaskNotFound taskId)))) /\
  (is_Some (assignments o !! taskId) ->
   forall x,
     (forall sessionId, snd (startTask now taskId sessionId o) <> inl (TaskNotFound x)) /\
     (forall output sessionId,
        snd (completeTask now taskId output sessionId o) <> inl (TaskNotFound x)) /\
     (forall err retry, snd (failTask now taskId err retry o) <> inl (TaskNotFound x))).
Proof.
  split.
  - intros Hnone. repeat split; intros;
      unfold startTask, completeTask, failTask, bind, get; by rewrite Hnone.
  - intros [asg Hasg] x. repeat split.
    + intros sid. unfold startTask, bind at 1, get at 1. rewrite Hasg.
      unfold bind, modify. destruct (truthyId sid); [apply updateTaskContext_error|done].
    + intros output sid. unfold completeTask, bind at 1, get at 1. rewrite Hasg.
      destruct (getAgent (TaskAssignment.agentId asg) o); [|done].
      unfold bind at 1, modify at 1. unfold bind at 1, modify at 1. unfold bind at 1.
      set (o2 := alterAgent _ _ _).
      assert (Hengine : exists o3 r,
                match truthyId (TaskAssignment.workflowId asg) with
                | Some workflowId =>
                    match truthyId (TaskAssignment.stepId asg) with
                    | Some stepId =>
                        onEngine (WorkflowEngine.completeStep now workflowId stepId output None)
                    | None => ret tt
                    end
                | None => ret tt
                end o2 = (o3, r) /\ r <> inl (TaskNotFound x)).
      { destruct (truthyId (TaskAssignment.workflowId asg)) as [workflowId|];
          [|by eexists _, _].
        destruct (truthyId (TaskAssignment.stepId asg)) as [stepId|]; [|by eexists _, _].
        unfold onEngine.
        pose proof (completeStep_errors now workflowId stepId output (workflowEngine o2))
          as Herr.
        cbv zeta in Herr.
        destruct (WorkflowEngine.completeStep _ _ _ _ _ _) as [e r]. simpl in Herr.
        eexists _, _. split; [done|]. destruct Herr as [->|[->|[->| ->]]]; done. }
      destruct Hengine as (o3 & r & -> & Hr). destruct r as [err|[]]; [exact Hr|].
      destruct (truthyId sid); [apply updateTaskContext_error|done].
    + intros err retry. unfold failTask, bind at 1, get at 1. rewrite Hasg.
      unfold bind, modify. by destruct (_ && _).
Qed.


Lemma bestOf_step skill (seen : list Agent.t) best (x : Agent.t) :
  bestOf skill seen best -> bestOf skill (seen ++ [x]) (betterAgent skill best x).
Proof.
  intros [Hmax Hbest]. unfold betterAgent.
  destruct (skillScore skill x) as [score|] eqn:Hscore.
  - destruct (JS.Qltb (snd best) score) eqn:Hlt.
    + apply Qltb_true in Hlt. split; simpl.
      * intros b s Hb Hs. apply in_app_or in Hb as [Hb|[<-|[]]].
        -- apply Qlt_le_weak. eapply Qle_lt_trans; [exact (Hmax b s Hb Hs)|exact Hlt].
        -- rewrite Hscore in Hs. injection Hs as <-. apply Qle_refl.
      * split; [apply in_or_app; right; by left|]. split; [done|].
        eapply Qle_lt_trans; [|exact Hlt].
        destruct (fst best);
          [destruct Hbest as (_ & _ & ?); by apply Qlt_le_weak|]. rewrite Hbest. apply Qle_refl.
    + apply Qltb_false in Hlt. split.
      * intros b s Hb Hs. apply in_app_or in Hb as [Hb|[<-|[]]]; [exact (Hmax b s Hb Hs)|].
        rewrite Hscore in Hs. by injection Hs as <-.
      * destruct (fst best); [|done]. destruct Hbest as (? & ? & ?).
        split; [apply in_or_app; by left|done].
  - split.
    + intros b s Hb Hs. apply in_app_or in Hb as [Hb|[<-|[]]]; [exact (Hmax b s Hb Hs)|].
      by rewrite Hscore in Hs.
    + destruct (fst best); [|done]. destruct Hbest as (? & ? & ?).
      split; [apply in_or_app; by left|done].
Qed.

Lemma bestOf_fold skill (l seen : list Agent.t) best :
  bestOf skill seen best -> bestOf skill (seen ++ l) (fold_left (betterAgent skill) l best).
Proof.
  revert seen best. induction l as [|x l IH]; intros seen best H; simpl.
  - by rewrite app_nil_r.
  - replace (seen ++ x :: l) with ((seen ++ [x]) ++ l) by (by rewrite <- app_assoc).
    by apply IH, bestOf_step.
Qed.

(** X28. [getBestAgentForSkill] returns an available agent that has the
    skill with a positive score, proficiency times rate over 100, at
    least as high as the score of every available agent with the skill;
    it returns nobody only when no available agent has a positive score.
    The load of the agents plays no part. *)
Theorem getBestAgentForSkill_is_best (skill : string) (o : t) :
  match getBestAgentForSkill skill o with
  | Some a =>
      In a (agents o) /\ Agent.status a = AgentStatus.available /\
      exists s, skillScore skill a = Some s /\ (0 < s)%Q /\
        forall b s', In b (agents o) -> Agent.status b = AgentStatus.available ->
                     skillScore skill b = Some s' -> (s' <= s)%Q
  | None =>
      forall b s', In b (agents o) -> Agent.status b = AgentStatus.available ->
                   skillScore skill b = Some s' -> (s' <= 0)%Q
  end.
Proof.
  unfold getBestAgentForSkill.
  set (available := List.filter _ (agents o)).
  assert (Hav : forall b, In b available <->
                          In b (agents o) /\ Agent.status b = AgentStatus.available).
  { intros b. unfold available. rewrite filter_In. by rewrite bool_decide_eq_true. }
  pose proof (bestOf_fold skill available [] (None, 0%Q)) as Hfold.
  destruct Hfold as [Hmax Hbest]; [by split|]. simpl in Hmax, Hbest.
  destruct (fold_left _ _ _) as [[a|] score]; simpl in *.
  - destruct Hbest as (Ha & Hs & Hpos). apply Hav in Ha as [Ha Hst].
    repeat split; try done. exists score. repeat split; try done.
    intros b s' Hb Hbst. apply Hmax. by apply Hav.
  - subst score. intros b s' Hb Hbst. apply Hmax. by apply Hav.
Qed.

Lemma Math_round_comp (x y : Q) : (x == y)%Q -> JS.Math_round x = JS.Math_round y.
Proof. intros H. unfold JS.Math_round. by rewrite H. Qed.

Lemma reachable_consistent (o : t) (k : option Suspended) :
  reachable (o, k) -> loadConsistent o.
Proof.
  intros Hreach.
  apply (kept_reachable loadConsistent keepsConsistent
           loadConsistent_agents loadConsistent_alter keepsConsistent_status
           keepsConsistent_pushTask keepsConsistent_clearTasks
           keepsConsistent_completeAgentTask keepsConsistent_failAgentTask (o, k)).
  - apply loadConsistent_new.
  - intros agent o0 _ Hagent. by apply loadConsistent_registerAgent.
  - exact Hreach.
Qed.

Lemma length_modify_first {A : Type} (p : A -> bool) (f : A -> A) (l : list A) :
  length (JS.modify_first p f l) = length l.
Proof. induction l as [|x l IH]; [done|]. simpl. destruct (p x); simpl; by rewrite ?IH. Qed.

Lemma built_has_agents (o : t) (k : option Suspended) :
  built (o, k) -> (3 <= length (agents o))%nat.
Proof.
  intros Hreach.
  apply (roster_built (fun o => (3 <= length (agents o))%nat) keepsId) with (c := (o, k));
    try done.
  - intros o1 o2 Ha _. by rewrite Ha.
  - intros agentId f o1 _ H. simpl. by rewrite length_modify_first.
  - intros agent o1 H. simpl. unfold setAgent. destruct (existsb _ _).
    + by rewrite length_modify_first.
    + rewrite length_app. lia.
Qed.

Lemma reachable_built (c : t * option Suspended) : reachable c -> built c.
Proof. induction 1; by constructor. Qed.

(** X29. In an orchestrator that the public operations have built from a
    new one, each operation being started when the reassignment pass of
    an earlier [updateAgentStatus] has run to its end and every agent
    handed to [registerAgent] having a positive [maxConcurrentTasks] and
    the load that fits its tasks, [getWorkloadSummary] counts at least
    the three default agents, its average load is a number, and it lists
    for every agent, in the order of the registry, its tasks and the load
    [Math.round((tasks / maxConcurrentTasks) * 100)] as the code
    evaluates it, the quotient and the product rounded to doubles. *)
Theorem reachable_workload_summary (o : t) (k : option Suspended) :
  reachable (o, k) ->
  let s := getWorkloadSummary o in
  3 <= WorkloadSummary.totalAgents s /\
  0 <= WorkloadSummary.availableAgents s <= WorkloadSummary.totalAgents s /\
  is_Some (WorkloadSummary.averageLoad s) /\
  Forall2 (fun a l =>
             AgentLoad.agentId l = Agent.id a /\
             AgentLoad.tasks l = Z.of_nat (length (Agent.activeTasks a)) /\
             AgentLoad.load l =
               JS.Math_round (JS.mul (JS.div (inject_Z (AgentLoad.tasks l))
                                             (inject_Z (Agent.maxConcurrentTasks a))) 100))
          (agents o) (WorkloadSummary.agentLoads s).
Proof.
  intros Hreach s. pose proof (built_has_agents o k (reachable_built _ Hreach)) as Hlen.
  pose proof (reachable_consistent o k Hreach) as Hload.
  unfold s, getWorkloadSummary. cbn [WorkloadSummary.totalAgents
    WorkloadSummary.availableAgents WorkloadSummary.averageLoad WorkloadSummary.agentLoads].
  split; [lia|]. split; [split; [lia|apply inj_le, filter_length_le]|].
  split; [destruct (agents o); [simpl in Hlen; lia|by eexists]|].
  apply Forall2_fmap_r, Forall_Forall2_diag, Forall_forall. intros a Ha.
  cbn [AgentLoad.agentId AgentLoad.tasks AgentLoad.load].
  split; [reflexivity|]. split; [reflexivity|].
  apply Math_round_comp. apply Hload. by apply list_elem_of_In.
Qed.

(** *** The theorems at concrete runs *)

(** The theorem at the first task of the default orchestrator. *)
Lemma assignTask_assigns_eligible_witness :
  exists asg, assignments Scenario.f1 !! "t" = Some asg /\
              TaskAssignment.status asg = AssignmentStatus.assigned.
Proof.
  assert (Hrun : exists asg, assignTask 0 (Scenario.task "t" None None) Scenario.o0
                             = (Scenario.f1, inr asg)).
  { unfold Scenario.f1.
    destruct (assignTask 0 (Scenario.task "t" None None) Scenario.o0) as [o' [err|asg]] eqn:Hr.
    - assert (Hsnd : succeeded (assignTask 0 (Scenario.task "t" None None) Scenario.o0) = true)
        by (vm_compute; reflexivity).
      rewrite Hr in Hsnd. discriminate Hsnd.
    - exists asg. reflexivity. }
  destruct Hrun as [asg Hrun].
  destruct (assignTask_assigns_eligible _ _ _ _ _ Hrun)
    as (agent & _ & _ & _ & _ & Hstatus & _ & Hstored & _).
  exists asg. split; [exact Hstored|exact Hstatus].
Defined.

(** The theorem at the orchestrator whose agents are all offline. *)
Lemma assignTask_no_suitable_agent_witness :
  assignTask 1 (Scenario.task "t" None None) Scenario.down =
    (Scenario.down, inl NoSuitableAgent).
Proof.
  apply (proj1 (assignTask_no_suitable_agent Scenario.down 1 (Scenario.task "t" None None))).
  intros a Ha. vm_compute in Ha. destruct Ha as [<-|[<-|[<-|[]]]]; reflexivity.
Defined.

(** The theorem at a new round-robin orchestrator with which an agent is
    registered whose load does not fit its tasks. *)
Lemma built_assignTask_total_witness :
  exists o' asg, assignTask 0 (Scenario.task "t" None None) Scenario.s0 = (o', inr asg).
Proof.
  apply (built_assignTask_total Scenario.s0 None 0 (Scenario.task "t" None None)).
  - apply built_registerAgent, built_new.
  - exists claudeOpus. split; [left; reflexivity|reflexivity].
Defined.

(** The theorem at a new round-robin orchestrator, whose queue starts with claude-3-opus. *)
Lemma round_robin_takes_turns_witness :
  exists o' asg, assignTask 0 (Scenario.task "t" None None) Scenario.rr0 = (o', inr asg) /\
    TaskAssignment.agentId asg = "claude-3-opus" /\
    agentQueue o' = ["gpt-4-turbo"; "gemini-pro"; "claude-3-opus"].
Proof.
  apply (round_robin_takes_turns Scenario.rr0 0 (Scenario.task "t" None None)
           [] "claude-3-opus" ["gpt-4-turbo"; "gemini-pro"]).
  - reflexivity.
  - reflexivity.
  - reflexivity.
  - intros a _ [].
  - exists claudeOpus. split; [left; reflexivity|]. split; reflexivity.
Defined.

(** The theorem at a new least-loaded orchestrator. *)
Lemma least_loaded_picks_minimum_witness :
  exists agent, In agent (agents Scenario.l0) /\
    forall b, In b (agents Scenario.l0) -> eligible b = true ->
              (Agent.currentLoad agent <= Agent.currentLoad b)%Q.
Proof.
  destruct (assignTask 0 (Scenario.task "t" None None) Scenario.l0) as [o' [err|asg]] eqn:Hr.
  - assert (Hsnd : succeeded (assignTask 0 (Scenario.task "t" None None) Scenario.l0) = true)
      by (vm_compute; reflexivity).
    rewrite Hr in Hsnd. discriminate Hsnd.
  - destruct (least_loaded_picks_minimum Scenario.l0 o' 0 (Scenario.task "t" None None) asg
                (or_introl eq_refl) eq_refl Hr) as (agent & Hin & _ & _ & Hmin).
    exists agent. split; [exact Hin|exact Hmin].
Defined.

(** The theorem at a task id the default orchestrator has not seen. *)
Lemma unknown_task_is_rejected_witness :
  failTask 1 "ghost" "boom" true Scenario.o0 = (Scenario.o0, inl (TaskNotFound "ghost")).
Proof.
  apply (proj2 (proj2 (proj1 (unknown_task_is_rejected Scenario.o0 1 "ghost") eq_refl))).
Defined.

(** The theorem at the task linked to the running step of the run [e3]. *)
Lemma completeTask_runs_linked_step_witness :
  workflowEngine (fst (completeTask 5 "job" None None Scenario.linked1)) =
  fst (WorkflowEngine.completeStep 5 "w" "s1" None None (workflowEngine Scenario.linked1)).
Proof.
  destruct (assignments Scenario.linked1 !! "job") as [asg|] eqn:Hasg;
    [|vm_compute in Hasg; discriminate Hasg].
  pose proof Hasg as Hasg0. vm_compute in Hasg0. injection Hasg0 as Hasg0.
  destruct (getAgent (TaskAssignment.agentId asg) Scenario.linked1) as [agent|] eqn:Hagent;
    [|subst asg; vm_compute in Hagent; discriminate Hagent].
  assert (Hw : TaskAssignment.workflowId asg = Some "w") by (by subst asg).
  assert (Hs : TaskAssignment.stepId asg = Some "s1") by (by subst asg).
  assert (Hwne : "w" <> "") by discriminate.
  assert (Hsne : "s1" <> "") by discriminate.
  exact (proj1 (completeTask_runs_linked_step Scenario.linked1 5 "job" None asg agent
                  "w" "s1" Hasg Hagent Hw Hwne Hs Hsne)).
Defined.

(** The theorem at the first assignment of the default orchestrator. *)
Lemma operations_keep_roster_witness : sameRoster Scenario.o0 Scenario.f1.
Proof. apply operations_keep_roster. apply op_assignTask. Defined.

(** The theorem at the failure that leads from the run [f1] to [f2]. *)
Lemma operations_never_raise_successRate_witness :
  exists p', getAgentMetrics "claude-3-opus" Scenario.f2 = Some p' /\
             (Performance.successRate p' <= 95)%Q.
Proof.
  destruct (getAgentMetrics "claude-3-opus" Scenario.f1) as [p|] eqn:Hp;
    [|vm_compute in Hp; discriminate Hp].
  pose proof Hp as Hp0. vm_compute in Hp0. injection Hp0 as Hp0.
  assert (Hn : 0 <= Performance.tasksCompleted p) by (subst p; simpl; lia).
  assert (Hrate : (0 <= Performance.successRate p)%Q) by (subst p; simpl; lra).
  destruct (operations_never_raise_successRate Scenario.f1 Scenario.f2 "claude-3-opus" p
              (op_failTask Scenario.f1 1 "t" "boom" true) Hp Hn Hrate)
    as (p' & Hp' & _ & _ & Hle).
  exists p'. split; [exact Hp'|]. subst p. exact Hle.
Defined.

(** The theorem at the run [f1]: the agent has completed no task. *)
Lemma failTask_discounts_successRate_witness :
  exists p', getAgentMetrics "claude-3-opus" Scenario.f2 = Some p' /\
             (Performance.successRate p' == 0)%Q.
Proof.
  destruct (assignments Scenario.f1 !! "t") as [asg|] eqn:Hasg;
    [|vm_compute in Hasg; discriminate Hasg].
  pose proof Hasg as Hasg0. vm_compute in Hasg0. injection Hasg0 as Hasg0.
  destruct (getAgent (TaskAssignment.agentId asg) Scenario.f1) as [agent|] eqn:Hagent;
    [|subst asg; vm_compute in Hagent; discriminate Hagent].
  destruct (failTask_discounts_successRate Scenario.f1 1 "t" "boom" true asg agent Hasg Hagent)
    as (p' & Hp' & _ & _ & Hzero).
  exists p'. split.
  - subst asg. exact Hp'.
  - apply Hzero. subst asg. vm_compute in Hagent. injection Hagent as <-. reflexivity.
Defined.

(** The theorem at the run [s1] and its task, which is on the agent
    registered with a load that does not fit. *)
Lemma built_assignment_has_agent_witness :
  exists asg, assignments Scenario.s1 !! "t" = Some asg /\
              is_Some (getAgent (TaskAssignment.agentId asg) Scenario.s1).
Proof.
  destruct (assignments Scenario.s1 !! "t") as [asg|] eqn:Hasg;
    [|vm_compute in Hasg; discriminate Hasg].
  exists asg. split; [reflexivity|].
  apply (built_assignment_has_agent Scenario.s1 None 0 "t" asg); [|exact Hasg].
  apply (built_assignTask 0 (Scenario.task "t" None (Some "S")) Scenario.s0).
  apply built_registerAgent, built_new.
Defined.

(** The theorem at the default agents and the skill debugging. *)
Lemma getBestAgentForSkill_is_best_witness :
  exists a, getBestAgentForSkill "debugging" Scenario.o0 = Some a /\
            Agent.status a = AgentStatus.available.
Proof.
  pose proof (getBestAgentForSkill_is_best "debugging" Scenario.o0) as H.
  destruct (getBestAgentForSkill "debugging" Scenario.o0) as [a|] eqn:Ha;
    [|vm_compute in Ha; discriminate Ha].
  exists a. split; [reflexivity|]. exact (proj1 (proj2 H)).
Defined.

(** The run [busy] is within the operations that are taken. *)
Lemma reachable_busy : reachable (Scenario.busy, None).
Proof.
  unfold Scenario.busy. generalize (seq 1 23).
  assert (Hwide : reachable (Scenario.wide, None)).
  { apply reach_registerAgent; [apply reach_new|reflexivity|vm_compute; reflexivity]. }
  revert Hwide. generalize Scenario.wide.
  intros o Ho l. revert o Ho. induction l as [|i l IH]; intros o Ho; [exact Ho|].
  simpl. apply IH. unfold Scenario.assignTo. by apply reach_assignTask.
Qed.

(** The theorem at the run [busy]. *)
Lemma reachable_workload_summary_witness :
  let s := getWorkloadSummary Scenario.busy in
  3 <= WorkloadSummary.totalAgents s /\
  0 <= WorkloadSummary.availableAgents s <= WorkloadSummary.totalAgents s /\
  is_Some (WorkloadSummary.averageLoad s) /\
  Forall2 (fun a l =>
             AgentLoad.agentId l = Agent.id a /\
             AgentLoad.tasks l = Z.of_nat (length (Agent.activeTasks a)) /\
             AgentLoad.load l =
               JS.Math_round (JS.mul (JS.div (inject_Z (AgentLoad.tasks l))
                                             (inject_Z (Agent.maxConcurrentTasks a))) 100))
          (agents Scenario.busy) (WorkloadSummary.agentLoads s).
Proof. exact (reachable_workload_summary Scenario.busy None reachable_busy). Defined.

(** At the run [busy] the agent with twenty-three tasks of forty is
    listed with a load of 57: its load is the double 57.49999999999999. *)
Lemma workload_summary_rounds_the_double :
  (fun l => (AgentLoad.agentId l, AgentLoad.tasks l, AgentLoad.load l))
    <$> last (WorkloadSummary.agentLoads (getWorkloadSummary Scenario.busy))
    = Some ("W", 23, 57) /\
  JS.Math_round (100 * 23 / 40)%Q = 58.
Proof. split; vm_compute; reflexivity. Qed.

(** The theorem at the default agents and the score of the performance
    strategy. *)
Lemma highest_score_first_wins_witness :
  exists h, highestScoring (performanceScore None) (agents Scenario.p0) = Some h /\
            firstHighest (performanceScore None) (agents Scenario.p0) h.
Proof.
  apply (highest_score_first_wins (performanceScore None) (agents Scenario.p0)).
  intros H. vm_compute in H. discriminate H.
Defined.

End AgentOrchestratorBehaviour.

(** ** Handoff server: what the validation reports *)

Module HandoffMCPBehaviour.
Import HandoffMCP.

Lemma dropWhile_all {A : Type} (p : A -> bool) (l : list A) :
  Forall (fun x => p x = true) l -> dropWhile p l = [].
Proof. induction 1 as [|x l Hx _ IH]; [done|]. simpl. by rewrite Hx. Qed.

Lemma trim_white_space (s : JSString) :
  Forall (fun c => isWhiteSpace c = true) s -> trim s = [].
Proof. intros H. unfold trim. by rewrite (dropWhile_all _ _ H). Qed.

(** X30. [validateHandoff] throws "Handoff not found" for an id the storage
    does not hold. For a stored handoff it reports a score between 0 and
    100; the handoff is valid exactly when no issue is listed, which is
    exactly when the score is 100; the score is 0 exactly when all five
    issues are listed; and a title made of white space only is reported as
    missing, so that the score is at most 80. *)
Theorem validateHandoff_score (getHandoff : string -> option HandoffRequest)
  (handoff_id : string) :
  (getHandoff handoff_id = None ->
   validateHandoff getHandoff handoff_id = inl (HandoffNotFound handoff_id)) /\
  (forall handoff, getHandoff handoff_id = Some handoff ->
   exists validation, validateHandoff getHandoff handoff_id = inr validation /\
     (is_valid validation = true <-> issues validation = []) /\
     (is_valid validation = true <-> score validation = 100) /\
     0 <= score validation <= 100 /\
     (score validation = 0 <-> length (issues validation) = 5%nat) /\
     (Forall (fun c => isWhiteSpace c = true) (title handoff) ->
      In "Missing or empty title"%string (issues validation) /\
      score validation <= 80)).
Proof.
  unfold validateHandoff. split; [by intros ->|]. intros handoff ->.
  eexists. split; [done|]. cbv zeta.
  assert (Htitle : Forall (fun c => isWhiteSpace c = true) (title handoff) ->
            falsy (title handoff) || bool_decide (length (trim (title handoff)) = 0%nat)
            = true).
  { intros H. rewrite (trim_white_space _ H). apply orb_true_r. }
  destruct (falsy (title handoff) || _) eqn:H1;
    destruct (falsy (strategic_context handoff) || _);
    destruct (bool_decide (length (tactical_requirements handoff) = 0%nat));
    destruct (bool_decide (length (acceptance_criteria handoff) = 0%nat));
    destruct (bool_decide (length (project_info handoff) = 0%nat));
    unfold check; cbn [issues score is_valid app length]; rewrite ?bool_decide_eq_true;
    (split; [split; [done | try done; intros Hx; try lia; discriminate Hx] |]);
    (split; [split; intros Hx; first [done | lia | discriminate Hx] |]);
    (split; [lia |]);
    (split; [split; intros Hx; first [done | lia | discriminate Hx] |]);
    (intros H; first [by specialize (Htitle H) | split; [by left | lia]]).
Qed.

Lemma validateHandoff_score_witness :
  stored "h2" = None /\
  stored "h1" = Some blank /\
  validateHandoff stored "h2" = inl (HandoffNotFound "h2") /\
  exists validation, validateHandoff stored "h1" = inr validation /\
    In "Missing or empty title"%string (issues validation) /\ score validation <= 80.
Proof.
  split; [reflexivity|]. split; [reflexivity|].
  destruct (validateHandoff_score stored "h2") as [Hnone _].
  destruct (validateHandoff_score stored "h1") as [_ Hsome].
  split; [exact (Hnone eq_refl)|].
  destruct (Hsome blank eq_refl) as (validation & Hrun & _ & _ & _ & _ & Hwhite).
  exists validation. split; [exact Hrun|].
  apply Hwhite. unfold blank. simpl. repeat constructor.
Defined.

End HandoffMCPBehaviour.
